(** * OPD token allocation engine: a shallow embedding and its properties

    The development follows [src/utils/allocationEngine.ts] (the five
    transactional operations and the private [allocateToken]) and
    [src/utils/helper.ts] (the pure helpers they call).

    Modelling conventions.
    - The Prisma store is a record of tables, each table a list of rows in
      insertion order.  [findUnique] returns the first row with the key,
      [update] rewrites that row, [updateMany] rewrites every matching row,
      [findMany ... orderBy] filters and then sorts stably.
    - A JavaScript [Date] is its epoch value in milliseconds, an integer.
      A slot's [date] is local midnight of its day, so [setHours(h, m, 0, 0)]
      on it is [date + (60 h + m) * 60000].
    - An [HH:MM] string is the pair of its two numbers; the store's string
      order on zero-padded [HH:MM] is the lexicographic order on the pairs.
    - The clock is read once per operation: [now] is a parameter.
    - Columns the engine neither reads nor sets ([updatedAt] of every
      table, the doctor's name, the slot's timestamps) are left out.
    - A thrown [AppError] aborts the transaction: the operation's outcome is
      [Throw e] and the committed store is the one before the call.
    - [allocateToken] calls itself on a displaced token; the embedding is
      by recursion on a fuel counter, and [OutOfFuel] is the outcome when
      the counter does not cover the call depth. *)

From Stdlib Require Import List ZArith Bool Lia String Ascii.
From Stdlib Require Import Sorting.Sorted Sorting.Permutation.
From Stdlib Require Import DecimalString.
Import ListNotations.
Local Open Scope string_scope.
Local Open Scope Z_scope.

Set Implicit Arguments.

(** ** Enumerations ([generated/prisma/enums]) *)

Module Priority.
Inductive t : Set := EMERGENCY | PAID | FOLLOWUP | ONLINE | WALKIN.

Definition eqb (a b : t) : bool :=
  match a, b with
  | EMERGENCY, EMERGENCY | PAID, PAID | FOLLOWUP, FOLLOWUP
  | ONLINE, ONLINE | WALKIN, WALKIN => true
  | _, _ => false
  end.
End Priority.

Module Source.
Inductive t : Set := WALKIN | ONLINE.

Definition eqb (a b : t) : bool :=
  match a, b with
  | WALKIN, WALKIN | ONLINE, ONLINE => true
  | _, _ => false
  end.
End Source.

Module TokenStatus.
Inductive t : Set :=
  WAITING | ALLOCATED | COMPLETED | CANCELLED | NO_SHOW | EXPIRED.

Definition eqb (a b : t) : bool :=
  match a, b with
  | WAITING, WAITING | ALLOCATED, ALLOCATED | COMPLETED, COMPLETED
  | CANCELLED, CANCELLED | NO_SHOW, NO_SHOW | EXPIRED, EXPIRED => true
  | _, _ => false
  end.
End TokenStatus.

(** ** Rows ([src/types/domain.ts]) *)

(** An [HH:MM] wall-clock time. *)
Record TimeOfDay : Set := HHMM { hours : Z; minutes : Z }.

Module Doctor.
Record t : Set := Build { id : string; isActive : bool }.
End Doctor.

Module Slot.
Record t : Set := Build {
  id : string;
  displayID : string;
  doctorId : string;
  date : Z;
  startTime : TimeOfDay;
  endTime : TimeOfDay;
  capacity : Z;
  paidCap : option Z;
  followUpCap : option Z;
  isActive : bool
}.
End Slot.

Module Token.
Record t : Set := Build {
  id : string;
  displayID : string;
  patientName : string;
  patientPhone : option string;
  patientAge : option Z;
  source : Source.t;
  priority : Priority.t;
  status : TokenStatus.t;
  slotId : option string;
  doctorId : string;
  date : Z;
  idempotencyKey : string;
  notes : option string;
  createdAt : Z;
  allocatedAt : option Z;
  completedAt : option Z;
  cancelledAt : option Z
}.
End Token.

(** The [details] object of an audit row. *)
Inductive JVal : Set :=
| JBool (b : bool)
| JNum (n : Z)
| JStr (s : string)
| JPriority (p : Priority.t)
| JSource (s : Source.t).

Module AuditLog.
Record t : Set := Build {
  operation : string;
  tokenId : option string;
  slotId : option string;
  doctorId : option string;
  details : list (string * JVal);
  timestamp : Z
}.
End AuditLog.

(** The store. *)
Record Db : Set := MkDb {
  doctors : list Doctor.t;
  slots : list Slot.t;
  tokens : list Token.t;
  auditLogs : list AuditLog.t
}.

(** ** Errors and outcomes *)

Inductive AppError : Set :=
| TOKEN_NOT_FOUND
| INVALID_STATUS
| ALREADY_CANCELLED
| CANNOT_CANCEL_COMPLETED
| DOCTOR_NOT_FOUND.

Inductive Outcome (A : Type) : Type :=
| Ok (a : A)
| Throw (e : AppError)
| OutOfFuel.
Arguments Throw {A} e.
Arguments OutOfFuel {A}.

Definition bind {A B : Type} (m : Outcome A) (k : A -> Outcome B) : Outcome B :=
  match m with
  | Ok a => k a
  | Throw e => Throw e
  | OutOfFuel => OutOfFuel
  end.

Notation "x <- m ;; k" := (bind m (fun x => k))
  (at level 61, m at next level, right associativity).

(** ** Pure helpers ([src/utils/helper.ts]) *)

Definition getPriorityOrder (priority : Priority.t) : Z :=
  match priority with
  | Priority.EMERGENCY => 1
  | Priority.PAID => 2
  | Priority.FOLLOWUP => 3
  | Priority.ONLINE => 4
  | Priority.WALKIN => 5
  end.

Definition capReached (cap : option Z) (count : Z) : bool :=
  match cap with
  | Some c => count >=? c
  | None => false
  end.

Definition canAllocateToSlot
    (priority : Priority.t)
    (currentPaidCount currentFollowUpCount currentTotalCount capacity : Z)
    (paidCap followUpCap : option Z) : bool :=
  if currentTotalCount >=? capacity then false
  else if Priority.eqb priority Priority.EMERGENCY then true
  else if Priority.eqb priority Priority.PAID && capReached paidCap currentPaidCount
  then false
  else if Priority.eqb priority Priority.FOLLOWUP
          && capReached followUpCap currentFollowUpCount
  then false
  else true.

(** One turn of the [for] loop of [findLowestPriorityToken]; the accumulator
    is [(lowestToken, lowestPriority)]. *)
Definition lowestStep (acc : Token.t * Z) (token : Token.t) : Token.t * Z :=
  let '(lowestToken, lowestPriority) := acc in
  let currentPriority := getPriorityOrder (Token.priority token) in
  if currentPriority >? lowestPriority then (token, currentPriority)
  else if currentPriority =? lowestPriority then
    if Token.createdAt token <? Token.createdAt lowestToken
    then (token, lowestPriority)
    else acc
  else acc.

Definition findLowestPriorityToken (tokens : list Token.t) : option string :=
  match tokens with
  | [] => None
  | first :: _ =>
      Some (Token.id
              (fst (fold_left lowestStep tokens
                      (first, getPriorityOrder (Token.priority first)))))
  end.

Definition isValidStatusTransition (from to : TokenStatus.t) : bool :=
  match from with
  | TokenStatus.WAITING =>
      existsb (TokenStatus.eqb to)
        [TokenStatus.ALLOCATED; TokenStatus.CANCELLED; TokenStatus.EXPIRED]
  | TokenStatus.ALLOCATED =>
      existsb (TokenStatus.eqb to)
        [TokenStatus.COMPLETED; TokenStatus.NO_SHOW; TokenStatus.CANCELLED;
         TokenStatus.WAITING]
  | TokenStatus.COMPLETED | TokenStatus.CANCELLED
  | TokenStatus.NO_SHOW | TokenStatus.EXPIRED => false
  end.

(** [new Date(slotDate)] followed by [setHours(hours, minutes, 0, 0)]. *)
Definition atTime (slotDate : Z) (time : TimeOfDay) : Z :=
  slotDate + (hours time * 60 + minutes time) * 60000.

Definition hasSlotEnded (now : Z) (slotEndTime : TimeOfDay) (slotDate : Z) : bool :=
  now >=? atTime slotDate slotEndTime.

(** [hoursDiff <= 1] with [hoursDiff = timeDiff / (1000 * 60 * 60)]: the
    quotient of an integer number of milliseconds by 3600000 is at most 1
    exactly when the number is at most 3600000. *)
Definition shouldPrioritizeWalkIn
    (now : Z) (slotStartTime slotEndTime : TimeOfDay) (slotDate : Z) : bool :=
  if hasSlotEnded now slotEndTime slotDate then false
  else
    let timeDiff := atTime slotDate slotStartTime - now in
    timeDiff <=? 1000 * 60 * 60.

(** ** Store queries *)

Definition optStrEqb (a : option string) (b : string) : bool :=
  match a with
  | Some x => String.eqb x b
  | None => false
  end.

(** JavaScript truthiness of a [string | null]. *)
Definition truthy (a : option string) : bool :=
  match a with
  | Some x => negb (String.eqb x "")
  | None => false
  end.

(** Stable insertion sort: [orderBy] of [findMany]. *)
Section Sorting.
Variable A : Type.
Variable leb : A -> A -> bool.

Fixpoint insertBy (x : A) (l : list A) : list A :=
  match l with
  | [] => [x]
  | y :: l' => if leb x y then x :: l else y :: insertBy x l'
  end.

Fixpoint sortBy (l : list A) : list A :=
  match l with
  | [] => []
  | x :: l' => insertBy x (sortBy l')
  end.
End Sorting.

(** [orderBy: { startTime: "asc" }]. *)
Definition timeLeb (a b : TimeOfDay) : bool :=
  (hours a <? hours b) || ((hours a =? hours b) && (minutes a <=? minutes b)).

Definition slotStartLeb (a b : Slot.t) : bool :=
  timeLeb (Slot.startTime a) (Slot.startTime b).

(** Modelled from the spec: the declaration order of the [Priority] enum
    in the Prisma schema, which is what [orderBy: { priority: "asc" }]
    sorts by; the schema is not among the sources.  Section 4.1 gives
    EMERGENCY < PAID < FOLLOWUP < ONLINE < WALKIN. *)
Definition priorityRank (p : Priority.t) : Z :=
  match p with
  | Priority.EMERGENCY => 0
  | Priority.PAID => 1
  | Priority.FOLLOWUP => 2
  | Priority.ONLINE => 3
  | Priority.WALKIN => 4
  end.

(** [orderBy: [{ priority: "asc" }, { createdAt: "asc" }]]. *)
Definition waitingLeb (a b : Token.t) : bool :=
  (priorityRank (Token.priority a) <? priorityRank (Token.priority b))
  || ((priorityRank (Token.priority a) =? priorityRank (Token.priority b))
      && (Token.createdAt a <=? Token.createdAt b)).

(** [tx.token.findUnique({ where: { id } })]. *)
Definition findToken (tokenId : string) (db : Db) : option Token.t :=
  find (fun t => String.eqb (Token.id t) tokenId) (tokens db).

(** [tx.token.findUnique({ where: { idempotencyKey } })]. *)
Definition findTokenByKey (key : string) (db : Db) : option Token.t :=
  find (fun t => String.eqb (Token.idempotencyKey t) key) (tokens db).

Definition findSlot (slotId : string) (db : Db) : option Slot.t :=
  find (fun s => String.eqb (Slot.id s) slotId) (slots db).

(** [include: { slot: true }]: the row the token's [slotId] refers to. *)
Definition tokenSlot (token : Token.t) (db : Db) : option Slot.t :=
  match Token.slotId token with
  | Some sid => findSlot sid db
  | None => None
  end.

(** [tx.doctor.findUnique({ where: { id, isActive: true } })]. *)
Definition findActiveDoctor (doctorId : string) (db : Db) : option Doctor.t :=
  find (fun d => String.eqb (Doctor.id d) doctorId && Doctor.isActive d)
       (doctors db).

(** The [data] of a token update: [None] leaves the column as it is. *)
Record TokenData : Set := MkData {
  setStatus : option TokenStatus.t;
  setSlotId : option (option string);
  setAllocatedAt : option (option Z);
  setCompletedAt : option (option Z);
  setCancelledAt : option (option Z)
}.

Definition orKeep {A : Type} (new : option A) (old : A) : A :=
  match new with
  | Some v => v
  | None => old
  end.

Definition applyData (d : TokenData) (t : Token.t) : Token.t :=
  Token.Build (Token.id t) (Token.displayID t) (Token.patientName t)
    (Token.patientPhone t) (Token.patientAge t) (Token.source t)
    (Token.priority t)
    (orKeep (setStatus d) (Token.status t))
    (orKeep (setSlotId d) (Token.slotId t))
    (Token.doctorId t) (Token.date t) (Token.idempotencyKey t)
    (Token.notes t) (Token.createdAt t)
    (orKeep (setAllocatedAt d) (Token.allocatedAt t))
    (orKeep (setCompletedAt d) (Token.completedAt t))
    (orKeep (setCancelledAt d) (Token.cancelledAt t)).

Fixpoint updateFirst (tokenId : string) (d : TokenData) (l : list Token.t)
  : list Token.t :=
  match l with
  | [] => []
  | t :: l' =>
      if String.eqb (Token.id t) tokenId then applyData d t :: l'
      else t :: updateFirst tokenId d l'
  end.

Definition withTokens (db : Db) (l : list Token.t) : Db :=
  MkDb (doctors db) (slots db) l (auditLogs db).

(** [tx.token.update({ where: { id }, data })]. *)
Definition updateToken (tokenId : string) (d : TokenData) (db : Db) : Db :=
  withTokens db (updateFirst tokenId d (tokens db)).

(** [tx.auditLog.create({ data })]. *)
Definition createAudit (a : AuditLog.t) (db : Db) : Db :=
  MkDb (doctors db) (slots db) (tokens db) (auditLogs db ++ [a]).

(** The relation [slot.tokens] restricted by
    [where: { status: TokenStatus.ALLOCATED }]. *)
Definition allocatedIn (slotId : string) (t : Token.t) : bool :=
  optStrEqb (Token.slotId t) slotId
  && TokenStatus.eqb (Token.status t) TokenStatus.ALLOCATED.

Definition allocatedTokensOf (slotId : string) (db : Db) : list Token.t :=
  filter (allocatedIn slotId) (tokens db).

(** The [tx.slot.findMany] of [allocateToken]: active slots of the doctor
    and date, each with its allocated tokens, by ascending start time. *)
Definition activeSlotsFor (doctorId : string) (date : Z) (db : Db)
  : list Slot.t :=
  sortBy slotStartLeb
    (filter (fun s => String.eqb (Slot.doctorId s) doctorId
                      && (Slot.date s =? date)
                      && Slot.isActive s)
            (slots db)).

Definition findManySlots (doctorId : string) (date : Z) (db : Db)
  : list (Slot.t * list Token.t) :=
  map (fun s => (s, allocatedTokensOf (Slot.id s) db))
      (activeSlotsFor doctorId date db).

(** ** Results and inputs ([src/types/domain.ts]) *)

Module AllocationResult.
Record t : Set := Build {
  success : bool;
  token : option Token.t;      (* the value of a [findUnique]: row or null *)
  slot : option Slot.t;
  message : string
}.
End AllocationResult.

Module ReallocationResult.
Record t : Set := Build {
  success : bool;
  movedTokens : list (option Token.t);
  freedSlot : option Slot.t;
  message : string
}.
End ReallocationResult.

(** [date] is [parseDate(input.date)].  [newId] and [newDisplayID] are what
    the store and [generateTokenDisplayID] produce for the new row. *)
Module CreateTokenInput.
Record t : Set := Build {
  patientName : string;
  patientPhone : option string;
  patientAge : option Z;
  doctorId : string;
  date : Z;
  source : Source.t;
  priority : Priority.t;
  idempotencyKey : string;
  notes : option string;
  newId : string;
  newDisplayID : string
}.
End CreateTokenInput.

Definition showNat (n : nat) : string := NilEmpty.string_of_uint (Nat.to_uint n).

Definition len {A : Type} (l : list A) : Z := Z.of_nat (List.length l).

(** ** The engine ([src/utils/allocationEngine.ts]) *)

Definition allocateData (slotId : string) (now : Z) : TokenData :=
  MkData (Some TokenStatus.ALLOCATED) (Some (Some slotId)) (Some (Some now))
         None None.

Definition displaceData : TokenData :=
  MkData (Some TokenStatus.WAITING) (Some None) (Some None) None None.

Definition cancelData (now : Z) : TokenData :=
  MkData (Some TokenStatus.CANCELLED) (Some None) None None (Some (Some now)).

Definition noShowData : TokenData :=
  MkData (Some TokenStatus.NO_SHOW) (Some None) None None None.

Definition completeData (now : Z) : TokenData :=
  MkData (Some TokenStatus.COMPLETED) None None (Some (Some now)) None.

Definition expireData : TokenData :=
  MkData (Some TokenStatus.EXPIRED) None None None None.

Definition paidCountOf (allocatedTokens : list Token.t) : Z :=
  len (filter (fun t => Priority.eqb (Token.priority t) Priority.PAID)
              allocatedTokens).

Definition followUpCountOf (allocatedTokens : list Token.t) : Z :=
  len (filter (fun t => Priority.eqb (Token.priority t) Priority.FOLLOWUP)
              allocatedTokens).

(** The [canAllocate] of one turn of the slot loop. *)
Definition canAllocate (token : Token.t) (entry : Slot.t * list Token.t) : bool :=
  let '(slot, allocatedTokens) := entry in
  canAllocateToSlot (Token.priority token)
    (paidCountOf allocatedTokens) (followUpCountOf allocatedTokens)
    (len allocatedTokens)
    (Slot.capacity slot) (Slot.paidCap slot) (Slot.followUpCap slot).

Definition noSlotFound (token : Token.t) : AllocationResult.t :=
  AllocationResult.Build false (Some token) None
    "All slots are full or capacity limits reached".

(** The [for (const slot of availableSlots)] loop of [allocateToken];
    [self] is the recursive call on the displaced token. *)
Fixpoint allocateLoop
    (self : string -> Db -> Outcome (Db * AllocationResult.t))
    (now : Z) (tokenId : string) (token : Token.t) (db : Db)
    (availableSlots : list (Slot.t * list Token.t))
  : Outcome (Db * AllocationResult.t) :=
  match availableSlots with
  | [] => Ok (db, noSlotFound token)
  | (slot, allocatedTokens) :: rest =>
      let currentTotalCount := len allocatedTokens in
      if canAllocate token (slot, allocatedTokens) then
        if currentTotalCount <? Slot.capacity slot then
          let db1 := updateToken tokenId (allocateData (Slot.id slot) now) db in
          Ok (db1,
              AllocationResult.Build true (findToken tokenId db1) (Some slot)
                "Token allocated successfully")
        else if Priority.eqb (Token.priority token) Priority.EMERGENCY
                && (currentTotalCount >=? Slot.capacity slot) then
          let displaced := findLowestPriorityToken allocatedTokens in
          match displaced with
          | Some displacedTokenId =>
              if truthy displaced then
                let db1 := updateToken displacedTokenId displaceData db in
                let db2 :=
                  updateToken tokenId (allocateData (Slot.id slot) now) db1 in
                r <- self displacedTokenId db2 ;;
                let db3 := fst r in
                let updatedToken := findToken tokenId db3 in
                let db4 :=
                  createAudit
                    (AuditLog.Build "EMERGENCY_DISPLACEMENT" (Some tokenId)
                       (Some (Slot.id slot)) (Some (Token.doctorId token))
                       [("displacedTokenId", JStr displacedTokenId)] now)
                    db3 in
                Ok (db4,
                    AllocationResult.Build true updatedToken (Some slot)
                      "Emergency token allocated, displaced lower priority token")
              else allocateLoop self now tokenId token db rest
          | None => allocateLoop self now tokenId token db rest
          end
        else allocateLoop self now tokenId token db rest
      else allocateLoop self now tokenId token db rest
  end.

Definition availableSlotsFor (now : Z) (token : Token.t) (db : Db)
  : list (Slot.t * list Token.t) :=
  filter (fun e => negb (hasSlotEnded now (Slot.endTime (fst e)) (Slot.date (fst e))))
         (findManySlots (Token.doctorId token) (Token.date token) db).

Fixpoint allocateToken (fuel : nat) (now : Z) (tokenId : string) (db : Db)
  : Outcome (Db * AllocationResult.t) :=
  match fuel with
  | O => OutOfFuel
  | S fuel' =>
      match findToken tokenId db with
      | None => Throw TOKEN_NOT_FOUND
      | Some token =>
          if negb (TokenStatus.eqb (Token.status token) TokenStatus.WAITING)
          then Throw INVALID_STATUS
          else
            let availableSlots := availableSlotsFor now token db in
            if (List.length availableSlots =? 0)%nat then
              Ok (db,
                  AllocationResult.Build false (Some token) None
                    "No available slots")
            else
              allocateLoop (allocateToken fuel' now) now tokenId token db availableSlots
      end
  end.

Definition newToken (input : CreateTokenInput.t) (now : Z) : Token.t :=
  Token.Build (CreateTokenInput.newId input)
    (CreateTokenInput.newDisplayID input)
    (CreateTokenInput.patientName input)
    (CreateTokenInput.patientPhone input)
    (CreateTokenInput.patientAge input)
    (CreateTokenInput.source input)
    (CreateTokenInput.priority input)
    TokenStatus.WAITING None
    (CreateTokenInput.doctorId input)
    (CreateTokenInput.date input)
    (CreateTokenInput.idempotencyKey input)
    (CreateTokenInput.notes input)
    now None None None.

Definition createToken (fuel : nat) (now : Z) (input : CreateTokenInput.t)
    (db : Db) : Outcome (Db * AllocationResult.t) :=
  match findTokenByKey (CreateTokenInput.idempotencyKey input) db with
  | Some existingToken =>
      Ok (db,
          AllocationResult.Build true (Some existingToken)
            (tokenSlot existingToken db)
            "Token already exists (idempotent request)")
  | None =>
      match findActiveDoctor (CreateTokenInput.doctorId input) db with
      | None => Throw DOCTOR_NOT_FOUND
      | Some _ =>
          let token := newToken input now in
          let db1 := withTokens db (tokens db ++ [token]) in
          r <- allocateToken fuel now (Token.id token) db1 ;;
          let '(db2, allocationResult) := r in
          let db3 :=
            createAudit
              (AuditLog.Build "CREATE_TOKEN" (Some (Token.id token)) None
                 (Some (CreateTokenInput.doctorId input))
                 [("priority", JPriority (CreateTokenInput.priority input));
                  ("source", JSource (CreateTokenInput.source input));
                  ("allocated",
                   JBool (AllocationResult.success allocationResult))]
                 now)
              db2 in
          Ok (db3, allocationResult)
      end
  end.

(** The two [tx.token.findMany] of the reallocation block, which
    [cancelToken] and [markNoShow] both contain verbatim: waiting tokens of
    the doctor and date, walk-ins only when [walkInOnly]. *)
Definition findWaiting (walkInOnly : bool) (doctorId : string) (date : Z)
    (db : Db) : list Token.t :=
  sortBy waitingLeb
    (filter (fun t => String.eqb (Token.doctorId t) doctorId
                      && (Token.date t =? date)
                      && TokenStatus.eqb (Token.status t) TokenStatus.WAITING
                      && (negb walkInOnly
                          || Source.eqb (Token.source t) Source.WALKIN))
            (tokens db)).

(** [waitingTokens] as the block leaves it before its [for] loop. *)
Definition selectWaitingTokens (now : Z) (token : Token.t) (slot : Slot.t)
    (db : Db) : list Token.t :=
  let prioritizeWalkIn :=
    shouldPrioritizeWalkIn now (Slot.startTime slot) (Slot.endTime slot)
      (Slot.date slot) in
  let waitingTokens :=
    findWaiting prioritizeWalkIn (Token.doctorId token) (Token.date token) db in
  if (List.length waitingTokens =? 0)%nat && prioritizeWalkIn then
    findWaiting false (Token.doctorId token) (Token.date token) db
  else waitingTokens.

(** [for (const waitingToken of waitingTokens)]: allocate each in turn and
    collect the tokens of the successful results. *)
Fixpoint reallocateLoop (fuel : nat) (now : Z) (waitingTokens : list Token.t)
    (db : Db) (movedTokens : list (option Token.t))
  : Outcome (Db * list (option Token.t)) :=
  match waitingTokens with
  | [] => Ok (db, movedTokens)
  | waitingToken :: rest =>
      r <- allocateToken fuel now (Token.id waitingToken) db ;;
      let '(db1, result) := r in
      reallocateLoop fuel now rest db1
        (if AllocationResult.success result
         then movedTokens ++ [AllocationResult.token result]
         else movedTokens)
  end.

Definition endedAudit (operation : string) (token : Token.t) (now : Z)
  : AuditLog.t :=
  AuditLog.Build operation (Some (Token.id token)) (Token.slotId token)
    (Some (Token.doctorId token))
    [("movedTokensCount", JNum 0); ("reason", JStr "Slot already ended")] now.

Definition movedAudit (operation : string) (token : Token.t)
    (movedTokens : list (option Token.t)) (now : Z) : AuditLog.t :=
  AuditLog.Build operation (Some (Token.id token)) (Token.slotId token)
    (Some (Token.doctorId token))
    [("movedTokensCount", JNum (len movedTokens))] now.

Definition cancelToken (fuel : nat) (now : Z) (tokenId : string) (db : Db)
  : Outcome (Db * ReallocationResult.t) :=
  match findToken tokenId db with
  | None => Throw TOKEN_NOT_FOUND
  | Some token =>
      if TokenStatus.eqb (Token.status token) TokenStatus.CANCELLED
      then Throw ALREADY_CANCELLED
      else if TokenStatus.eqb (Token.status token) TokenStatus.COMPLETED
      then Throw CANNOT_CANCEL_COMPLETED
      else
        let slot := tokenSlot token db in
        let db1 := updateToken tokenId (cancelData now) db in
        let finish db' movedTokens :=
          Ok (createAudit (movedAudit "CANCEL_TOKEN" token movedTokens now) db',
              ReallocationResult.Build true movedTokens slot
                ("Token cancelled. " ++ showNat (List.length movedTokens)
                 ++ " waiting tokens were reallocated.")) in
        match slot with
        | Some theSlot =>
            if truthy (Token.slotId token) then
              if hasSlotEnded now (Slot.endTime theSlot) (Slot.date theSlot)
              then
                Ok (createAudit (endedAudit "CANCEL_TOKEN" token now) db1,
                    ReallocationResult.Build true [] slot
                      "Token cancelled (slot already ended, no reallocation)")
              else
                r <- reallocateLoop fuel now
                       (selectWaitingTokens now token theSlot db1) db1 [] ;;
                finish (fst r) (snd r)
            else finish db1 []
        | None => finish db1 []
        end
  end.

Definition markNoShow (fuel : nat) (now : Z) (tokenId : string) (db : Db)
  : Outcome (Db * ReallocationResult.t) :=
  match findToken tokenId db with
  | None => Throw TOKEN_NOT_FOUND
  | Some token =>
      if negb (TokenStatus.eqb (Token.status token) TokenStatus.ALLOCATED)
      then Throw INVALID_STATUS
      else
        let slot := tokenSlot token db in
        let db1 := updateToken tokenId noShowData db in
        let finish db' movedTokens :=
          Ok (createAudit (movedAudit "NO_SHOW" token movedTokens now) db',
              ReallocationResult.Build true movedTokens slot
                ("Token marked as no-show. " ++ showNat (List.length movedTokens)
                 ++ " waiting tokens were reallocated.")) in
        match slot with
        | Some theSlot =>
            if hasSlotEnded now (Slot.endTime theSlot) (Slot.date theSlot)
            then
              Ok (createAudit (endedAudit "NO_SHOW" token now) db1,
                  ReallocationResult.Build true [] slot
                    "Token marked as no-show (slot already ended, no reallocation)")
            else
              r <- reallocateLoop fuel now
                     (selectWaitingTokens now token theSlot db1) db1 [] ;;
              finish (fst r) (snd r)
        | None => finish db1 []
        end
  end.

Definition completeToken (now : Z) (tokenId : string) (db : Db)
  : Outcome (Db * unit) :=
  match findToken tokenId db with
  | None => Throw TOKEN_NOT_FOUND
  | Some token =>
      if negb (TokenStatus.eqb (Token.status token) TokenStatus.ALLOCATED)
      then Throw INVALID_STATUS
      else
        let db1 := updateToken tokenId (completeData now) db in
        Ok (createAudit
              (AuditLog.Build "COMPLETE_TOKEN" (Some tokenId)
                 (Token.slotId token) (Some (Token.doctorId token)) [] now)
              db1,
            tt)
  end.

(** The [where] of the [updateMany] of [expireWaitingTokens]. *)
Definition expires (doctorId : string) (parsedDate : Z) (t : Token.t) : bool :=
  String.eqb (Token.doctorId t) doctorId
  && (Token.date t =? parsedDate)
  && TokenStatus.eqb (Token.status t) TokenStatus.WAITING.

(** [date] is the [DD-MM-YYYY] string of the call, [parsedDate] its
    [parseDate]. *)
Definition expireWaitingTokens (now : Z) (doctorId : string) (date : string)
    (parsedDate : Z) (db : Db) : Db * Z :=
  let count := len (filter (expires doctorId parsedDate) (tokens db)) in
  let db1 :=
    withTokens db
      (map (fun t => if expires doctorId parsedDate t
                     then applyData expireData t else t)
           (tokens db)) in
  (createAudit
     (AuditLog.Build "EXPIRE_TOKENS" None None (Some doctorId)
        [("date", JStr date); ("expiredCount", JNum count)] now)
     db1,
   count).

(** ** Vocabulary of the statements *)

(** The order a boolean comparison decides. *)
Definition ordered {A : Type} (leb : A -> A -> bool) (x y : A) : Prop :=
  leb x y = true.

(** The slots [allocateToken] loops over, without their token lists. *)
Definition candidateSlots (now : Z) (token : Token.t) (db : Db) : list Slot.t :=
  filter (fun s => negb (hasSlotEnded now (Slot.endTime s) (Slot.date s)))
         (activeSlotsFor (Token.doctorId token) (Token.date token) db).

(** [canAllocateToSlot] on a slot's current counters. *)
Definition admissible (token : Token.t) (db : Db) (slot : Slot.t) : bool :=
  canAllocate token (slot, allocatedTokensOf (Slot.id slot) db).

(** What the simple case of the slot loop returns. *)
Definition allocated (now : Z) (tokenId : string) (db : Db) (slot : Slot.t)
  : Db * AllocationResult.t :=
  let db1 := updateToken tokenId (allocateData (Slot.id slot) now) db in
  (db1,
   AllocationResult.Build true (findToken tokenId db1) (Some slot)
     "Token allocated successfully").

(** What [allocateToken] returns when no slot took the token. *)
Definition notAllocated (token : Token.t) (availableSlots : list (Slot.t * list Token.t))
  : AllocationResult.t :=
  match availableSlots with
  | [] => AllocationResult.Build false (Some token) None "No available slots"
  | _ :: _ => noSlotFound token
  end.

Definition allocatedCount (slotId : string) (db : Db) : Z :=
  len (allocatedTokensOf slotId db).

(** (I1) every slot holds at most [capacity] allocated tokens. *)
Definition capacityRespected (db : Db) : Prop :=
  forall s, In s (slots db) -> allocatedCount (Slot.id s) db <= Slot.capacity s.

(** The five public operations with their arguments. *)
Inductive Operation : Set :=
| CreateToken (input : CreateTokenInput.t)
| CancelToken (tokenId : string)
| MarkNoShow (tokenId : string)
| CompleteToken (tokenId : string)
| ExpireWaiting (doctorId : string) (date : string) (parsedDate : Z).

Definition storeOf {A : Type} (r : Outcome (Db * A)) : Outcome Db :=
  match r with
  | Ok (db, _) => Ok db
  | Throw e => Throw e
  | OutOfFuel => OutOfFuel
  end.

Definition run (fuel : nat) (now : Z) (op : Operation) (db : Db) : Outcome Db :=
  match op with
  | CreateToken input => storeOf (createToken fuel now input db)
  | CancelToken tokenId => storeOf (cancelToken fuel now tokenId db)
  | MarkNoShow tokenId => storeOf (markNoShow fuel now tokenId db)
  | CompleteToken tokenId => storeOf (completeToken now tokenId db)
  | ExpireWaiting doctorId date parsedDate =>
      Ok (fst (expireWaitingTokens now doctorId date parsedDate db))
  end.

(** The store after the operation: its result if it committed, the store
    before it if it threw. *)
Definition committed (db : Db) (r : Outcome Db) : Db :=
  match r with
  | Ok db' => db'
  | _ => db
  end.

(** ** Elementary effects on the store

    Every write the engine performs is one of these; [now] is the clock of
    the operation performing it. *)
Inductive Effect (now : Z) : Db -> Db -> Prop :=
| E_audit (db : Db) (a : AuditLog.t) :
    Effect now db (createAudit a db)
| E_insert (db : Db) (t : Token.t) :
    Token.status t = TokenStatus.WAITING ->
    Token.slotId t = None ->
    Effect now db (withTokens db (tokens db ++ [t]))
| E_allocate (db : Db) (token : Token.t) (slot : Slot.t) :
    findToken (Token.id token) db = Some token ->
    Token.status token = TokenStatus.WAITING ->
    In slot (candidateSlots now token db) ->
    admissible token db slot = true ->
    Effect now db
      (updateToken (Token.id token) (allocateData (Slot.id slot) now) db)
| E_cancel (db : Db) (token : Token.t) :
    findToken (Token.id token) db = Some token ->
    Token.status token <> TokenStatus.CANCELLED ->
    Token.status token <> TokenStatus.COMPLETED ->
    Effect now db (updateToken (Token.id token) (cancelData now) db)
| E_noShow (db : Db) (token : Token.t) :
    findToken (Token.id token) db = Some token ->
    Token.status token = TokenStatus.ALLOCATED ->
    Effect now db (updateToken (Token.id token) noShowData db)
| E_complete (db : Db) (token : Token.t) :
    findToken (Token.id token) db = Some token ->
    Token.status token = TokenStatus.ALLOCATED ->
    Effect now db (updateToken (Token.id token) (completeData now) db)
| E_expire (db : Db) (doctorId : string) (parsedDate : Z) :
    Effect now db
      (withTokens db
         (map (fun t => if expires doctorId parsedDate t
                        then applyData expireData t else t)
              (tokens db))).

(** Zero or more effects in sequence. *)
Inductive Effects (now : Z) : Db -> Db -> Prop :=
| Effects_nil (db : Db) : Effects now db db
| Effects_cons (db1 db2 db3 : Db) :
    Effect now db1 db2 -> Effects now db2 db3 -> Effects now db1 db3.

(** The backfill candidates in the words of section 4.5: walk-ins first
    when the slot starts within the hour or has started, everyone when
    there is no walk-in or the slot is further away. *)
Definition backfillCandidates (now : Z) (token : Token.t) (slot : Slot.t)
    (db : Db) : list Token.t :=
  let imminent :=
    atTime (Slot.date slot) (Slot.startTime slot) - now <=? 3600000 in
  let walkIns := findWaiting true (Token.doctorId token) (Token.date token) db in
  let everyone := findWaiting false (Token.doctorId token) (Token.date token) db in
  if imminent then
    match walkIns with
    | [] => everyone
    | _ :: _ => walkIns
    end
  else everyone.

(** The token [t] with status EXPIRED and every other column as it was. *)
Definition expired (t : Token.t) : Token.t :=
  Token.Build (Token.id t) (Token.displayID t) (Token.patientName t)
    (Token.patientPhone t) (Token.patientAge t) (Token.source t)
    (Token.priority t) TokenStatus.EXPIRED (Token.slotId t)
    (Token.doctorId t) (Token.date t) (Token.idempotencyKey t)
    (Token.notes t) (Token.createdAt t) (Token.allocatedAt t)
    (Token.completedAt t) (Token.cancelledAt t).

(** [v] is at least as evictable as [t]: a numerically higher priority
    value, or the same one and not created later. *)
Definition evictedBefore (v t : Token.t) : Prop :=
  getPriorityOrder (Token.priority t) < getPriorityOrder (Token.priority v)
  \/ (getPriorityOrder (Token.priority t) = getPriorityOrder (Token.priority v)
      /\ Token.createdAt v <= Token.createdAt t).

(** What the code keeps in place of [slotId <> null <-> status = ALLOCATED]:
    a completed token keeps the reference to the slot it was seen in. *)
Definition slotKept (t : Token.t) : Prop :=
  Token.slotId t <> None <->
  (Token.status t = TokenStatus.ALLOCATED \/ Token.status t = TokenStatus.COMPLETED).

Definition slotDiscipline (db : Db) : Prop :=
  forall t, In t (tokens db) -> slotKept t.

(** ** Scenarios of section 8 of the specification

    One doctor ["d1"], date [0] (so times are milliseconds after local
    midnight of the day). *)

Definition hour : Z := 3600000.

Definition mkSlot (id : string) (fromHour toHour capacity : Z) : Slot.t :=
  Slot.Build id ("S-" ++ id) "d1" 0 (HHMM fromHour 0) (HHMM toHour 0)
    capacity None None true.

Definition mkToken (id : string) (source : Source.t) (priority : Priority.t)
    (status : TokenStatus.t) (slotId : option string) (createdAt : Z)
  : Token.t :=
  Token.Build id ("T-" ++ id) ("patient " ++ id) None None source priority
    status slotId "d1" 0 ("key-" ++ id) None createdAt
    (match slotId with Some _ => Some createdAt | None => None end)
    None None.

(** S1: slot S (09-10) of capacity 2 holds t1 (WALKIN) and t2 (ONLINE). *)
Definition scenarioS1 : Db :=
  MkDb [Doctor.Build "d1" true] [mkSlot "S" 9 10 2]
    [mkToken "t1" Source.WALKIN Priority.WALKIN TokenStatus.ALLOCATED (Some "S") 1;
     mkToken "t2" Source.ONLINE Priority.ONLINE TokenStatus.ALLOCATED (Some "S") 2]
    [].

(** The EMERGENCY t3 of S1, arriving at 08:00. *)
Definition inputS1 : CreateTokenInput.t :=
  CreateTokenInput.Build "patient t3" None None "d1" 0 Source.WALKIN
    Priority.EMERGENCY "key-t3" None "t3" "T-t3".

(** S3: slot S (10-11) of capacity 2 holds paid1 and online1; online2 and
    the later walkin1 wait. *)
Definition scenarioS3 : Db :=
  MkDb [Doctor.Build "d1" true] [mkSlot "S" 10 11 2]
    [mkToken "paid1" Source.ONLINE Priority.PAID TokenStatus.ALLOCATED (Some "S") 1;
     mkToken "online1" Source.ONLINE Priority.ONLINE TokenStatus.ALLOCATED (Some "S") 2;
     mkToken "online2" Source.ONLINE Priority.ONLINE TokenStatus.WAITING None 3;
     mkToken "walkin1" Source.WALKIN Priority.WALKIN TokenStatus.WAITING None 4]
    [].

(** S2: S1 (09-10, capacity 2) is full, S2 (10-11, capacity 3) holds two
    tokens, and the walk-in w1 waits. *)
Definition waitingS2 : Token.t :=
  mkToken "w1" Source.WALKIN Priority.WALKIN TokenStatus.WAITING None 5.

Definition scenarioS2 : Db :=
  MkDb [Doctor.Build "d1" true] [mkSlot "S2" 10 11 3; mkSlot "S1" 9 10 2]
    [mkToken "a1" Source.WALKIN Priority.WALKIN TokenStatus.ALLOCATED (Some "S1") 1;
     mkToken "a2" Source.ONLINE Priority.ONLINE TokenStatus.ALLOCATED (Some "S1") 2;
     mkToken "b1" Source.ONLINE Priority.PAID TokenStatus.ALLOCATED (Some "S2") 3;
     mkToken "b2" Source.ONLINE Priority.ONLINE TokenStatus.ALLOCATED (Some "S2") 4;
     waitingS2]
    [].

(** One token in each terminal status. *)
Definition scenarioTerminal : Db :=
  MkDb [Doctor.Build "d1" true] [mkSlot "S" 9 10 2]
    [mkToken "n1" Source.WALKIN Priority.WALKIN TokenStatus.NO_SHOW None 1;
     mkToken "e1" Source.ONLINE Priority.ONLINE TokenStatus.EXPIRED None 2;
     mkToken "c1" Source.ONLINE Priority.PAID TokenStatus.COMPLETED (Some "S") 3;
     mkToken "x1" Source.ONLINE Priority.ONLINE TokenStatus.CANCELLED None 4]
    [].

(** 09:30 on the day of the scenarios. *)
Definition halfPastNine : Z := 9 * hour + hour / 2.

(** A day of operations, each with the clock it ran at. *)
Fixpoint runAll (fuel : nat) (ops : list (Z * Operation)) (db : Db) : Db :=
  match ops with
  | [] => db
  | (now, op) :: rest => runAll fuel rest (committed db (run fuel now op db))
  end.

(** ** Vocabulary of the allocation procedure *)

(** The predicate [admissible] in the words of section 4.2 of the
    specification, its five steps in order.  It is not taken from the code:
    the statements compare it with [canAllocateToSlot]. *)
Definition admissibleBySpec (incomingPriority : Priority.t) (capacity : Z)
    (paidCap followUpCap : option Z) (allocatedCount paidCount followUpCount : Z)
  : bool :=
  if Priority.eqb incomingPriority Priority.EMERGENCY then true
  else if allocatedCount >=? capacity then false
  else if Priority.eqb incomingPriority Priority.PAID
          && match paidCap with
             | Some cap => paidCount >=? cap
             | None => false
             end
  then false
  else if Priority.eqb incomingPriority Priority.FOLLOWUP
          && match followUpCap with
             | Some cap => followUpCount >=? cap
             | None => false
             end
  then false
  else true.

(** Steps 2 and 3 of section 4.4: the three counts of the slot's currently
    ALLOCATED tokens, and [admissibleBySpec] on them. *)
Definition admissibleIn (token : Token.t) (db : Db) (slot : Slot.t) : bool :=
  let allocatedTokens := allocatedTokensOf (Slot.id slot) db in
  admissibleBySpec (Token.priority token) (Slot.capacity slot)
    (Slot.paidCap slot) (Slot.followUpCap slot)
    (len allocatedTokens) (paidCountOf allocatedTokens)
    (followUpCountOf allocatedTokens).






(** ** Vocabulary of the further properties *)

(** A column no update of the engine sets. *)
Definition immutableColumn {B : Type} (f : Token.t -> B) : Prop :=
  forall d t, f (applyData d t) = f t.

(** The rows an operation inserts into the token table. *)
Definition insertedBy (now : Z) (op : Operation) (db : Db) : list Token.t :=
  match op with
  | CreateToken input =>
      match findTokenByKey (CreateTokenInput.idempotencyKey input) db with
      | Some _ => []
      | None => [newToken input now]
      end
  | _ => []
  end.

(** The [operation] column of the audit row of each operation. *)
Definition auditName (op : Operation) : string :=
  match op with
  | CreateToken _ => "CREATE_TOKEN"
  | CancelToken _ => "CANCEL_TOKEN"
  | MarkNoShow _ => "NO_SHOW"
  | CompleteToken _ => "COMPLETE_TOKEN"
  | ExpireWaiting _ _ _ => "EXPIRE_TOKENS"
  end.

(** The statuses a row can be found in later, given the one it has now:
    what the writes of the engine make reachable. *)
Definition statusAfter (s s' : TokenStatus.t) : bool :=
  match s, s' with
  | TokenStatus.WAITING, _ => true
  | TokenStatus.ALLOCATED,
    (TokenStatus.ALLOCATED | TokenStatus.COMPLETED | TokenStatus.NO_SHOW
     | TokenStatus.CANCELLED) => true
  | TokenStatus.NO_SHOW, (TokenStatus.NO_SHOW | TokenStatus.CANCELLED) => true
  | TokenStatus.EXPIRED, (TokenStatus.EXPIRED | TokenStatus.CANCELLED) => true
  | TokenStatus.COMPLETED, TokenStatus.COMPLETED => true
  | TokenStatus.CANCELLED, TokenStatus.CANCELLED => true
  | _, _ => false
  end.

(** The same row later: same id, status moved forward. *)
Definition rowLater (t t' : Token.t) : Prop :=
  Token.id t' = Token.id t
  /\ statusAfter (Token.status t) (Token.status t') = true.

(** The token table later: the rows it had, in place, and new rows after
    them. *)
Definition tableLater (l l' : list Token.t) : Prop :=
  exists kept added, l' = (kept ++ added)%list /\ Forall2 rowLater l kept.

Definition keysUnique (db : Db) : Prop :=
  NoDup (map Token.idempotencyKey (tokens db)).

Definition idsUnique (db : Db) : Prop :=
  NoDup (map Token.id (tokens db)).

(** What [allocateToken] and the reallocation loop leave alone. *)
Definition untouched (db db' : Db) : Prop :=
  doctors db' = doctors db
  /\ slots db' = slots db
  /\ auditLogs db' = auditLogs db
  /\ forall (B : Type) (f : Token.t -> B),
       immutableColumn f -> map f (tokens db') = map f (tokens db).

(** A createToken that finds its idempotencyKey in the store. *)
Definition isReplay (op : Operation) (db : Db) : bool :=
  match op with
  | CreateToken input =>
      match findTokenByKey (CreateTokenInput.idempotencyKey input) db with
      | Some _ => true
      | None => false
      end
  | _ => false
  end.

(** What a committed operation has written. *)
Definition written (now : Z) (op : Operation) (db db' : Db) : Prop :=
  doctors db' = doctors db
  /\ slots db' = slots db
  /\ (forall (B : Type) (f : Token.t -> B),
        immutableColumn f ->
        map f (tokens db') = (map f (tokens db) ++ map f (insertedBy now op db))%list)
  /\ exists a,
       AuditLog.operation a = auditName op
       /\ auditLogs db' =
          (auditLogs db ++ if isReplay op db then [] else [a])%list.

(** The columns of a token that say who it is for and where it came from. *)
Definition identityOf (t : Token.t) :=
  (Token.id t, Token.displayID t, Token.patientName t, Token.patientPhone t,
   Token.patientAge t, Token.source t, Token.priority t, Token.doctorId t,
   Token.date t, Token.idempotencyKey t, Token.notes t, Token.createdAt t).

(** (I2), (I3): the PAID and FOLLOWUP tokens allocated to a slot stay
    within the slot's sub-caps, where it has them. *)
Definition subCapsRespected (db : Db) : Prop :=
  forall s, In s (slots db) ->
    (forall c, Slot.paidCap s = Some c ->
               paidCountOf (allocatedTokensOf (Slot.id s) db) <= c)
    /\ (forall c, Slot.followUpCap s = Some c ->
                  followUpCountOf (allocatedTokensOf (Slot.id s) db) <= c).

(** The sub-cap of a slot that binds a priority, if any. *)
Definition capOf (p : Priority.t) (s : Slot.t) : option Z :=
  match p with
  | Priority.PAID => Slot.paidCap s
  | Priority.FOLLOWUP => Slot.followUpCap s
  | _ => None
  end.

(** Allocated to the slot with the priority. *)
Definition allocatedAs (p : Priority.t) (slotId : string) (t : Token.t) : bool :=
  allocatedIn slotId t && Priority.eqb (Token.priority t) p.

Definition countAs (p : Priority.t) (slotId : string) (db : Db) : Z :=
  len (filter (allocatedAs p slotId) (tokens db)).

(** S5: a slot of capacity 6 and paidCap 3 holding three PAID tokens, and a
    fourth PAID token waiting. *)
Definition scenarioS5 : Db :=
  MkDb [Doctor.Build "d1" true]
    [Slot.Build "S" "S-S" "d1" 0 (HHMM 9 0) (HHMM 10 0) 6 (Some 3) None true]
    [mkToken "p1" Source.ONLINE Priority.PAID TokenStatus.ALLOCATED (Some "S") 1;
     mkToken "p2" Source.ONLINE Priority.PAID TokenStatus.ALLOCATED (Some "S") 2;
     mkToken "p3" Source.ONLINE Priority.PAID TokenStatus.ALLOCATED (Some "S") 3;
     mkToken "p4" Source.ONLINE Priority.PAID TokenStatus.WAITING None 4]
    [].

(** ** Further helpers ([src/utils/helper.ts]) *)

Definition isSlotAvailable (now : Z) (slotEndTime : TimeOfDay) (slotDate : Z)
  : bool :=
  negb (hasSlotEnded now slotEndTime slotDate).

Definition comparePriority (p1 p2 : Priority.t) : Z :=
  let order1 := getPriorityOrder p1 in
  let order2 := getPriorityOrder p2 in
  order1 - order2.

Definition calculateAvailableCapacity (capacity allocatedCount : Z) : Z :=
  Z.max 0 (capacity - allocatedCount).

(** [getParam]: a route or query parameter is [string | string[] |
    undefined]; the result is the string, or the message of the [Error]
    thrown. *)
Inductive Param : Set :=
| ParamUndefined
| ParamString (value : string)
| ParamArray (values : list string).

Definition getParam (param : Param) (name : string) : string + string :=
  match param with
  | ParamUndefined => inr (name ++ " is required")
  | ParamString "" => inr (name ++ " is required")
  | ParamArray _ => inr (name ++ " must be a single value")
  | ParamString value => inl value
  end.

(** ** Slot controllers ([src/controllers/slotControllers.ts])

    What a handler answers: [res.json] with [success: true], a refusal
    with its HTTP status and [error], or the [Error] thrown by
    [getParam]. *)
Inductive Response (A : Type) : Type :=
| Success (data : A) (message : option string)
| Refused (status : Z) (error : string)
| Raised (message : string).
Arguments Refused {A} status error.
Arguments Raised {A} message.

Module SlotAvailability.
Record t : Set := Build {
  slotId : string;
  doctorId : string;
  startTime : TimeOfDay;
  endTime : TimeOfDay;
  capacity : Z;
  allocatedCount : Z;
  availableCount : Z;
  paidCount : Z;
  followUpCount : Z;
  emergencyCount : Z;
  canAcceptPaid : bool;
  canAcceptFollowUp : bool;
  canAcceptRegular : bool;
  slotEnded : bool
}.
End SlotAvailability.

(** [cap === null || count < cap]. *)
Definition underCap (cap : option Z) (count : Z) : bool :=
  match cap with
  | None => true
  | Some c => count <? c
  end.

Definition getSlotAvailability (now : Z) (param : Param) (db : Db)
  : Response SlotAvailability.t :=
  match getParam param "slotId" with
  | inr message => Raised message
  | inl slotId =>
      match findSlot slotId db with
      | None => Refused 404 "Slot not found"
      | Some slot =>
          let slotTokens := allocatedTokensOf (Slot.id slot) db in
          let slotEnded := hasSlotEnded now (Slot.endTime slot) (Slot.date slot) in
          let allocatedCount := len slotTokens in
          let availableCount := Slot.capacity slot - allocatedCount in
          let emergencyCount :=
            len (filter (fun t => Priority.eqb (Token.priority t) Priority.EMERGENCY)
                        slotTokens) in
          let paidCount := paidCountOf slotTokens in
          let followUpCount := followUpCountOf slotTokens in
          let canAcceptPaid := underCap (Slot.paidCap slot) paidCount in
          let canAcceptFollowUp := underCap (Slot.followUpCap slot) followUpCount in
          let canAcceptRegular := 0 <? availableCount in
          Success
            (SlotAvailability.Build (Slot.id slot) (Slot.doctorId slot)
               (Slot.startTime slot) (Slot.endTime slot) (Slot.capacity slot)
               allocatedCount availableCount paidCount followUpCount
               emergencyCount canAcceptPaid canAcceptFollowUp canAcceptRegular
               slotEnded)
            None
      end
  end.

(** A field of the request body that is a sub-cap: [undefined], [null] or
    a number. *)
Inductive CapField : Set :=
| CapAbsent
| CapNull
| CapValue (value : Z).

(** The body of [PATCH /:slotId/capacity], with the types the API
    documents: [capacity] is an integer or missing (a missing, [null] or
    zero capacity is falsy alike). *)
Record CapacityBody : Set := MkCapacityBody {
  bodyCapacity : option Z;
  bodyPaidCap : CapField;
  bodyFollowUpCap : CapField
}.

(** JavaScript truthiness of a [number | undefined]. *)
Definition truthyNumber (n : option Z) : bool :=
  match n with
  | Some v => negb (v =? 0)
  | None => false
  end.

Definition orOld (field : CapField) (old : option Z) : option Z :=
  match field with
  | CapAbsent => old
  | CapNull => None
  | CapValue v => Some v
  end.

(** [prisma.slot.update({ where: { id }, data })]. *)
Fixpoint updateSlotFirst (slotId : string) (f : Slot.t -> Slot.t)
    (l : list Slot.t) : list Slot.t :=
  match l with
  | [] => []
  | s :: l' =>
      if String.eqb (Slot.id s) slotId then f s :: l'
      else s :: updateSlotFirst slotId f l'
  end.

Definition withSlots (db : Db) (l : list Slot.t) : Db :=
  MkDb (doctors db) l (tokens db) (auditLogs db).

Definition setCapacities (capacity : Z) (paidCap followUpCap : option Z)
    (s : Slot.t) : Slot.t :=
  Slot.Build (Slot.id s) (Slot.displayID s) (Slot.doctorId s) (Slot.date s)
    (Slot.startTime s) (Slot.endTime s) capacity paidCap followUpCap
    (Slot.isActive s).

Definition setInactive (s : Slot.t) : Slot.t :=
  Slot.Build (Slot.id s) (Slot.displayID s) (Slot.doctorId s) (Slot.date s)
    (Slot.startTime s) (Slot.endTime s) (Slot.capacity s) (Slot.paidCap s)
    (Slot.followUpCap s) false.

Definition updateSlotCapacity (param : Param) (body : CapacityBody) (db : Db)
  : Db * Response (option Slot.t) :=
  match getParam param "slotId" with
  | inr message => (db, Raised message)
  | inl slotId =>
      match findSlot slotId db with
      | None => (db, Refused 404 "Slot not found")
      | Some slot =>
          let currentAllocated := allocatedTokensOf (Slot.id slot) db in
          let capacity := bodyCapacity body in
          if truthyNumber capacity
             && (match capacity with
                 | Some c => c <? len currentAllocated
                 | None => false
                 end)
          then
            (db,
             Refused 400
               ("Cannot reduce capacity below current allocated count ("
                ++ showNat (List.length currentAllocated) ++ ")"))
          else
            let newCapacity :=
              match capacity with
              | Some c => if truthyNumber capacity then c else Slot.capacity slot
              | None => Slot.capacity slot
              end in
            let db1 :=
              withSlots db
                (updateSlotFirst slotId
                   (setCapacities newCapacity
                      (orOld (bodyPaidCap body) (Slot.paidCap slot))
                      (orOld (bodyFollowUpCap body) (Slot.followUpCap slot)))
                   (slots db)) in
            (db1, Success (findSlot slotId db1) (Some "Slot updated successfully"))
      end
  end.

Definition deleteSlot (param : Param) (db : Db) : Db * Response unit :=
  match getParam param "slotId" with
  | inr message => (db, Raised message)
  | inl slotId =>
      match findSlot slotId db with
      | None => (db, Refused 404 "Slot not found")
      | Some slot =>
          if 0 <? len (allocatedTokensOf (Slot.id slot) db) then
            (db,
             Refused 400
               "Cannot delete slot with allocated tokens. Cancel tokens first.")
          else
            (withSlots db (updateSlotFirst slotId setInactive (slots db)),
             Success tt (Some "Slot deactivated successfully"))
      end
  end.

(** A request to the service: an engine operation or slot administration. *)
Inductive Request : Set :=
| Engine (op : Operation)
| PatchCapacity (param : Param) (body : CapacityBody)
| DeleteSlot (param : Param).

(** The store after a request. *)
Definition serve (fuel : nat) (now : Z) (req : Request) (db : Db) : Db :=
  match req with
  | Engine op => committed db (run fuel now op db)
  | PatchCapacity param body => fst (updateSlotCapacity param body db)
  | DeleteSlot param => fst (deleteSlot param db)
  end.

Fixpoint serveAll (fuel : nat) (reqs : list (Z * Request)) (db : Db) : Db :=
  match reqs with
  | [] => db
  | (now, req) :: rest => serveAll fuel rest (serve fuel now req db)
  end.

(** A deactivated slot holds no allocated token. *)
Definition inactiveSlotsEmpty (db : Db) : Prop :=
  forall s, In s (slots db) -> Slot.isActive s = false ->
            allocatedCount (Slot.id s) db = 0.

(** A token promoted by a reallocation, as the result reports it: [m] is
    the row of [db'], ALLOCATED, of a token that was WAITING in [db]. *)
Definition promoted (db db' : Db) (m : option Token.t) : Prop :=
  exists t t0,
    m = Some t
    /\ Token.status t = TokenStatus.ALLOCATED
    /\ findToken (Token.id t) db' = Some t
    /\ findToken (Token.id t) db = Some t0
    /\ Token.status t0 = TokenStatus.WAITING
    /\ identityOf t = identityOf t0.

(** The token can be allocated in the store as it is. *)
Definition allocatable (now : Z) (token : Token.t) (db : Db) : Prop :=
  exists slot, In slot (candidateSlots now token db)
               /\ admissible token db slot = true.

(** ** String helpers ([src/utils/helper.ts])

    A JavaScript string is the string of its characters, here 8-bit ones;
    [s.substring(a, b)] with [a <= b] is [substring a (b - a) s], which
    clamps to the end of the string as JavaScript does. *)

(** [s.split(sep)] for a one-character separator. *)
Fixpoint splitOn (sep : ascii) (s : string) : list string :=
  match s with
  | EmptyString => [EmptyString]
  | String c s' =>
      if Ascii.eqb c sep then EmptyString :: splitOn sep s'
      else
        match splitOn sep s' with
        | [] => [String c EmptyString]
        | part :: parts => String c part :: parts
        end
  end.

(** An element of an array destructuring inside a template literal: a
    missing element is [undefined] and prints as such. *)
Definition printed (i : nat) (parts : list string) : string :=
  nth i parts "undefined".

Definition formatDateForDisplayID (date : string) : string :=
  let parts := splitOn "-" date in
  let day := printed 0 parts in
  let month := printed 1 parts in
  let year := printed 2 parts in
  year ++ month ++ day.

Definition formatDisplayIDDate (yyyymmdd : string) : string :=
  let year := substring 0 4 yyyymmdd in
  let month := substring 4 2 yyyymmdd in
  let day := substring 6 2 yyyymmdd in
  day ++ "-" ++ month ++ "-" ++ year.

(** No character of the string is the separator. *)
Fixpoint without (sep : ascii) (s : string) : bool :=
  match s with
  | EmptyString => true
  | String c s' => negb (Ascii.eqb c sep) && without sep s'
  end.

(** Character classes of the regular expressions: [\d] and [[A-Z]]. *)
Definition isDigitChar (c : ascii) : bool :=
  (48 <=? N_of_ascii c)%N && (N_of_ascii c <=? 57)%N.

Definition isUpperChar (c : ascii) : bool :=
  (65 <=? N_of_ascii c)%N && (N_of_ascii c <=? 90)%N.

Definition charBetween (lo hi : ascii) (c : ascii) : bool :=
  (N_of_ascii lo <=? N_of_ascii c)%N && (N_of_ascii c <=? N_of_ascii hi)%N.

(** [regex.test(s)] for a regular expression that is a sequence of
    character classes between [^] and [$]. *)
Fixpoint matchesClasses (classes : list (ascii -> bool)) (s : string) : bool :=
  match classes, s with
  | [], EmptyString => true
  | class :: classes', String c s' => class c && matchesClasses classes' s'
  | _, _ => false
  end.

Definition isValidDisplayIDFormat (displayID : string) : bool :=
  if negb (String.length displayID =? 6)%nat then false
  else
    let letters := substring 0 3 displayID in
    if negb (matchesClasses [isUpperChar; isUpperChar; isUpperChar] letters)
    then false
    else
      let numbers := substring 3 (String.length displayID - 3) displayID in
      if negb (matchesClasses [isDigitChar; isDigitChar; isDigitChar] numbers)
      then false
      else true.

(** [/^X-[A-Z]{3}\d{3}-\d{8}-\d{3}$/] for the prefix letter [X]. *)
Definition displayIDClasses (prefix : ascii) : list (ascii -> bool) :=
  [Ascii.eqb prefix; Ascii.eqb "-";
   isUpperChar; isUpperChar; isUpperChar;
   isDigitChar; isDigitChar; isDigitChar;
   Ascii.eqb "-";
   isDigitChar; isDigitChar; isDigitChar; isDigitChar;
   isDigitChar; isDigitChar; isDigitChar; isDigitChar;
   Ascii.eqb "-";
   isDigitChar; isDigitChar; isDigitChar].

Definition isValidTokenDisplayIDFormat (displayID : string) : bool :=
  matchesClasses (displayIDClasses "T") displayID.

Definition isValidSlotDisplayIDFormat (displayID : string) : bool :=
  matchesClasses (displayIDClasses "S") displayID.

(** [/^([0-1][0-9]|2[0-3]):[0-5][0-9]$/]. *)
Definition isValidTimeFormat (time : string) : bool :=
  match time with
  | String h1 (String h2 (String colon (String m1 (String m2 EmptyString)))) =>
      ((charBetween "0" "1" h1 && isDigitChar h2)
       || (Ascii.eqb h1 "2" && charBetween "0" "3" h2))
      && Ascii.eqb colon ":"
      && charBetween "0" "5" m1
      && isDigitChar m2
  | _ => false
  end.

(** The number a string of decimal digits denotes. *)
Fixpoint decimalFrom (acc : Z) (s : string) : Z :=
  match s with
  | EmptyString => acc
  | String c s' => decimalFrom (acc * 10 + (Z.of_N (N_of_ascii c) - 48)) s'
  end.

Definition decimalOf (s : string) : Z := decimalFrom 0 s.

Fixpoint allDigits (s : string) : bool :=
  match s with
  | EmptyString => true
  | String c s' => isDigitChar c && allDigits s'
  end.

(** A JavaScript number as [Number.isInteger] sees it. *)
Inductive JsNumber : Set :=
| Integer (z : Z)
| NotInteger.

Inductive DisplayType : Set := TokenDisplay | SlotDisplay.

Module ParsedDisplayID.
Record t : Set := Build {
  type : DisplayType;
  doctorDisplayID : string;
  date : string;
  sequence : Z
}.
End ParsedDisplayID.

(** The functions that call the built-in [Number].  The built-in is a
    parameter; what is used of it is its value on a short string of
    decimal digits. *)
Section WithNumber.

Variable Number : string -> JsNumber.

(** The result, or the message of the [Error] thrown. *)
Definition parseDisplayID (displayID : string) : ParsedDisplayID.t + string :=
  let parts := splitOn "-" displayID in
  if negb (List.length parts =? 4)%nat then inr "Invalid displayID format"
  else
    let prefix := nth 0 parts "" in
    let type :=
      if String.eqb prefix "T" then Some TokenDisplay
      else if String.eqb prefix "S" then Some SlotDisplay
      else None in
    match type with
    | None => inr "Invalid displayID prefix (must start with T or S)"
    | Some type =>
        match Number (nth 3 parts "") with
        | NotInteger => inr "Invalid sequence number"
        | Integer sequence =>
            inl (ParsedDisplayID.Build type (nth 1 parts "") (nth 2 parts "")
                   sequence)
        end
    end.

(** [time.split(":").map(Number)], the idiom of [hasSlotEnded],
    [shouldPrioritizeWalkIn] and [compareTime]. *)
Definition timeParts (time : string) : list JsNumber :=
  map Number (splitOn ":" time).

End WithNumber.

(** What the properties assume of [Number]: on a non-empty string of at
    most fifteen decimal digits it is the integer the digits denote. *)
Definition readsDigits (Number : string -> JsNumber) : Prop :=
  forall s, s <> EmptyString -> allDigits s = true ->
            (String.length s <= 15)%nat ->
            Number s = Integer (decimalOf s).

(** An instance of that assumption, to show it can be met; it is right on
    decimal digits and the empty string and is not a model of the built-in
    elsewhere. *)
Definition sampleNumber (s : string) : JsNumber :=
  if allDigits s then Integer (decimalOf s) else NotInteger.

(** * Properties *)

(** ** Enumerations *)

Lemma Priority_eqb_spec (a b : Priority.t) : reflect (a = b) (Priority.eqb a b).
Proof. destruct a, b; simpl; constructor; congruence. Qed.

Lemma Source_eqb_spec (a b : Source.t) : reflect (a = b) (Source.eqb a b).
Proof. destruct a, b; simpl; constructor; congruence. Qed.

Lemma TokenStatus_eqb_spec (a b : TokenStatus.t) :
  reflect (a = b) (TokenStatus.eqb a b).
Proof. destruct a, b; simpl; constructor; congruence. Qed.

(** ** Sorting *)

Section SortingFacts.
Variable A : Type.
Variable leb : A -> A -> bool.
Hypothesis leb_total : forall x y, leb x y = true \/ leb y x = true.
Hypothesis leb_trans :
  forall x y z, leb x y = true -> leb y z = true -> leb x z = true.

Lemma insertBy_perm (x : A) (l : list A) :
  Permutation (x :: l) (insertBy leb x l).
Proof.
  induction l as [|y l IH]; simpl.
  - apply Permutation_refl.
  - destruct (leb x y).
    + apply Permutation_refl.
    + eapply perm_trans; [apply perm_swap|].
      now apply perm_skip.
Qed.

Lemma sortBy_perm (l : list A) : Permutation l (sortBy leb l).
Proof.
  induction l as [|x l IH]; simpl.
  - constructor.
  - eapply perm_trans; [apply perm_skip, IH|apply insertBy_perm].
Qed.

Lemma sortBy_In (l : list A) (x : A) : In x (sortBy leb l) <-> In x l.
Proof.
  split; intro H.
  - eapply Permutation_in; [apply Permutation_sym, sortBy_perm|exact H].
  - eapply Permutation_in; [apply sortBy_perm|exact H].
Qed.

Lemma insertBy_sorted (x : A) (l : list A) :
  StronglySorted (ordered leb) l -> StronglySorted (ordered leb) (insertBy leb x l).
Proof.
  induction 1 as [|y l Hs IH Hall]; simpl.
  - repeat constructor.
  - destruct (leb x y) eqn:E.
    + constructor; [now constructor|].
      constructor; [exact E|].
      eapply Forall_impl; [|exact Hall].
      intros z Hz. eapply leb_trans; eassumption.
    + constructor; [exact IH|].
      assert (Hyx : ordered leb y x)
        by (destruct (leb_total x y) as [H|H]; [congruence|exact H]).
      eapply Permutation_Forall; [apply insertBy_perm|].
      now constructor.
Qed.

Lemma sortBy_sorted (l : list A) : StronglySorted (ordered leb) (sortBy leb l).
Proof.
  induction l as [|x l IH]; simpl.
  - constructor.
  - now apply insertBy_sorted.
Qed.

Lemma sortBy_nil_iff (l : list A) : sortBy leb l = [] <-> l = [].
Proof.
  split; intro H.
  - apply Permutation_nil. rewrite <- H. apply Permutation_sym, sortBy_perm.
  - now subst.
Qed.
End SortingFacts.



Lemma waitingLeb_total (a b : Token.t) :
  waitingLeb a b = true \/ waitingLeb b a = true.
Proof.
  unfold waitingLeb.
  set (pa := priorityRank (Token.priority a)).
  set (pb := priorityRank (Token.priority b)).
  destruct (Z.ltb_spec pa pb); [now left|].
  destruct (Z.ltb_spec pb pa); [now right|].
  assert (E : pa = pb) by lia. rewrite E, !Z.eqb_refl. simpl.
  destruct (Z.leb_spec (Token.createdAt a) (Token.createdAt b)); [now left|].
  right. apply Z.leb_le. lia.
Qed.

Lemma waitingLeb_trans (a b c : Token.t) :
  waitingLeb a b = true -> waitingLeb b c = true -> waitingLeb a c = true.
Proof.
  unfold waitingLeb. intros H1 H2.
  apply orb_true_iff in H1. apply orb_true_iff in H2. apply orb_true_iff.
  rewrite andb_true_iff in *.
  rewrite !Z.ltb_lt, !Z.eqb_eq, !Z.leb_le in *. lia.
Qed.

(** ** The capacity predicate *)

Lemma canAllocateToSlot_below (p : Priority.t) (pc fc total cap : Z)
    (paidCap followUpCap : option Z) :
  canAllocateToSlot p pc fc total cap paidCap followUpCap = true ->
  total < cap.
Proof.
  unfold canAllocateToSlot. rewrite Z.geb_leb.
  destruct (Z.leb_spec cap total); [discriminate|lia].
Qed.

(** ** [allocateToken] never reaches its displacement branch *)

Lemma allocateLoop_first_fit
    (self : string -> Db -> Outcome (Db * AllocationResult.t))
    (now : Z) (tokenId : string) (token : Token.t) (db : Db)
    (availableSlots : list (Slot.t * list Token.t)) :
  allocateLoop self now tokenId token db availableSlots =
  match find (canAllocate token) availableSlots with
  | Some (slot, _) => Ok (allocated now tokenId db slot)
  | None => Ok (db, noSlotFound token)
  end.
Proof.
  induction availableSlots as [|[slot toks] rest IH]; [reflexivity|].
  cbn [allocateLoop find].
  destruct (canAllocate token (slot, toks)) eqn:E; [|exact IH].
  apply canAllocateToSlot_below in E.
  apply Z.ltb_lt in E. rewrite E. reflexivity.
Qed.

Lemma allocateToken_eq (fuel : nat) (now : Z) (tokenId : string) (db : Db) :
  allocateToken (S fuel) now tokenId db =
  match findToken tokenId db with
  | None => Throw TOKEN_NOT_FOUND
  | Some token =>
      if negb (TokenStatus.eqb (Token.status token) TokenStatus.WAITING)
      then Throw INVALID_STATUS
      else
        match find (canAllocate token) (availableSlotsFor now token db) with
        | Some (slot, _) => Ok (allocated now tokenId db slot)
        | None => Ok (db, notAllocated token (availableSlotsFor now token db))
        end
  end.
Proof.
  cbn [allocateToken].
  destruct (findToken tokenId db) as [token|]; [|reflexivity].
  destruct (negb _); [reflexivity|].
  rewrite allocateLoop_first_fit.
  destruct (availableSlotsFor now token db) as [|e l]; reflexivity.
Qed.

Lemma allocateToken_fuel (fuel : nat) (now : Z) (tokenId : string) (db : Db) :
  allocateToken (S fuel) now tokenId db = allocateToken 1 now tokenId db.
Proof. now rewrite !allocateToken_eq. Qed.

Lemma availableSlotsFor_candidates (now : Z) (token : Token.t) (db : Db) :
  availableSlotsFor now token db =
  map (fun s => (s, allocatedTokensOf (Slot.id s) db))
      (candidateSlots now token db).
Proof.
  unfold availableSlotsFor, candidateSlots, findManySlots.
  induction (activeSlotsFor (Token.doctorId token) (Token.date token) db)
    as [|s l IH]; [reflexivity|].
  simpl. destruct (negb _); simpl; now rewrite IH.
Qed.

Lemma find_admissible (now : Z) (token : Token.t) (db : Db) :
  find (canAllocate token) (availableSlotsFor now token db) =
  option_map (fun s => (s, allocatedTokensOf (Slot.id s) db))
    (find (admissible token db) (candidateSlots now token db)).
Proof.
  rewrite availableSlotsFor_candidates.
  induction (candidateSlots now token db) as [|s l IH]; [reflexivity|].
  cbn [map find]. unfold admissible at 1.
  destruct (canAllocate token (s, allocatedTokensOf (Slot.id s) db));
    [reflexivity|exact IH].
Qed.

(** ** The store *)

Lemma find_by_id (tokenId : string) (l : list Token.t) (t : Token.t) :
  find (fun t => String.eqb (Token.id t) tokenId) l = Some t ->
  Token.id t = tokenId /\ In t l.
Proof.
  intro H. apply find_some in H. destruct H as [Hin Heq].
  apply String.eqb_eq in Heq. now split.
Qed.

Lemma findToken_id (tokenId : string) (db : Db) (t : Token.t) :
  findToken tokenId db = Some t -> Token.id t = tokenId.
Proof. intro H. now apply find_by_id in H. Qed.

Lemma findToken_In (tokenId : string) (db : Db) (t : Token.t) :
  findToken tokenId db = Some t -> In t (tokens db).
Proof. intro H. now apply find_by_id in H. Qed.

Lemma updateFirst_found (tokenId : string) (d : TokenData) (l : list Token.t)
    (t : Token.t) :
  find (fun t => String.eqb (Token.id t) tokenId) l = Some t ->
  find (fun t => String.eqb (Token.id t) tokenId) (updateFirst tokenId d l)
  = Some (applyData d t).
Proof.
  induction l as [|x l IH]; simpl; [discriminate|].
  destruct (String.eqb (Token.id x) tokenId) eqn:E.
  - intro H. injection H as ->. simpl. now rewrite E.
  - intro H. simpl. rewrite E. now apply IH.
Qed.

Lemma findToken_updateToken (tokenId : string) (d : TokenData) (db : Db)
    (t : Token.t) :
  findToken tokenId db = Some t ->
  findToken tokenId (updateToken tokenId d db) = Some (applyData d t).
Proof. apply updateFirst_found. Qed.

Lemma updateFirst_Forall (P : Token.t -> Prop) (tokenId : string)
    (d : TokenData) (l : list Token.t) :
  Forall P l ->
  (forall t, find (fun t => String.eqb (Token.id t) tokenId) l = Some t ->
             P (applyData d t)) ->
  Forall P (updateFirst tokenId d l).
Proof.
  induction 1 as [|x l Hx Hl IH]; simpl; intro H; [constructor|].
  destruct (String.eqb (Token.id x) tokenId) eqn:E.
  - constructor; [now apply H|exact Hl].
  - constructor; [exact Hx|]. apply IH. exact H.
Qed.

(** Rewriting one row changes the number of rows a filter keeps by at
    most one, and not upwards when the filter rejects the new row. *)
Lemma updateFirst_count (q : Token.t -> bool) (tokenId : string)
    (d : TokenData) (l : list Token.t) :
  len (filter q (updateFirst tokenId d l)) <= len (filter q l) + 1.
Proof.
  unfold len. induction l as [|x l IH]; simpl; [lia|].
  destruct (String.eqb (Token.id x) tokenId); simpl.
  - destruct (q (applyData d x)), (q x); simpl; lia.
  - destruct (q x); simpl; lia.
Qed.

Lemma updateFirst_count_rejected (q : Token.t -> bool) (tokenId : string)
    (d : TokenData) (l : list Token.t) :
  (forall t, q (applyData d t) = false) ->
  len (filter q (updateFirst tokenId d l)) <= len (filter q l).
Proof.
  intro H. unfold len. induction l as [|x l IH]; simpl; [lia|].
  destruct (String.eqb (Token.id x) tokenId); simpl.
  - rewrite H. destruct (q x); simpl; lia.
  - destruct (q x); simpl; lia.
Qed.

Lemma candidateSlots_In (now : Z) (token : Token.t) (db : Db) (s : Slot.t) :
  In s (candidateSlots now token db) <->
  In s (slots db)
  /\ Slot.isActive s = true
  /\ Slot.doctorId s = Token.doctorId token
  /\ Slot.date s = Token.date token
  /\ now < atTime (Slot.date s) (Slot.endTime s).
Proof.
  unfold candidateSlots, activeSlotsFor, hasSlotEnded.
  rewrite filter_In, sortBy_In, filter_In, !andb_true_iff, negb_true_iff.
  rewrite String.eqb_eq, Z.eqb_eq, Z.geb_leb, Z.leb_gt. tauto.
Qed.

Lemma admissible_below (token : Token.t) (db : Db) (slot : Slot.t) :
  admissible token db slot = true ->
  allocatedCount (Slot.id slot) db < Slot.capacity slot.
Proof. apply canAllocateToSlot_below. Qed.

Lemma NoDup_slot_ids (l : list Slot.t) (a b : Slot.t) :
  NoDup (map Slot.id l) -> In a l -> In b l -> Slot.id a = Slot.id b -> a = b.
Proof.
  induction l as [|x l IH]; simpl; [tauto|].
  intros Hnd Ha Hb E. inversion Hnd as [|? ? Hx Hl]; subst.
  destruct Ha as [->|Ha], Hb as [->|Hb]; auto.
  - exfalso. apply Hx. rewrite E. now apply in_map.
  - exfalso. apply Hx. rewrite <- E. now apply in_map.
Qed.

(** ** Every operation is a sequence of elementary effects *)

Lemma Effects_one (now : Z) (db db' : Db) : Effect now db db' -> Effects now db db'.
Proof. intro H. eapply Effects_cons; [exact H|constructor]. Qed.

Lemma Effects_trans (now : Z) (db1 db2 db3 : Db) :
  Effects now db1 db2 -> Effects now db2 db3 -> Effects now db1 db3.
Proof.
  induction 1 as [|a b c Hab Hbc IH]; [auto|].
  intro H. eapply Effects_cons; [exact Hab|now apply IH].
Qed.

Lemma Effects_snoc (now : Z) (db1 db2 db3 : Db) :
  Effects now db1 db2 -> Effect now db2 db3 -> Effects now db1 db3.
Proof. intros H1 H2. eapply Effects_trans; [exact H1|now apply Effects_one]. Qed.

Lemma findToken_self (tokenId : string) (db : Db) (token : Token.t) :
  findToken tokenId db = Some token ->
  findToken (Token.id token) db = Some token.
Proof. intro H. now rewrite (findToken_id _ _ H). Qed.

Lemma status_eqb_false (a b : TokenStatus.t) :
  TokenStatus.eqb a b = false -> a <> b.
Proof. destruct (TokenStatus_eqb_spec a b); [discriminate|auto]. Qed.

Lemma status_eqb_true (a b : TokenStatus.t) :
  TokenStatus.eqb a b = true -> a = b.
Proof. destruct (TokenStatus_eqb_spec a b); [auto|discriminate]. Qed.

Lemma allocateToken_effects (fuel : nat) (now : Z) (tokenId : string)
    (db db' : Db) (r : AllocationResult.t) :
  allocateToken fuel now tokenId db = Ok (db', r) -> Effects now db db'.
Proof.
  destruct fuel as [|fuel]; [discriminate|].
  rewrite allocateToken_eq.
  destruct (findToken tokenId db) as [token|] eqn:F; [|discriminate].
  destruct (TokenStatus.eqb (Token.status token) TokenStatus.WAITING) eqn:W;
    [|discriminate].
  cbn [negb]. rewrite find_admissible.
  destruct (find (admissible token db) (candidateSlots now token db))
    as [slot|] eqn:A; cbn [option_map].
  - intro H. injection H as <- _.
    apply find_some in A. destruct A as [Hin Hadm].
    rewrite <- (findToken_id _ _ F).
    apply Effects_one. apply E_allocate; auto.
    + eapply findToken_self; eauto.
    + now apply status_eqb_true.
  - intro H. injection H as <- _. constructor.
Qed.

Lemma allocateToken_total (fuel : nat) (now : Z) (tokenId : string) (db : Db) :
  allocateToken (S fuel) now tokenId db <> OutOfFuel.
Proof.
  rewrite allocateToken_eq.
  destruct (findToken tokenId db) as [token|]; [|discriminate].
  destruct (negb _); [discriminate|].
  destruct (find _ _) as [[slot toks]|]; discriminate.
Qed.

Lemma reallocateLoop_effects (fuel : nat) (now : Z) (waiting : list Token.t) :
  forall (db db' : Db) (moved moved' : list (option Token.t)),
    reallocateLoop fuel now waiting db moved = Ok (db', moved') ->
    Effects now db db'.
Proof.
  induction waiting as [|w rest IH]; intros db db' moved moved'; simpl.
  - intro H. injection H as <- _. constructor.
  - destruct (allocateToken fuel now (Token.id w) db) as [[db1 r]| |] eqn:A;
      simpl; try discriminate.
    intro H. eapply Effects_trans.
    + eapply allocateToken_effects; eauto.
    + eapply IH; eauto.
Qed.

Lemma reallocateLoop_total (fuel : nat) (now : Z) (waiting : list Token.t) :
  forall (db : Db) (moved : list (option Token.t)),
    reallocateLoop (S fuel) now waiting db moved <> OutOfFuel.
Proof.
  induction waiting as [|w rest IH]; intros db moved; [discriminate|].
  cbn [reallocateLoop].
  destruct (allocateToken (S fuel) now (Token.id w) db) as [[db1 r]| |] eqn:A;
    cbn [bind]; [apply IH|discriminate|].
  now apply allocateToken_total in A.
Qed.

Lemma createToken_effects (fuel : nat) (now : Z) (input : CreateTokenInput.t)
    (db db' : Db) (r : AllocationResult.t) :
  createToken fuel now input db = Ok (db', r) -> Effects now db db'.
Proof.
  unfold createToken.
  destruct (findTokenByKey _ db) as [existing|].
  - intro H. injection H as <- _. constructor.
  - destruct (findActiveDoctor _ db); [|discriminate].
    destruct (allocateToken fuel now _ _) as [[db2 ar]| |] eqn:A;
      cbn [bind]; try discriminate.
    intro H. injection H as <- _.
    eapply Effects_cons; [apply (E_insert now db (newToken input now)); reflexivity|].
    eapply Effects_snoc; [eapply allocateToken_effects; eauto|apply E_audit].
Qed.

Lemma cancelToken_effects (fuel : nat) (now : Z) (tokenId : string)
    (db db' : Db) (r : ReallocationResult.t) :
  cancelToken fuel now tokenId db = Ok (db', r) -> Effects now db db'.
Proof.
  unfold cancelToken.
  destruct (findToken tokenId db) as [token|] eqn:F; [|discriminate].
  destruct (TokenStatus.eqb (Token.status token) TokenStatus.CANCELLED) eqn:C;
    [discriminate|].
  destruct (TokenStatus.eqb (Token.status token) TokenStatus.COMPLETED) eqn:D;
    [discriminate|].
  assert (E1 : Effect now db (updateToken tokenId (cancelData now) db)).
  { rewrite <- (findToken_id _ _ F).
    apply E_cancel; [eapply findToken_self; eauto| |]; now apply status_eqb_false. }
  assert (Fin : forall m x, Ok (createAudit m (updateToken tokenId (cancelData now) db), x)
                            = Ok (db', r) -> Effects now db db').
  { intros m x H. injection H as <- _.
    eapply Effects_cons; [exact E1|apply Effects_one, E_audit]. }
  destruct (tokenSlot token db) as [theSlot|]; [|apply Fin].
  destruct (truthy (Token.slotId token)); [|apply Fin].
  destruct (hasSlotEnded now _ _); [apply Fin|].
  destruct (reallocateLoop fuel now _ _ _) as [[db2 moved]| |] eqn:R;
    cbn [bind]; try discriminate.
  intro H. injection H as <- _.
  eapply Effects_cons; [exact E1|].
  eapply Effects_snoc; [eapply reallocateLoop_effects; eauto|apply E_audit].
Qed.

Lemma markNoShow_effects (fuel : nat) (now : Z) (tokenId : string)
    (db db' : Db) (r : ReallocationResult.t) :
  markNoShow fuel now tokenId db = Ok (db', r) -> Effects now db db'.
Proof.
  unfold markNoShow.
  destruct (findToken tokenId db) as [token|] eqn:F; [|discriminate].
  destruct (TokenStatus.eqb (Token.status token) TokenStatus.ALLOCATED) eqn:C;
    [|discriminate].
  cbn [negb].
  assert (E1 : Effect now db (updateToken tokenId noShowData db)).
  { rewrite <- (findToken_id _ _ F).
    apply E_noShow; [eapply findToken_self; eauto|now apply status_eqb_true]. }
  assert (Fin : forall m x, Ok (createAudit m (updateToken tokenId noShowData db), x)
                            = Ok (db', r) -> Effects now db db').
  { intros m x H. injection H as <- _.
    eapply Effects_cons; [exact E1|apply Effects_one, E_audit]. }
  destruct (tokenSlot token db) as [theSlot|]; [|apply Fin].
  destruct (hasSlotEnded now _ _); [apply Fin|].
  destruct (reallocateLoop fuel now _ _ _) as [[db2 moved]| |] eqn:R;
    cbn [bind]; try discriminate.
  intro H. injection H as <- _.
  eapply Effects_cons; [exact E1|].
  eapply Effects_snoc; [eapply reallocateLoop_effects; eauto|apply E_audit].
Qed.

Lemma completeToken_effects (now : Z) (tokenId : string) (db db' : Db) (r : unit) :
  completeToken now tokenId db = Ok (db', r) -> Effects now db db'.
Proof.
  unfold completeToken.
  destruct (findToken tokenId db) as [token|] eqn:F; [|discriminate].
  destruct (TokenStatus.eqb (Token.status token) TokenStatus.ALLOCATED) eqn:C;
    [|discriminate].
  cbn [negb]. intro H. injection H as <- _.
  eapply Effects_cons; [|apply Effects_one, E_audit].
  rewrite <- (findToken_id _ _ F).
  apply E_complete; [eapply findToken_self; eauto|now apply status_eqb_true].
Qed.

Lemma run_effects (fuel : nat) (now : Z) (op : Operation) (db db' : Db) :
  run fuel now op db = Ok db' -> Effects now db db'.
Proof.
  destruct op as [input|tokenId|tokenId|tokenId|doctorId date parsedDate];
    cbn [run].
  - destruct (createToken fuel now input db) as [[d r]| |] eqn:E;
      cbn [storeOf]; try discriminate.
    intro H. injection H as <-. eapply createToken_effects; eauto.
  - destruct (cancelToken fuel now tokenId db) as [[d r]| |] eqn:E;
      cbn [storeOf]; try discriminate.
    intro H. injection H as <-. eapply cancelToken_effects; eauto.
  - destruct (markNoShow fuel now tokenId db) as [[d r]| |] eqn:E;
      cbn [storeOf]; try discriminate.
    intro H. injection H as <-. eapply markNoShow_effects; eauto.
  - destruct (completeToken now tokenId db) as [[d r]| |] eqn:E;
      cbn [storeOf]; try discriminate.
    intro H. injection H as <-. eapply completeToken_effects; eauto.
  - intro H. injection H as <-. cbn [expireWaitingTokens fst].
    eapply Effects_cons; [apply E_expire|apply Effects_one, E_audit].
Qed.

Lemma run_total (fuel : nat) (now : Z) (op : Operation) (db : Db) :
  run (S fuel) now op db <> OutOfFuel.
Proof.
  destruct op as [input|tokenId|tokenId|tokenId|doctorId date parsedDate];
    cbn [run]; [| | | |discriminate].
  - unfold createToken.
    destruct (findTokenByKey _ db); [discriminate|].
    destruct (findActiveDoctor _ db); [|discriminate].
    destruct (allocateToken (S fuel) now _ _) as [[d r]| |] eqn:A;
      cbn [bind storeOf]; try discriminate.
    now apply allocateToken_total in A.
  - unfold cancelToken.
    destruct (findToken tokenId db) as [token|]; [|discriminate].
    destruct (TokenStatus.eqb _ TokenStatus.CANCELLED); [discriminate|].
    destruct (TokenStatus.eqb _ TokenStatus.COMPLETED); [discriminate|].
    destruct (tokenSlot token db); [|discriminate].
    destruct (truthy _); [|discriminate].
    destruct (hasSlotEnded now _ _); [discriminate|].
    destruct (reallocateLoop (S fuel) now _ _ _) as [[d r]| |] eqn:R;
      cbn [bind storeOf]; try discriminate.
    now apply reallocateLoop_total in R.
  - unfold markNoShow.
    destruct (findToken tokenId db) as [token|]; [|discriminate].
    destruct (negb _); [discriminate|].
    destruct (tokenSlot token db); [|discriminate].
    destruct (hasSlotEnded now _ _); [discriminate|].
    destruct (reallocateLoop (S fuel) now _ _ _) as [[d r]| |] eqn:R;
      cbn [bind storeOf]; try discriminate.
    now apply reallocateLoop_total in R.
  - unfold completeToken.
    destruct (findToken tokenId db) as [token|]; [|discriminate].
    destruct (negb _); discriminate.
Qed.

(** ** Invariants of the elementary effects *)

Lemma Effect_slots (now : Z) (db db' : Db) :
  Effect now db db' -> slots db' = slots db.
Proof. destruct 1; reflexivity. Qed.

Lemma Effects_slots (now : Z) (db db' : Db) :
  Effects now db db' -> slots db' = slots db.
Proof.
  induction 1 as [|a b c Hab Hbc IH]; [reflexivity|].
  rewrite IH. eapply Effect_slots; eauto.
Qed.

Lemma filter_map_same (q : Token.t -> bool) (f : Token.t -> Token.t)
    (l : list Token.t) :
  (forall t, q (f t) = q t) -> len (filter q (map f l)) = len (filter q l).
Proof.
  intro H. unfold len. induction l as [|x l IH]; simpl; [reflexivity|].
  rewrite H. destruct (q x); simpl; lia.
Qed.

Lemma allocatedIn_status (slotId : string) (t : Token.t) :
  Token.status t <> TokenStatus.ALLOCATED -> allocatedIn slotId t = false.
Proof.
  intro H. unfold allocatedIn.
  destruct (TokenStatus_eqb_spec (Token.status t) TokenStatus.ALLOCATED);
    [contradiction|apply andb_false_r].
Qed.

Lemma allocatedCount_other (slotId : string) (tokenId : string) (d : TokenData)
    (db : Db) :
  (forall t, allocatedIn slotId (applyData d t) = false) ->
  allocatedCount slotId (updateToken tokenId d db) <= allocatedCount slotId db.
Proof. intro H. now apply updateFirst_count_rejected. Qed.

Lemma allocatedCount_released (slotId : string) (tokenId : string)
    (d : TokenData) (db : Db) (st : TokenStatus.t) :
  setStatus d = Some st -> st <> TokenStatus.ALLOCATED ->
  allocatedCount slotId (updateToken tokenId d db) <= allocatedCount slotId db.
Proof.
  intros H1 H2. apply allocatedCount_other. intro t.
  apply allocatedIn_status. unfold applyData; cbn. now rewrite H1.
Qed.

Lemma Effect_capacity (now : Z) (db db' : Db) :
  NoDup (map Slot.id (slots db)) ->
  capacityRespected db -> Effect now db db' -> capacityRespected db'.
Proof.
  intros Hnd Hcap Heff s Hs.
  assert (Hs' : In s (slots db))
    by (now rewrite <- (Effect_slots Heff)).
  specialize (Hcap s Hs').
  destruct Heff as [db a|db t Hw Hn|db token slot Hf Hw Hin Hadm
                   |db token Hf Hc Hd|db token Hf Ha|db token Hf Ha
                   |db doctorId parsedDate].
  - exact Hcap.
  - unfold allocatedCount, allocatedTokensOf in *. cbn [tokens withTokens].
    rewrite filter_app. cbn [filter].
    rewrite allocatedIn_status by (rewrite Hw; discriminate).
    now rewrite app_nil_r.
  - apply candidateSlots_In in Hin. destruct Hin as [Hin _].
    destruct (String.eqb_spec (Slot.id slot) (Slot.id s)) as [E|E].
    + assert (slot = s) by (eapply NoDup_slot_ids; eauto). subst slot.
      apply admissible_below in Hadm.
      pose proof (updateFirst_count (allocatedIn (Slot.id s)) (Token.id token)
                    (allocateData (Slot.id s) now) (tokens db)) as Hc.
      unfold allocatedCount, allocatedTokensOf in *.
      cbn [tokens updateToken withTokens]. lia.
    + eapply Z.le_trans; [|exact Hcap].
      apply allocatedCount_other. intro t. unfold allocatedIn. cbn.
      apply String.eqb_neq in E. now rewrite E.
  - eapply Z.le_trans; [|exact Hcap].
    eapply allocatedCount_released; [reflexivity|discriminate].
  - eapply Z.le_trans; [|exact Hcap].
    eapply allocatedCount_released; [reflexivity|discriminate].
  - eapply Z.le_trans; [|exact Hcap].
    eapply allocatedCount_released; [reflexivity|discriminate].
  - unfold allocatedCount, allocatedTokensOf in *. cbn [tokens withTokens].
    rewrite filter_map_same; [exact Hcap|].
    intro t. destruct (expires doctorId parsedDate t) eqn:E; [|reflexivity].
    unfold expires in E. rewrite !andb_true_iff in E.
    destruct E as [_ E]. apply status_eqb_true in E.
    rewrite !allocatedIn_status; [reflexivity| |]; cbn; try rewrite E; discriminate.
Qed.

Lemma Effects_capacity (now : Z) (db db' : Db) :
  NoDup (map Slot.id (slots db)) ->
  capacityRespected db -> Effects now db db' -> capacityRespected db'.
Proof.
  intros Hnd Hcap H. induction H as [|a b c Hab Hbc IH]; [exact Hcap|].
  apply IH.
  - now rewrite (Effect_slots Hab).
  - eapply Effect_capacity; eauto.
Qed.

(** ** Capacity *)

(** C1. For every slot, after every operation (createToken, cancelToken,
    markNoShow, completeToken, expireWaiting) the number of ALLOCATED tokens
    whose slotId is the slot's id is at most the slot's capacity: the
    operation terminates, and the store it leaves (its result when it
    commits, the store before it when it throws) respects every capacity
    if the store before it did.  Slot ids are the primary key of the slot
    table. *)
Theorem capacity_never_exceeded (fuel : nat) (now : Z) (op : Operation) (db : Db) :
  NoDup (map Slot.id (slots db)) ->
  capacityRespected db ->
  run (S fuel) now op db <> OutOfFuel
  /\ capacityRespected (committed db (run (S fuel) now op db)).
Proof.
  intros Hnd Hcap. split; [apply run_total|].
  destruct (run (S fuel) now op db) as [db'| |] eqn:R; cbn [committed]; auto.
  eapply Effects_capacity; eauto. eapply run_effects; eauto.
Qed.

Lemma capacity_never_exceeded_witness :
  NoDup (map Slot.id (slots scenarioS3))
  /\ capacityRespected scenarioS3
  /\ run 1 halfPastNine (CancelToken "paid1") scenarioS3 <> OutOfFuel
  /\ capacityRespected
       (committed scenarioS3
          (run 1 halfPastNine (CancelToken "paid1") scenarioS3)).
Proof.
  assert (Hnd : NoDup (map Slot.id (slots scenarioS3))).
  { simpl. constructor; [simpl; tauto|constructor]. }
  assert (Hcap : capacityRespected scenarioS3).
  { intros s [<-|[]]. vm_compute. discriminate. }
  split; [exact Hnd|]. split; [exact Hcap|].
  exact (capacity_never_exceeded 0 halfPastNine (CancelToken "paid1") Hnd Hcap).
Defined.

Lemma committed_slots (fuel : nat) (now : Z) (op : Operation) (db : Db) :
  slots (committed db (run fuel now op db)) = slots db.
Proof.
  destruct (run fuel now op db) as [db'| |] eqn:R; cbn [committed]; auto.
  eapply Effects_slots. eapply run_effects; eauto.
Qed.

(** (I1) holds all day long if it holds in the morning. *)
Corollary capacity_all_day (fuel : nat) (ops : list (Z * Operation)) :
  forall db,
    NoDup (map Slot.id (slots db)) ->
    capacityRespected db ->
    capacityRespected (runAll (S fuel) ops db).
Proof.
  induction ops as [|[now op] rest IH]; intros db Hnd Hcap; cbn [runAll]; auto.
  apply IH.
  - now rewrite committed_slots.
  - destruct (run (S fuel) now op db) as [db'| |] eqn:R; cbn [committed]; auto.
    eapply Effects_capacity; eauto. eapply run_effects; eauto.
Qed.

(** ** The slot reference of a token *)

Lemma slotKept_allocated (slotId : string) (now : Z) (t : Token.t) :
  slotKept (applyData (allocateData slotId now) t).
Proof. unfold slotKept; cbn. split; [auto|intros _; discriminate]. Qed.

Lemma slotKept_cleared (d : TokenData) (st : TokenStatus.t) (t : Token.t) :
  setStatus d = Some st -> setSlotId d = Some None ->
  st <> TokenStatus.ALLOCATED -> st <> TokenStatus.COMPLETED ->
  slotKept (applyData d t).
Proof.
  intros H1 H2 Ha Hc. unfold slotKept, applyData; cbn. rewrite H1, H2; cbn.
  split; [congruence|intros [E|E]; congruence].
Qed.

Lemma updateToken_slotDiscipline (tokenId : string) (d : TokenData) (db : Db) :
  slotDiscipline db ->
  (forall t, findToken tokenId db = Some t -> slotKept (applyData d t)) ->
  slotDiscipline (updateToken tokenId d db).
Proof.
  unfold slotDiscipline. intros H Hd.
  apply Forall_forall. cbn [tokens updateToken withTokens].
  apply updateFirst_Forall; [now apply Forall_forall|exact Hd].
Qed.

Lemma Effect_slotDiscipline (now : Z) (db db' : Db) :
  slotDiscipline db -> Effect now db db' -> slotDiscipline db'.
Proof.
  intros Hinv Heff.
  destruct Heff as [db a|db t Hw Hn|db token slot Hf Hw Hin Hadm
                   |db token Hf Hc Hd|db token Hf Ha|db token Hf Ha
                   |db doctorId parsedDate].
  - exact Hinv.
  - intros x Hx. cbn [tokens withTokens] in Hx. apply in_app_or in Hx.
    destruct Hx as [Hx|[<-|[]]]; [now apply Hinv|].
    unfold slotKept. rewrite Hw, Hn.
    split; [congruence|intros [E|E]; discriminate].
  - apply updateToken_slotDiscipline; [exact Hinv|].
    intros t _. apply slotKept_allocated.
  - apply updateToken_slotDiscipline; [exact Hinv|].
    intros t _. eapply slotKept_cleared; try reflexivity; discriminate.
  - apply updateToken_slotDiscipline; [exact Hinv|].
    intros t _. eapply slotKept_cleared; try reflexivity; discriminate.
  - apply updateToken_slotDiscipline; [exact Hinv|].
    intros t Ht. rewrite Hf in Ht. injection Ht as <-.
    pose proof (Hinv token (findToken_In _ _ Hf)) as [_ K].
    unfold slotKept; cbn. split; [auto|intros _; apply K; now left].
  - intros x Hx. cbn [tokens withTokens] in Hx. apply in_map_iff in Hx.
    destruct Hx as [t [<- Ht]]. specialize (Hinv t Ht).
    destruct (expires doctorId parsedDate t) eqn:E; [|exact Hinv].
    unfold expires in E. rewrite !andb_true_iff in E.
    destruct E as [_ E]. apply status_eqb_true in E.
    destruct Hinv as [K _]. unfold slotKept; cbn.
    split; [|intros [X|X]; discriminate].
    intro N. apply K in N. rewrite E in N. destruct N; discriminate.
Qed.

Lemma Effects_slotDiscipline (now : Z) (db db' : Db) :
  slotDiscipline db -> Effects now db db' -> slotDiscipline db'.
Proof.
  intros Hinv H. induction H as [|a b c Hab Hbc IH]; [exact Hinv|].
  apply IH. eapply Effect_slotDiscipline; eauto.
Qed.

(** C5, as the code has it.  After every operation a token has a slotId
    exactly when its status is ALLOCATED or COMPLETED; completeToken turns
    an ALLOCATED token into a COMPLETED one and leaves its slotId as it
    was, which is not null. *)
Theorem slotId_kept_until_completed (fuel : nat) (now : Z) (op : Operation)
    (db : Db) :
  slotDiscipline db ->
  slotDiscipline (committed db (run (S fuel) now op db))
  /\ (forall tokenId token,
        findToken tokenId db = Some token ->
        Token.status token = TokenStatus.ALLOCATED ->
        exists db' token',
          completeToken now tokenId db = Ok (db', tt)
          /\ findToken tokenId db' = Some token'
          /\ Token.status token' = TokenStatus.COMPLETED
          /\ Token.slotId token' = Token.slotId token
          /\ Token.slotId token' <> None).
Proof.
  intro Hinv. split.
  - destruct (run (S fuel) now op db) as [db'| |] eqn:R; cbn [committed]; auto.
    eapply Effects_slotDiscipline; eauto. eapply run_effects; eauto.
  - intros tokenId token Hf Ha.
    unfold completeToken. rewrite Hf, Ha. cbn [TokenStatus.eqb negb].
    eexists. exists (applyData (completeData now) token).
    split; [reflexivity|].
    split; [apply (findToken_updateToken _ _ _ Hf)|].
    split; [reflexivity|]. split; [reflexivity|].
    cbn. apply (Hinv token (findToken_In _ _ Hf)). now left.
Qed.

Lemma slotId_kept_until_completed_witness :
  slotDiscipline scenarioS1
  /\ slotDiscipline
       (committed scenarioS1 (run 1 (9 * hour) (CompleteToken "t1") scenarioS1))
  /\ exists db' token',
       completeToken (9 * hour) "t1" scenarioS1 = Ok (db', tt)
       /\ findToken "t1" db' = Some token'
       /\ Token.status token' = TokenStatus.COMPLETED
       /\ Token.slotId token' = Some "S"
       /\ Token.slotId token' <> None.
Proof.
  assert (Hinv : slotDiscipline scenarioS1).
  { intros t [<-|[<-|[]]]; unfold slotKept; cbn;
      (split; [auto|intros _; discriminate]). }
  split; [exact Hinv|].
  destruct (slotId_kept_until_completed 0 (9 * hour) (CompleteToken "t1") Hinv)
    as [H1 H2].
  split; [exact H1|].
  exact (H2 "t1"
           (mkToken "t1" Source.WALKIN Priority.WALKIN TokenStatus.ALLOCATED
              (Some "S") 1)
           eq_refl eq_refl).
Defined.

(** The claim C5 as stated fails: in scenario S1 every token has a slotId
    exactly when it is ALLOCATED; after completeToken on t1 that is no
    longer so, because t1 is COMPLETED and still refers to slot S. *)
Lemma completeToken_clears_slotId_counterexample :
  (forall t, In t (tokens scenarioS1) ->
             (Token.slotId t <> None <-> Token.status t = TokenStatus.ALLOCATED))
  /\ ~ (forall t,
          In t (tokens (committed scenarioS1
                          (run 1 (9 * hour) (CompleteToken "t1") scenarioS1))) ->
          (Token.slotId t <> None <-> Token.status t = TokenStatus.ALLOCATED)).
Proof.
  split.
  - intros t [<-|[<-|[]]]; cbn; (split; [auto|intros _; discriminate]).
  - intro H.
    specialize (H (applyData (completeData (9 * hour))
                     (mkToken "t1" Source.WALKIN Priority.WALKIN
                        TokenStatus.ALLOCATED (Some "S") 1))).
    destruct H as [K _]; [left; reflexivity|].
    cbn in K. assert (N : Some "S" <> @None string) by discriminate.
    apply K in N. discriminate.
Qed.

(** ** Allocation *)




(** *** The predicate of the specification and the code's *)



(** *** Allocated rows and the clock *)















(** Why the amended C8 leaves EMERGENCY out.  In scenario S2 at 08:00 with
    a waiting EMERGENCY token e1, the first candidate slot for which
    admissible of section 4.2 holds is the full S1, yet allocateToken
    skips it and allocates e1 to S2: canAllocateToSlot tests fullness
    before the priority, the defect of C2 and C3. *)
Example emergency_skips_full_slot :
  let e1 := mkToken "e1" Source.WALKIN Priority.EMERGENCY TokenStatus.WAITING
              None 6 in
  let db := withTokens scenarioS2 (tokens scenarioS2 ++ [e1])%list in
  find (admissibleIn e1 db) (candidateSlots (8 * hour) e1 db)
  = Some (mkSlot "S1" 9 10 2)
  /\ exists db' r,
       allocateToken 1 (8 * hour) "e1" db = Ok (db', r)
       /\ AllocationResult.slot r = Some (mkSlot "S2" 10 11 3).
Proof.
  cbv zeta. split; [reflexivity|].
  do 2 eexists. split; [vm_compute; reflexivity|reflexivity].
Qed.

(** ** Reallocation *)

Lemma findWaiting_In (walkInOnly : bool) (doctorId : string) (date : Z)
    (db : Db) (t : Token.t) :
  In t (findWaiting walkInOnly doctorId date db) <->
  In t (tokens db)
  /\ Token.status t = TokenStatus.WAITING
  /\ Token.doctorId t = doctorId
  /\ Token.date t = date
  /\ (walkInOnly = true -> Token.source t = Source.WALKIN).
Proof.
  unfold findWaiting.
  rewrite sortBy_In, filter_In, !andb_true_iff, orb_true_iff.
  rewrite String.eqb_eq, Z.eqb_eq.
  destruct (TokenStatus_eqb_spec (Token.status t) TokenStatus.WAITING),
           (Source_eqb_spec (Token.source t) Source.WALKIN),
           walkInOnly; cbn; intuition congruence.
Qed.

Lemma findWaiting_sorted (walkInOnly : bool) (doctorId : string) (date : Z)
    (db : Db) :
  StronglySorted (ordered waitingLeb) (findWaiting walkInOnly doctorId date db).
Proof.
  apply sortBy_sorted.
  - apply waitingLeb_total.
  - apply waitingLeb_trans.
Qed.

Lemma waitingLeb_meaning (a b : Token.t) :
  ordered waitingLeb a b <->
  getPriorityOrder (Token.priority a) < getPriorityOrder (Token.priority b)
  \/ (Token.priority a = Token.priority b
      /\ Token.createdAt a <= Token.createdAt b).
Proof.
  unfold ordered, waitingLeb.
  rewrite orb_true_iff, andb_true_iff, Z.ltb_lt, Z.eqb_eq, Z.leb_le.
  destruct (Token.priority a), (Token.priority b); cbn;
    intuition (try lia; try congruence).
Qed.

Lemma selectWaitingTokens_eq (now : Z) (token : Token.t) (slot : Slot.t)
    (db : Db) :
  hasSlotEnded now (Slot.endTime slot) (Slot.date slot) = false ->
  selectWaitingTokens now token slot db = backfillCandidates now token slot db.
Proof.
  intro H. unfold selectWaitingTokens, backfillCandidates, shouldPrioritizeWalkIn.
  rewrite H. change (1000 * 60 * 60) with 3600000.
  destruct (_ <=? 3600000).
  - destruct (findWaiting true _ _ db); reflexivity.
  - rewrite andb_false_r. reflexivity.
Qed.

(** C7. When cancelToken or markNoShow frees a seat in a slot that has not
    ended, the tokens it then tries to allocate, in this order, are: if
    the slot starts at most one hour from now (or has started), the WAITING
    tokens of the doctor and date with source WALKIN, by ascending priority
    and then ascending createdAt, and all WAITING tokens of the doctor and
    date in the same order if there is no such walk-in; all WAITING tokens
    from the start if the slot is further away. *)
Theorem backfill_candidates (fuel : nat) (now : Z) (tokenId : string)
    (db : Db) (token : Token.t) (slot : Slot.t) :
  findToken tokenId db = Some token ->
  Token.status token = TokenStatus.ALLOCATED ->
  tokenSlot token db = Some slot ->
  truthy (Token.slotId token) = true ->
  hasSlotEnded now (Slot.endTime slot) (Slot.date slot) = false ->
  let waiting walkInOnly db1 :=
    findWaiting walkInOnly (Token.doctorId token) (Token.date token) db1 in
  (forall walkInOnly db1 t,
      In t (waiting walkInOnly db1) <->
      In t (tokens db1)
      /\ Token.status t = TokenStatus.WAITING
      /\ Token.doctorId t = Token.doctorId token
      /\ Token.date t = Token.date token
      /\ (walkInOnly = true -> Token.source t = Source.WALKIN))
  /\ (forall walkInOnly db1,
        StronglySorted (ordered waitingLeb) (waiting walkInOnly db1))
  /\ (forall a b,
        ordered waitingLeb a b <->
        getPriorityOrder (Token.priority a) < getPriorityOrder (Token.priority b)
        \/ (Token.priority a = Token.priority b
            /\ Token.createdAt a <= Token.createdAt b))
  /\ (let db1 := updateToken tokenId (cancelData now) db in
      cancelToken fuel now tokenId db =
      (r <- reallocateLoop fuel now (backfillCandidates now token slot db1) db1 [] ;;
       Ok (createAudit (movedAudit "CANCEL_TOKEN" token (snd r) now) (fst r),
           ReallocationResult.Build true (snd r) (Some slot)
             ("Token cancelled. " ++ showNat (List.length (snd r))
              ++ " waiting tokens were reallocated."))))
  /\ (let db1 := updateToken tokenId noShowData db in
      markNoShow fuel now tokenId db =
      (r <- reallocateLoop fuel now (backfillCandidates now token slot db1) db1 [] ;;
       Ok (createAudit (movedAudit "NO_SHOW" token (snd r) now) (fst r),
           ReallocationResult.Build true (snd r) (Some slot)
             ("Token marked as no-show. " ++ showNat (List.length (snd r))
              ++ " waiting tokens were reallocated.")))).
Proof.
  intros Hf Ha Hs Ht He waiting.
  split; [intros; apply findWaiting_In|].
  split; [intros; apply findWaiting_sorted|].
  split; [apply waitingLeb_meaning|].
  split; cbv zeta.
  - unfold cancelToken. rewrite Hf, Ha, Hs, Ht, He. cbn [TokenStatus.eqb].
    now rewrite selectWaitingTokens_eq.
  - unfold markNoShow. rewrite Hf, Ha, Hs, He. cbn [TokenStatus.eqb negb].
    now rewrite selectWaitingTokens_eq.
Qed.

Lemma backfill_candidates_witness :
  let token :=
    mkToken "paid1" Source.ONLINE Priority.PAID TokenStatus.ALLOCATED (Some "S") 1 in
  let slot := mkSlot "S" 10 11 2 in
  let db1 := updateToken "paid1" (cancelData halfPastNine) scenarioS3 in
  findToken "paid1" scenarioS3 = Some token
  /\ Token.status token = TokenStatus.ALLOCATED
  /\ tokenSlot token scenarioS3 = Some slot
  /\ truthy (Token.slotId token) = true
  /\ hasSlotEnded halfPastNine (Slot.endTime slot) (Slot.date slot) = false
  /\ backfillCandidates halfPastNine token slot db1
     = [mkToken "walkin1" Source.WALKIN Priority.WALKIN TokenStatus.WAITING None 4]
  /\ cancelToken 1 halfPastNine "paid1" scenarioS3 =
     (r <- reallocateLoop 1 halfPastNine
             (backfillCandidates halfPastNine token slot db1) db1 [] ;;
      Ok (createAudit (movedAudit "CANCEL_TOKEN" token (snd r) halfPastNine) (fst r),
          ReallocationResult.Build true (snd r) (Some slot)
            ("Token cancelled. " ++ showNat (List.length (snd r))
             ++ " waiting tokens were reallocated."))).
Proof.
  intros token slot db1.
  split; [reflexivity|]. split; [reflexivity|]. split; [reflexivity|].
  split; [reflexivity|]. split; [reflexivity|]. split; [reflexivity|].
  destruct (backfill_candidates 1 halfPastNine "paid1" scenarioS3
              (token := token) (slot := slot)
              eq_refl eq_refl eq_refl eq_refl eq_refl)
    as (_ & _ & _ & H & _).
  exact H.
Defined.

(** Scenario S3: at 09:30 the cancellation of paid1 promotes walkin1 and
    leaves online2 waiting, although online2 comes first in the order. *)
Example scenarioS3_walkin_first :
  exists db' r,
    cancelToken 1 halfPastNine "paid1" scenarioS3 = Ok (db', r)
    /\ option_map Token.status (findToken "walkin1" db') = Some TokenStatus.ALLOCATED
    /\ option_map Token.status (findToken "online2" db') = Some TokenStatus.WAITING.
Proof. do 2 eexists. split; [reflexivity|]. split; reflexivity. Qed.

(** ** The capacity predicate on each priority *)

(** C3 fails on the code: [canAllocateToSlot] tests the total count before
    it looks at the priority, so an EMERGENCY is refused by a full slot.
    Here: capacity 2, two tokens allocated, no sub-caps. *)
Theorem canAllocateToSlot_refuses_emergency_when_full :
  canAllocateToSlot Priority.EMERGENCY 0 0 2 2 None None = false.
Proof. reflexivity. Qed.

Lemma canAllocateToSlot_full (p : Priority.t) (pc fc total cap : Z)
    (paidCap followUpCap : option Z) :
  cap <= total -> canAllocateToSlot p pc fc total cap paidCap followUpCap = false.
Proof.
  intro H. unfold canAllocateToSlot. rewrite Z.geb_leb.
  apply Z.leb_le in H. now rewrite H.
Qed.

(** C10. For an incoming priority of ONLINE or WALKIN, canAllocateToSlot
    holds exactly when the total allocated count is strictly below the
    capacity, whatever paidCap, followUpCap, paidCount and followUpCount
    are. *)
Theorem canAllocateToSlot_regular (pc fc total cap : Z)
    (paidCap followUpCap : option Z) :
  (canAllocateToSlot Priority.ONLINE pc fc total cap paidCap followUpCap = true
   <-> total < cap)
  /\ (canAllocateToSlot Priority.WALKIN pc fc total cap paidCap followUpCap = true
      <-> total < cap).
Proof.
  unfold canAllocateToSlot. rewrite Z.geb_leb. cbn.
  destruct (Z.leb_spec cap total); split; split; intro; try lia;
    try discriminate; reflexivity.
Qed.

(** ** Displacement *)

Lemma createToken_fuel (fuel : nat) (now : Z) (input : CreateTokenInput.t)
    (db : Db) :
  createToken (S fuel) now input db = createToken 1 now input db.
Proof. unfold createToken. now rewrite allocateToken_fuel. Qed.

Lemma lowestStep_picks (v t : Token.t) :
  let acc := lowestStep (v, getPriorityOrder (Token.priority v)) t in
  snd acc = getPriorityOrder (Token.priority (fst acc))
  /\ (fst acc = v \/ fst acc = t)
  /\ evictedBefore (fst acc) v
  /\ evictedBefore (fst acc) t.
Proof.
  unfold lowestStep, evictedBefore. rewrite Z.gtb_ltb.
  destruct (Z.ltb_spec (getPriorityOrder (Token.priority v))
                       (getPriorityOrder (Token.priority t))); cbn.
  - repeat split; auto; lia.
  - destruct (Z.eqb_spec (getPriorityOrder (Token.priority t))
                         (getPriorityOrder (Token.priority v))) as [E|E].
    + destruct (Z.ltb_spec (Token.createdAt t) (Token.createdAt v)); cbn;
        repeat split; auto; lia.
    + cbn. repeat split; auto; lia.
Qed.

Lemma evictedBefore_trans (a b c : Token.t) :
  evictedBefore a b -> evictedBefore b c -> evictedBefore a c.
Proof. unfold evictedBefore. lia. Qed.

Lemma fold_lowestStep_picks (l : list Token.t) :
  forall v,
    let r := fst (fold_left lowestStep l (v, getPriorityOrder (Token.priority v))) in
    (r = v \/ In r l)
    /\ evictedBefore r v
    /\ forall t, In t l -> evictedBefore r t.
Proof.
  induction l as [|t l IH]; intro v; cbn [fold_left].
  - cbn. split; [auto|]. split; [unfold evictedBefore; lia|tauto].
  - destruct (lowestStep_picks v t) as (Hp & Hv & Hbv & Hbt).
    destruct (lowestStep (v, getPriorityOrder (Token.priority v)) t)
      as [v' p'] eqn:E.
    cbn [fst snd] in *. subst p'.
    destruct (IH v') as (Hr & Hrv & Hall). cbv zeta.
    split; [|split].
    + destruct Hr as [->|Hr]; [|right; now right].
      destruct Hv as [->| ->]; [now left|right; now left].
    + eapply evictedBefore_trans; eauto.
    + intros x [<-|Hx]; [eapply evictedBefore_trans; eauto|now apply Hall].
Qed.

(** X11. The victim [findLowestPriorityToken] names is an occupant with the
    numerically highest priority value and, among those, the oldest
    createdAt. *)
Lemma findLowestPriorityToken_picks (first : Token.t) (rest : list Token.t) :
  exists victim,
    findLowestPriorityToken (first :: rest) = Some (Token.id victim)
    /\ In victim (first :: rest)
    /\ forall t, In t (first :: rest) -> evictedBefore victim t.
Proof.
  destruct (fold_lowestStep_picks (first :: rest) first) as (Hr & _ & Hall).
  eexists. split; [reflexivity|]. split; [|exact Hall].
  destruct Hr as [->|Hr]; [now left|exact Hr].
Qed.

(** [allocateToken] changes at most the token it is called on, which it
    allocates, and writes no audit row: nobody is displaced. *)
Lemma allocateToken_displaces_nobody (fuel : nat) (now : Z) (tokenId : string)
    (db db' : Db) (r : AllocationResult.t) :
  allocateToken fuel now tokenId db = Ok (db', r) ->
  auditLogs db' = auditLogs db
  /\ (db' = db
      \/ exists slot, db' = updateToken tokenId (allocateData (Slot.id slot) now) db).
Proof.
  destruct fuel as [|fuel]; [discriminate|].
  rewrite allocateToken_eq.
  destruct (findToken tokenId db) as [token|] eqn:F; [|discriminate].
  destruct (negb _); [discriminate|].
  destruct (find _ _) as [[slot toks]|]; intro H; injection H as <- _.
  - split; [reflexivity|]. right. now exists slot.
  - split; [reflexivity|now left].
Qed.

(** C2 fails on the code.  Scenario S1 at 08:00: slot S is full with t1
    (WALKIN) and t2 (ONLINE), and t1 is the token findLowestPriorityToken
    would evict; createToken for the EMERGENCY t3 leaves t3 WAITING and t1
    ALLOCATED in S, reports no slot, and writes no EMERGENCY_DISPLACEMENT
    audit row, whatever the fuel. *)
Theorem scenarioS1_emergency_stays_waiting (fuel : nat) :
  findLowestPriorityToken (allocatedTokensOf "S" scenarioS1) = Some "t1"
  /\ exists db' r,
       createToken (S fuel) (8 * hour) inputS1 scenarioS1 = Ok (db', r)
       /\ AllocationResult.success r = false
       /\ AllocationResult.slot r = None
       /\ option_map Token.status (findToken "t3" db') = Some TokenStatus.WAITING
       /\ option_map Token.status (findToken "t1" db') = Some TokenStatus.ALLOCATED
       /\ option_map Token.slotId (findToken "t1" db') = Some (Some "S")
       /\ map AuditLog.operation (auditLogs db') = ["CREATE_TOKEN"].
Proof.
  split; [reflexivity|].
  rewrite createToken_fuel.
  do 2 eexists. split; [vm_compute; reflexivity|].
  repeat split.
Qed.

(** ** Terminal statuses *)

Lemma markNoShow_needs_allocated (fuel : nat) (now : Z) (tokenId : string)
    (db : Db) (token : Token.t) :
  findToken tokenId db = Some token ->
  Token.status token <> TokenStatus.ALLOCATED ->
  markNoShow fuel now tokenId db = Throw INVALID_STATUS.
Proof.
  intros Hf Hs. unfold markNoShow. rewrite Hf.
  destruct (TokenStatus_eqb_spec (Token.status token) TokenStatus.ALLOCATED);
    [contradiction|reflexivity].
Qed.

Lemma completeToken_needs_allocated (now : Z) (tokenId : string) (db : Db)
    (token : Token.t) :
  findToken tokenId db = Some token ->
  Token.status token <> TokenStatus.ALLOCATED ->
  completeToken now tokenId db = Throw INVALID_STATUS.
Proof.
  intros Hf Hs. unfold completeToken. rewrite Hf.
  destruct (TokenStatus_eqb_spec (Token.status token) TokenStatus.ALLOCATED);
    [contradiction|reflexivity].
Qed.

Lemma cancelToken_guards (fuel : nat) (now : Z) (tokenId : string) (db : Db)
    (token : Token.t) :
  findToken tokenId db = Some token ->
  (Token.status token = TokenStatus.CANCELLED ->
   cancelToken fuel now tokenId db = Throw ALREADY_CANCELLED)
  /\ (Token.status token = TokenStatus.COMPLETED ->
      cancelToken fuel now tokenId db = Throw CANNOT_CANCEL_COMPLETED).
Proof.
  intro Hf. unfold cancelToken. rewrite Hf.
  split; intro E; rewrite E; reflexivity.
Qed.

(** C4 fails on the code: [cancelToken] guards CANCELLED and COMPLETED
    only.  On the NO_SHOW token n1 and on the EXPIRED token e1 it commits
    and leaves them CANCELLED, transitions that [isValidStatusTransition]
    rules out. *)
Theorem cancelToken_accepts_no_show_and_expired (fuel : nat) :
  isValidStatusTransition TokenStatus.NO_SHOW TokenStatus.CANCELLED = false
  /\ isValidStatusTransition TokenStatus.EXPIRED TokenStatus.CANCELLED = false
  /\ option_map Token.status (findToken "n1" scenarioTerminal)
     = Some TokenStatus.NO_SHOW
  /\ option_map Token.status (findToken "e1" scenarioTerminal)
     = Some TokenStatus.EXPIRED
  /\ (exists db' r,
        cancelToken fuel (8 * hour) "n1" scenarioTerminal = Ok (db', r)
        /\ option_map Token.status (findToken "n1" db')
           = Some TokenStatus.CANCELLED)
  /\ (exists db' r,
        cancelToken fuel (8 * hour) "e1" scenarioTerminal = Ok (db', r)
        /\ option_map Token.status (findToken "e1" db')
           = Some TokenStatus.CANCELLED).
Proof.
  repeat split; try reflexivity;
    do 2 eexists; (split; [reflexivity|reflexivity]).
Qed.

(** ** Idempotent creation *)

(** C6. If a token with the input's idempotencyKey exists, createToken
    succeeds, returns that token with its current slot, and returns the
    store it was given: no row is added or changed and no audit row is
    written.  Nothing of the input but the key is looked at. *)
Theorem createToken_idempotent (fuel : nat) (now : Z)
    (input : CreateTokenInput.t) (db : Db) (existingToken : Token.t) :
  findTokenByKey (CreateTokenInput.idempotencyKey input) db = Some existingToken ->
  createToken fuel now input db =
    Ok (db,
        AllocationResult.Build true (Some existingToken)
          (tokenSlot existingToken db)
          "Token already exists (idempotent request)")
  /\ committed db (run fuel now (CreateToken input) db) = db
  /\ forall input',
       CreateTokenInput.idempotencyKey input' = CreateTokenInput.idempotencyKey input ->
       createToken fuel now input' db = createToken fuel now input db.
Proof.
  intro H. unfold run, createToken. rewrite H. cbn.
  split; [reflexivity|]. split; [reflexivity|].
  intros input' E. now rewrite E, H.
Qed.

Lemma createToken_idempotent_witness :
  let replay :=
    CreateTokenInput.Build "another name" (Some "5550100") (Some 40) "d9" 86400000
      Source.ONLINE Priority.PAID "key-t1" (Some "replayed") "t9" "T-t9" in
  let t1 :=
    mkToken "t1" Source.WALKIN Priority.WALKIN TokenStatus.ALLOCATED (Some "S") 1 in
  findTokenByKey "key-t1" scenarioS1 = Some t1
  /\ createToken 1 (8 * hour) replay scenarioS1 =
       Ok (scenarioS1,
           AllocationResult.Build true (Some t1) (Some (mkSlot "S" 9 10 2))
             "Token already exists (idempotent request)").
Proof.
  intros replay t1. split; [reflexivity|].
  exact (proj1 (createToken_idempotent 1 (8 * hour) replay scenarioS1
                  (existingToken := t1) eq_refl)).
Defined.

Lemma find_key_app (key : string) (l : list Token.t) (t : Token.t) :
  find (fun t => String.eqb (Token.idempotencyKey t) key) l = None ->
  Token.idempotencyKey t = key ->
  find (fun t => String.eqb (Token.idempotencyKey t) key) (l ++ [t]) = Some t.
Proof.
  intros H E. induction l as [|x l IH]; cbn in *.
  - now rewrite E, String.eqb_refl.
  - destruct (String.eqb (Token.idempotencyKey x) key); [discriminate|auto].
Qed.

Lemma find_key_updateFirst (key tokenId : string) (d : TokenData)
    (l : list Token.t) (t : Token.t) :
  find (fun t => String.eqb (Token.idempotencyKey t) key) l = Some t ->
  exists t',
    find (fun t => String.eqb (Token.idempotencyKey t) key)
         (updateFirst tokenId d l) = Some t'
    /\ Token.id t' = Token.id t.
Proof.
  induction l as [|x l IH]; cbn; [discriminate|].
  destruct (String.eqb (Token.idempotencyKey x) key) eqn:K.
  - intro H. injection H as ->.
    destruct (String.eqb (Token.id t) tokenId); cbn; rewrite K; eauto.
  - intro H. destruct (String.eqb (Token.id x) tokenId); cbn; rewrite K; eauto.
Qed.

(** X7. After a createToken that inserted a row, a second call with the
    same idempotencyKey, whatever the rest of its input, returns the row
    of the first call and the store unchanged. *)
Lemma createToken_replay (fuel fuel' : nat) (now now' : Z)
    (input input' : CreateTokenInput.t) (db db1 : Db) (r : AllocationResult.t) :
  findTokenByKey (CreateTokenInput.idempotencyKey input) db = None ->
  createToken fuel now input db = Ok (db1, r) ->
  CreateTokenInput.idempotencyKey input' = CreateTokenInput.idempotencyKey input ->
  exists r' t,
    createToken fuel' now' input' db1 = Ok (db1, r')
    /\ AllocationResult.token r' = Some t
    /\ Token.id t = CreateTokenInput.newId input.
Proof.
  intros Hnone Hc Hk.
  assert (Hfound : exists t,
             findTokenByKey (CreateTokenInput.idempotencyKey input) db1 = Some t
             /\ Token.id t = CreateTokenInput.newId input).
  { unfold createToken in Hc. rewrite Hnone in Hc.
    destruct (findActiveDoctor _ db); [|discriminate].
    destruct (allocateToken fuel now _ _) as [[db2 ar]| |] eqn:A;
      cbn [bind] in Hc; try discriminate.
    injection Hc as <- _.
    pose proof (find_key_app (tokens db) (newToken input now) Hnone eq_refl) as Hn.
    apply allocateToken_displaces_nobody in A. destruct A as [_ [->|[slot ->]]].
    - exists (newToken input now). split; [exact Hn|reflexivity].
    - unfold findTokenByKey. cbn [tokens createAudit updateToken withTokens].
      eapply find_key_updateFirst in Hn. destruct Hn as (t' & H1 & H2).
      exists t'. split; [exact H1|exact H2]. }
  destruct Hfound as (t & Ht & Hid).
  unfold createToken. rewrite Hk, Ht.
  do 2 eexists. split; [reflexivity|]. split; [reflexivity|exact Hid].
Qed.

(** ** Expiry *)

Lemma filter_map_fixed (q : Token.t -> bool) (f : Token.t -> Token.t)
    (l : list Token.t) :
  (forall t, q (f t) = q t) -> (forall t, q t = true -> f t = t) ->
  filter q (map f l) = filter q l.
Proof.
  intros H1 H2. induction l as [|x l IH]; simpl; [reflexivity|].
  rewrite H1. destruct (q x) eqn:E; [|exact IH].
  now rewrite H2, IH.
Qed.

Lemma expires_iff (doctorId : string) (parsedDate : Z) (t : Token.t) :
  expires doctorId parsedDate t = true <->
  Token.status t = TokenStatus.WAITING
  /\ Token.doctorId t = doctorId
  /\ Token.date t = parsedDate.
Proof.
  unfold expires. rewrite !andb_true_iff, String.eqb_eq, Z.eqb_eq.
  destruct (TokenStatus_eqb_spec (Token.status t) TokenStatus.WAITING);
    intuition congruence.
Qed.

(** C9. expireWaitingTokens turns the tokens that are WAITING for the
    doctor and date into EXPIRED ones, changing nothing else of them, and
    returns how many they are; every other token is left as it is, in
    place; slots and doctors are untouched, no slot gains or loses an
    allocated token, and the only other write is one EXPIRE_TOKENS audit
    row. *)
Theorem expireWaitingTokens_frame (now : Z) (doctorId : string) (date : string)
    (parsedDate : Z) (db : Db) :
  let db' := fst (expireWaitingTokens now doctorId date parsedDate db) in
  let count := snd (expireWaitingTokens now doctorId date parsedDate db) in
  let due t :=
    Token.status t = TokenStatus.WAITING
    /\ Token.doctorId t = doctorId
    /\ Token.date t = parsedDate in
  Forall2 (fun t t' => (due t /\ t' = expired t) \/ (~ due t /\ t' = t))
          (tokens db) (tokens db')
  /\ (forall t, expires doctorId parsedDate t = true <-> due t)
  /\ count = len (filter (expires doctorId parsedDate) (tokens db))
  /\ slots db' = slots db
  /\ doctors db' = doctors db
  /\ (forall slotId, allocatedTokensOf slotId db' = allocatedTokensOf slotId db)
  /\ auditLogs db' =
     (auditLogs db
      ++ [AuditLog.Build "EXPIRE_TOKENS" None None (Some doctorId)
            [("date", JStr date); ("expiredCount", JNum count)] now])%list.
Proof.
  cbn [expireWaitingTokens fst snd].
  split.
  { cbn [tokens createAudit withTokens].
    induction (tokens db) as [|t l IH]; cbn [map]; constructor; [|exact IH].
    destruct (expires doctorId parsedDate t) eqn:E.
    - left. split; [now apply expires_iff|reflexivity].
    - right. split; [|reflexivity].
      intro D. apply expires_iff in D. congruence. }
  split; [intro t; apply expires_iff|].
  split; [reflexivity|]. split; [reflexivity|]. split; [reflexivity|].
  split; [|reflexivity].
  intro slotId. unfold allocatedTokensOf. cbn [tokens createAudit withTokens].
  apply filter_map_fixed.
  - intro t. destruct (expires doctorId parsedDate t) eqn:E; [|reflexivity].
    apply expires_iff in E. destruct E as [E _].
    rewrite !allocatedIn_status; [reflexivity| |]; cbn; try rewrite E; discriminate.
  - intros t Q. destruct (expires doctorId parsedDate t) eqn:E; [|reflexivity].
    apply expires_iff in E. destruct E as [E _].
    rewrite allocatedIn_status in Q; [discriminate|rewrite E; discriminate].
Qed.

(** Scenario S6 on the store of S3: the two waiting tokens expire, the two
    allocated ones stay. *)
Example scenarioS6_expiry :
  let r := expireWaitingTokens (18 * hour) "d1" "01-01-1970" 0 scenarioS3 in
  snd r = 2
  /\ map Token.status (tokens (fst r))
     = [TokenStatus.ALLOCATED; TokenStatus.ALLOCATED;
        TokenStatus.EXPIRED; TokenStatus.EXPIRED].
Proof. split; reflexivity. Qed.

(** * Further properties of the engine *)

(** ** Columns and rows *)

Lemma updateFirst_map (B : Type) (f : Token.t -> B) (tokenId : string)
    (d : TokenData) (l : list Token.t) :
  immutableColumn f -> map f (updateFirst tokenId d l) = map f l.
Proof.
  intro H. induction l as [|x l IH]; simpl; [reflexivity|].
  destruct (String.eqb (Token.id x) tokenId); simpl.
  - now rewrite H.
  - now rewrite IH.
Qed.

Lemma findToken_updateToken_other (tokenId other : string) (d : TokenData)
    (db : Db) :
  other <> tokenId ->
  findToken other (updateToken tokenId d db) = findToken other db.
Proof.
  intro N. unfold findToken. cbn [tokens updateToken withTokens].
  induction (tokens db) as [|x l IH]; simpl; [reflexivity|].
  destruct (String.eqb (Token.id x) tokenId) eqn:E; simpl.
  - apply String.eqb_eq in E.
    destruct (String.eqb_spec (Token.id x) other); [congruence|reflexivity].
  - destruct (String.eqb (Token.id x) other); [reflexivity|exact IH].
Qed.

Lemma untouched_refl (db : Db) : untouched db db.
Proof. repeat split. Qed.

Lemma untouched_trans (a b c : Db) : untouched a b -> untouched b c -> untouched a c.
Proof.
  intros (H1 & H2 & H3 & H4) (K1 & K2 & K3 & K4).
  repeat split; try congruence.
  intros B f Hf. now rewrite K4, H4.
Qed.

Lemma untouched_updateToken (tokenId : string) (d : TokenData) (db : Db) :
  untouched db (updateToken tokenId d db).
Proof.
  repeat split. intros B f Hf. now apply updateFirst_map.
Qed.

Lemma allocateToken_untouched (fuel : nat) (now : Z) (tokenId : string)
    (db db' : Db) (r : AllocationResult.t) :
  allocateToken fuel now tokenId db = Ok (db', r) -> untouched db db'.
Proof.
  intro H. apply allocateToken_displaces_nobody in H.
  destruct H as [_ [->|[slot ->]]];
    [apply untouched_refl|apply untouched_updateToken].
Qed.

Lemma reallocateLoop_untouched (fuel : nat) (now : Z) (waiting : list Token.t) :
  forall (db db' : Db) (moved moved' : list (option Token.t)),
    reallocateLoop fuel now waiting db moved = Ok (db', moved') ->
    untouched db db'.
Proof.
  induction waiting as [|w rest IH]; intros db db' moved moved'; simpl.
  - intro H. injection H as <- _. apply untouched_refl.
  - destruct (allocateToken fuel now (Token.id w) db) as [[db1 r]| |] eqn:A;
      simpl; try discriminate.
    intro H. eapply untouched_trans.
    + eapply allocateToken_untouched; eauto.
    + eapply IH; eauto.
Qed.

Lemma written_audited (now : Z) (op : Operation) (db mid : Db) (a : AuditLog.t) :
  untouched db mid ->
  insertedBy now op db = [] -> isReplay op db = false ->
  AuditLog.operation a = auditName op ->
  written now op db (createAudit a mid).
Proof.
  intros (H1 & H2 & H3 & H4) Hi Hr Ha. unfold written. rewrite Hi, Hr.
  split; [exact H1|]. split; [exact H2|]. split.
  - intros B f Hf. cbn. rewrite app_nil_r. now apply H4.
  - exists a. split; [exact Ha|]. cbn. now rewrite H3.
Qed.

Lemma run_written (fuel : nat) (now : Z) (op : Operation) (db db' : Db) :
  run fuel now op db = Ok db' -> written now op db db'.
Proof.
  destruct op as [input|tokenId|tokenId|tokenId|doctorId date parsedDate];
    cbn [run].
  - unfold createToken, written. cbn [insertedBy isReplay auditName].
    destruct (findTokenByKey _ db) as [existing|] eqn:K.
    + cbn. intro H. injection H as <-.
      split; [reflexivity|]. split; [reflexivity|]. split.
      * intros; now rewrite app_nil_r.
      * eexists (AuditLog.Build "CREATE_TOKEN" None None None [] now).
        split; [reflexivity|now rewrite app_nil_r].
    + destruct (findActiveDoctor _ db); [|discriminate].
      destruct (allocateToken fuel now _ _) as [[db2 ar]| |] eqn:A;
        cbn [bind storeOf]; try discriminate.
      intro H. injection H as <-.
      apply allocateToken_untouched in A. destruct A as (H1 & H2 & H3 & H4).
      split; [exact H1|]. split; [exact H2|]. split.
      * intros B f Hf. cbn. rewrite (H4 B f Hf). cbn. now rewrite map_app.
      * eexists. split; [|cbn; rewrite H3; reflexivity]. reflexivity.
  - unfold cancelToken.
    destruct (findToken tokenId db) as [token|] eqn:F; [|discriminate].
    destruct (TokenStatus.eqb _ TokenStatus.CANCELLED); [discriminate|].
    destruct (TokenStatus.eqb _ TokenStatus.COMPLETED); [discriminate|].
    pose proof (untouched_updateToken tokenId (cancelData now) db) as U.
    assert (Fin : forall mid a (x : ReallocationResult.t),
               untouched db mid -> AuditLog.operation a = "CANCEL_TOKEN" ->
               storeOf (Ok (createAudit a mid, x)) = Ok db' ->
               written now (CancelToken tokenId) db db').
    { intros mid a x Hu Ha H. injection H as <-.
      now apply written_audited. }
    destruct (tokenSlot token db) as [theSlot|]; [|now apply Fin].
    destruct (truthy (Token.slotId token)); [|now apply Fin].
    destruct (hasSlotEnded now _ _); [now apply Fin|].
    destruct (reallocateLoop fuel now _ _ _) as [[db2 moved]| |] eqn:R;
      cbn [bind]; try discriminate.
    apply Fin; [|reflexivity].
    eapply untouched_trans; [exact U|eapply reallocateLoop_untouched; eauto].
  - unfold markNoShow.
    destruct (findToken tokenId db) as [token|] eqn:F; [|discriminate].
    destruct (negb _); [discriminate|].
    pose proof (untouched_updateToken tokenId noShowData db) as U.
    assert (Fin : forall mid a (x : ReallocationResult.t),
               untouched db mid -> AuditLog.operation a = "NO_SHOW" ->
               storeOf (Ok (createAudit a mid, x)) = Ok db' ->
               written now (MarkNoShow tokenId) db db').
    { intros mid a x Hu Ha H. injection H as <-.
      now apply written_audited. }
    destruct (tokenSlot token db) as [theSlot|]; [|now apply Fin].
    destruct (hasSlotEnded now _ _); [now apply Fin|].
    destruct (reallocateLoop fuel now _ _ _) as [[db2 moved]| |] eqn:R;
      cbn [bind]; try discriminate.
    apply Fin; [|reflexivity].
    eapply untouched_trans; [exact U|eapply reallocateLoop_untouched; eauto].
  - unfold completeToken.
    destruct (findToken tokenId db) as [token|] eqn:F; [|discriminate].
    destruct (negb _); [discriminate|].
    cbn [storeOf]. intro H. injection H as <-.
    apply written_audited; try reflexivity. apply untouched_updateToken.
  - intro H. injection H as <-. cbn [expireWaitingTokens fst].
    apply written_audited; try reflexivity.
    repeat split. intros B f Hf. cbn [tokens withTokens].
    rewrite map_map. apply map_ext. intro t.
    destruct (expires doctorId parsedDate t); [apply Hf|reflexivity].
Qed.

(** X1. A committed operation leaves the doctor and slot tables as they
    were and never deletes, reorders or edits the identity columns of a
    token row (id, displayID, patient data, source, priority, doctor, date,
    idempotencyKey, notes, createdAt); the only row ever added is the one
    createToken inserts, at the end, when its idempotencyKey is new. *)
Theorem operations_keep_identity (fuel : nat) (now : Z) (op : Operation)
    (db db' : Db) :
  run fuel now op db = Ok db' ->
  doctors db' = doctors db
  /\ slots db' = slots db
  /\ map identityOf (tokens db') =
     (map identityOf (tokens db) ++ map identityOf (insertedBy now op db))%list.
Proof.
  intro H. apply run_written in H. destruct H as (H1 & H2 & H3 & _).
  split; [exact H1|]. split; [exact H2|].
  apply H3. intros d t. reflexivity.
Qed.

Lemma operations_keep_identity_witness :
  run 1 halfPastNine (CancelToken "paid1") scenarioS3
  = Ok (committed scenarioS3 (run 1 halfPastNine (CancelToken "paid1") scenarioS3))
  /\ map Token.id
       (tokens (committed scenarioS3
                  (run 1 halfPastNine (CancelToken "paid1") scenarioS3)))
     = ["paid1"; "online1"; "online2"; "walkin1"].
Proof.
  split; [reflexivity|].
  destruct (operations_keep_identity 1 halfPastNine (CancelToken "paid1")
              scenarioS3 eq_refl) as (_ & _ & H).
  apply (f_equal (map (fun x => fst (fst (fst (fst (fst (fst
                         (fst (fst (fst (fst (fst x))))))))))))) in H.
  rewrite !map_map in H. exact H.
Defined.

(** X2. Every committed operation appends exactly one audit row, named
    after the operation (CREATE_TOKEN, CANCEL_TOKEN, NO_SHOW,
    COMPLETE_TOKEN, EXPIRE_TOKENS), and never edits or removes an earlier
    one; the only exception is a createToken that finds its idempotencyKey,
    which appends nothing.  In particular no EMERGENCY_DISPLACEMENT row is
    ever written. *)
Theorem one_audit_row_per_operation (fuel : nat) (now : Z) (op : Operation)
    (db db' : Db) :
  run fuel now op db = Ok db' ->
  exists a,
    AuditLog.operation a = auditName op
    /\ auditLogs db' = (auditLogs db ++ if isReplay op db then [] else [a])%list.
Proof. intro H. apply run_written in H. apply H. Qed.

Lemma one_audit_row_per_operation_witness :
  run 1 (8 * hour) (CreateToken inputS1) scenarioS1
  = Ok (committed scenarioS1 (run 1 (8 * hour) (CreateToken inputS1) scenarioS1))
  /\ exists a,
       AuditLog.operation a = "CREATE_TOKEN"
       /\ auditLogs (committed scenarioS1
                       (run 1 (8 * hour) (CreateToken inputS1) scenarioS1))
          = [a].
Proof.
  split; [reflexivity|].
  exact (one_audit_row_per_operation 1 (8 * hour) (CreateToken inputS1)
           scenarioS1 eq_refl).
Defined.

(** ** Statuses only move forward *)

Lemma statusAfter_refl (s : TokenStatus.t) : statusAfter s s = true.
Proof. now destruct s. Qed.

Lemma statusAfter_trans (a b c : TokenStatus.t) :
  statusAfter a b = true -> statusAfter b c = true -> statusAfter a c = true.
Proof. destruct a, b, c; simpl; congruence. Qed.

Lemma rowLater_refl (t : Token.t) : rowLater t t.
Proof. split; [reflexivity|apply statusAfter_refl]. Qed.

Lemma rowLater_trans (a b c : Token.t) : rowLater a b -> rowLater b c -> rowLater a c.
Proof.
  intros [H1 H2] [K1 K2]. split; [congruence|].
  eapply statusAfter_trans; eauto.
Qed.

Lemma Forall2_rowLater_refl (l : list Token.t) : Forall2 rowLater l l.
Proof. induction l; constructor; auto using rowLater_refl. Qed.

Lemma Forall2_rowLater_trans (a b c : list Token.t) :
  Forall2 rowLater a b -> Forall2 rowLater b c -> Forall2 rowLater a c.
Proof.
  intro H. revert c. induction H as [|x y l l' Hxy Hl IH]; intros c Hc.
  - inversion Hc. constructor.
  - inversion Hc as [|? z ? l'' Hyz Hl']; subst.
    constructor; [eapply rowLater_trans; eauto|now apply IH].
Qed.

Lemma tableLater_refl (l : list Token.t) : tableLater l l.
Proof.
  exists l, []. split; [now rewrite app_nil_r|apply Forall2_rowLater_refl].
Qed.

Lemma tableLater_trans (a b c : list Token.t) :
  tableLater a b -> tableLater b c -> tableLater a c.
Proof.
  intros (k1 & a1 & -> & H1) (k2 & a2 & -> & H2).
  apply Forall2_app_inv_l in H2. destruct H2 as (k & a' & Hk & Ha & ->).
  exists k, (a' ++ a2)%list. split; [now rewrite app_assoc|].
  eapply Forall2_rowLater_trans; eauto.
Qed.

Lemma updateFirst_rowLater (tokenId : string) (d : TokenData) (l : list Token.t) :
  (forall t, find (fun t => String.eqb (Token.id t) tokenId) l = Some t ->
             statusAfter (Token.status t) (Token.status (applyData d t)) = true) ->
  Forall2 rowLater l (updateFirst tokenId d l).
Proof.
  induction l as [|x l IH]; simpl; intro H; [constructor|].
  destruct (String.eqb (Token.id x) tokenId) eqn:E.
  - constructor; [|apply Forall2_rowLater_refl].
    split; [reflexivity|now apply H].
  - constructor; [apply rowLater_refl|now apply IH].
Qed.

Lemma updateToken_tableLater (tokenId : string) (d : TokenData) (db : Db)
    (token : Token.t) (s : TokenStatus.t) :
  findToken tokenId db = Some token ->
  setStatus d = Some s ->
  statusAfter (Token.status token) s = true ->
  tableLater (tokens db) (tokens (updateToken tokenId d db)).
Proof.
  intros Hf Hs Ha. exists (updateFirst tokenId d (tokens db)), [].
  split; [cbn; now rewrite app_nil_r|].
  apply updateFirst_rowLater. intros t Ht.
  unfold findToken in Hf. rewrite Hf in Ht. injection Ht as <-.
  cbn. now rewrite Hs.
Qed.

Lemma Effect_tableLater (now : Z) (db db' : Db) :
  Effect now db db' -> tableLater (tokens db) (tokens db').
Proof.
  intro Heff.
  destruct Heff as [db a|db t Hw Hn|db token slot Hf Hw Hin Hadm
                   |db token Hf Hc Hd|db token Hf Ha|db token Hf Ha
                   |db doctorId parsedDate].
  - apply tableLater_refl.
  - exists (tokens db), [t]. split; [reflexivity|apply Forall2_rowLater_refl].
  - eapply updateToken_tableLater; [exact Hf|reflexivity|]. now rewrite Hw.
  - eapply updateToken_tableLater; [exact Hf|reflexivity|].
    destruct (Token.status token); try reflexivity; congruence.
  - eapply updateToken_tableLater; [exact Hf|reflexivity|]. now rewrite Ha.
  - eapply updateToken_tableLater; [exact Hf|reflexivity|]. now rewrite Ha.
  - exists (map (fun t => if expires doctorId parsedDate t
                          then applyData expireData t else t) (tokens db)), [].
    split; [cbn; now rewrite app_nil_r|].
    induction (tokens db) as [|t l IH]; cbn [map]; constructor; [|exact IH].
    destruct (expires doctorId parsedDate t) eqn:E; [|apply rowLater_refl].
    apply expires_iff in E. destruct E as [E _].
    split; [reflexivity|]. cbn. now rewrite E.
Qed.

Lemma Effects_tableLater (now : Z) (db db' : Db) :
  Effects now db db' -> tableLater (tokens db) (tokens db').
Proof.
  induction 1 as [|a b c Hab Hbc IH]; [apply tableLater_refl|].
  eapply tableLater_trans; [eapply Effect_tableLater; eauto|exact IH].
Qed.

(** X3. Over any sequence of operations every token row stays where it is
    with the id it has, and its status only moves forward: a WAITING row
    may end in any status, an ALLOCATED row stays ALLOCATED or becomes
    COMPLETED, NO_SHOW or CANCELLED, a NO_SHOW or EXPIRED row stays as it
    is or becomes CANCELLED, and a COMPLETED or CANCELLED row never changes
    status again.  No row is ever put back to WAITING. *)
Theorem statuses_only_move_forward (fuel : nat) (ops : list (Z * Operation))
    (db : Db) :
  (exists kept added,
      tokens (runAll fuel ops db) = (kept ++ added)%list
      /\ Forall2 (fun t t' =>
                    Token.id t' = Token.id t
                    /\ statusAfter (Token.status t) (Token.status t') = true)
                 (tokens db) kept)
  /\ (forall s, statusAfter s TokenStatus.WAITING = true -> s = TokenStatus.WAITING)
  /\ (forall s, statusAfter TokenStatus.COMPLETED s = true ->
                s = TokenStatus.COMPLETED)
  /\ (forall s, statusAfter TokenStatus.CANCELLED s = true ->
                s = TokenStatus.CANCELLED).
Proof.
  split.
  - revert db. induction ops as [|[now op] rest IH]; intro db; cbn [runAll].
    + apply tableLater_refl.
    + eapply tableLater_trans; [|apply IH].
      destruct (run fuel now op db) as [db'| |] eqn:R; cbn [committed];
        try apply tableLater_refl.
      eapply Effects_tableLater. eapply run_effects; eauto.
  - repeat split; intro s; destruct s; simpl; congruence.
Qed.

(** ** Which calls commit and which throw *)

Lemma find_unique_id (l : list Token.t) (w : Token.t) :
  NoDup (map Token.id l) -> In w l ->
  find (fun t => String.eqb (Token.id t) (Token.id w)) l = Some w.
Proof.
  induction l as [|x l IH]; simpl; [tauto|].
  intros Hnd Hin. inversion Hnd as [|? ? Hx Hl]; subst.
  destruct Hin as [->|Hin]; [now rewrite String.eqb_refl|].
  destruct (String.eqb_spec (Token.id x) (Token.id w)) as [E|E]; [|auto].
  exfalso. apply Hx. rewrite E. now apply in_map.
Qed.

(** A [where] keeps the ids of the rows it selects distinct. *)
Lemma filter_ids_distinct (where_ : Token.t -> bool) (rows : list Token.t) :
  NoDup (map Token.id rows) -> NoDup (map Token.id (filter where_ rows)).
Proof.
  induction rows as [|row rows IH]; cbn [filter map]; [trivial|].
  intro H. apply NoDup_cons_iff in H. destruct H as [Hrow Hrows].
  destruct (where_ row); [|now apply IH].
  cbn [map]. apply NoDup_cons; [|now apply IH].
  contradict Hrow. apply in_map_iff in Hrow.
  destruct Hrow as (other & E & Hin). rewrite <- E.
  apply in_map. now apply filter_In in Hin.
Qed.

Lemma findWaiting_ids (walkInOnly : bool) (doctorId : string) (date : Z) (db : Db) :
  idsUnique db ->
  NoDup (map Token.id (findWaiting walkInOnly doctorId date db)).
Proof.
  intro H. unfold findWaiting.
  eapply Permutation_NoDup.
  - apply Permutation_map. apply sortBy_perm.
  - now apply filter_ids_distinct.
Qed.

Lemma selectWaitingTokens_cases (now : Z) (token : Token.t) (slot : Slot.t)
    (db : Db) :
  exists walkInOnly,
    selectWaitingTokens now token slot db
    = findWaiting walkInOnly (Token.doctorId token) (Token.date token) db.
Proof.
  unfold selectWaitingTokens.
  destruct (_ && _); eauto.
Qed.

Lemma updateToken_idsUnique (tokenId : string) (d : TokenData) (db : Db) :
  idsUnique db -> idsUnique (updateToken tokenId d db).
Proof.
  unfold idsUnique. cbn [tokens updateToken withTokens].
  rewrite updateFirst_map; [auto|]. intros ? ?; reflexivity.
Qed.

(** The reallocation loop cannot throw: each waiting token is still
    WAITING when its turn comes. *)
Lemma reallocateLoop_commits (fuel : nat) (now : Z) (waiting : list Token.t) :
  forall (db : Db) (moved : list (option Token.t)),
    NoDup (map Token.id waiting) ->
    (forall w, In w waiting ->
               exists t, findToken (Token.id w) db = Some t
                         /\ Token.status t = TokenStatus.WAITING) ->
    exists db' moved',
      reallocateLoop (S fuel) now waiting db moved = Ok (db', moved')
      /\ forall other, ~ In other (map Token.id waiting) ->
                       findToken other db' = findToken other db.
Proof.
  induction waiting as [|w rest IH]; intros db moved Hnd Hw.
  - do 2 eexists. split; [reflexivity|auto].
  - cbn [reallocateLoop].
    destruct (Hw w (or_introl eq_refl)) as (t & Ht & Hs).
    inversion Hnd as [|? ? Hx Hl]; subst.
    destruct (allocateToken (S fuel) now (Token.id w) db) as [[db1 r]| |] eqn:A.
    + cbn [bind].
      assert (Hkeep : forall other, other <> Token.id w ->
                                    findToken other db1 = findToken other db).
      { intros other N. apply allocateToken_displaces_nobody in A.
        destruct A as [_ [->|[slot ->]]]; [reflexivity|].
        now apply findToken_updateToken_other. }
      destruct (IH db1
                  (if AllocationResult.success r
                   then (moved ++ [AllocationResult.token r])%list else moved)
                  Hl) as (db' & moved' & H1 & H2).
      { intros w' Hin. destruct (Hw w' (or_intror Hin)) as (t' & Ht' & Hs').
        exists t'. split; [|exact Hs'].
        rewrite Hkeep; [exact Ht'|].
        intro E. apply Hx. rewrite <- E. now apply in_map. }
      exists db', moved'. split; [exact H1|].
      intros other N. cbn [map In] in N.
      rewrite H2 by tauto. apply Hkeep. intro E. apply N. now left.
    + exfalso. rewrite allocateToken_eq, Ht, Hs in A. cbn in A.
      destruct (find _ _) as [[? ?]|]; discriminate.
    + exfalso. now apply allocateToken_total in A.
Qed.

Lemma backfill_commits (fuel : nat) (now : Z) (token : Token.t) (slot : Slot.t)
    (db : Db) (tokenId : string) (t0 : Token.t) :
  idsUnique db ->
  findToken tokenId db = Some t0 ->
  Token.status t0 <> TokenStatus.WAITING ->
  exists db' moved',
    reallocateLoop (S fuel) now (selectWaitingTokens now token slot db) db []
    = Ok (db', moved')
    /\ findToken tokenId db' = Some t0.
Proof.
  intros Hu Hf Hs.
  destruct (selectWaitingTokens_cases now token slot db) as [b ->].
  destruct (reallocateLoop_commits fuel now
              (findWaiting b (Token.doctorId token) (Token.date token) db)
              db [] (findWaiting_ids b _ _ Hu)) as (db' & moved' & H1 & H2).
  - intros w Hin. apply findWaiting_In in Hin. destruct Hin as (Hin & Hw & _).
    exists w. split; [|exact Hw]. now apply find_unique_id.
  - exists db', moved'. split; [exact H1|].
    rewrite H2; [exact Hf|].
    intro K. apply in_map_iff in K. destruct K as (w & E & Hin).
    apply findWaiting_In in Hin. destruct Hin as (Hin & Hw & _).
    pose proof (find_unique_id (tokens db) w Hu Hin) as Hfw.
    unfold findToken in Hf. rewrite E, Hf in Hfw. congruence.
Qed.

Lemma findToken_createAudit (tokenId : string) (a : AuditLog.t) (db : Db) :
  findToken tokenId (createAudit a db) = findToken tokenId db.
Proof. reflexivity. Qed.

(** X4. cancelToken, on a store whose token ids are unique: it throws
    TOKEN_NOT_FOUND for an unknown id, ALREADY_CANCELLED for a CANCELLED
    token and CANNOT_CANCEL_COMPLETED for a COMPLETED one; in every other
    status it commits, whatever the waiting list holds, and leaves the
    token CANCELLED with no slotId and cancelledAt set to now. *)
Theorem cancelToken_outcome (fuel : nat) (now : Z) (tokenId : string) (db : Db) :
  idsUnique db ->
  match findToken tokenId db with
  | None => cancelToken (S fuel) now tokenId db = Throw TOKEN_NOT_FOUND
  | Some token =>
      (Token.status token = TokenStatus.CANCELLED ->
       cancelToken (S fuel) now tokenId db = Throw ALREADY_CANCELLED)
      /\ (Token.status token = TokenStatus.COMPLETED ->
          cancelToken (S fuel) now tokenId db = Throw CANNOT_CANCEL_COMPLETED)
      /\ (Token.status token <> TokenStatus.CANCELLED ->
          Token.status token <> TokenStatus.COMPLETED ->
          exists db' r token',
            cancelToken (S fuel) now tokenId db = Ok (db', r)
            /\ ReallocationResult.success r = true
            /\ findToken tokenId db' = Some token'
            /\ identityOf token' = identityOf token
            /\ Token.status token' = TokenStatus.CANCELLED
            /\ Token.slotId token' = None
            /\ Token.cancelledAt token' = Some now)
  end.
Proof.
  intro Hu. unfold cancelToken.
  destruct (findToken tokenId db) as [token|] eqn:F; [|reflexivity].
  split; [intro E; now rewrite E|].
  split; [intro E; now rewrite E|].
  intros Hc Hd.
  destruct (TokenStatus_eqb_spec (Token.status token) TokenStatus.CANCELLED);
    [contradiction|].
  destruct (TokenStatus_eqb_spec (Token.status token) TokenStatus.COMPLETED);
    [contradiction|].
  pose proof (findToken_updateToken tokenId (cancelData now) db F) as F1.
  assert (Fin : forall a x,
             exists db' r token',
               Ok (createAudit a (updateToken tokenId (cancelData now) db),
                   ReallocationResult.Build true x (tokenSlot token db)
                     ("Token cancelled. " ++ showNat (List.length x)
                      ++ " waiting tokens were reallocated."))
               = Ok (db', r)
               /\ ReallocationResult.success r = true
               /\ findToken tokenId db' = Some token'
               /\ identityOf token' = identityOf token
               /\ Token.status token' = TokenStatus.CANCELLED
               /\ Token.slotId token' = None
               /\ Token.cancelledAt token' = Some now).
  { intros a x. do 3 eexists. split; [reflexivity|]. split; [reflexivity|].
    split; [exact F1|]. repeat split. }
  destruct (tokenSlot token db) as [theSlot|]; [|apply Fin].
  destruct (truthy (Token.slotId token)); [|apply Fin].
  destruct (hasSlotEnded now _ _).
  { do 3 eexists. split; [reflexivity|]. split; [reflexivity|].
    split; [exact F1|]. repeat split. }
  destruct (backfill_commits fuel now token theSlot tokenId
              (updateToken_idsUnique tokenId (cancelData now) Hu) F1)
    as (db2 & moved & R & F2); [discriminate|].
  rewrite R. cbn [bind fst snd].
  do 3 eexists. split; [reflexivity|]. split; [reflexivity|].
  split; [exact F2|]. repeat split.
Qed.

Lemma cancelToken_outcome_witness :
  idsUnique scenarioS3
  /\ exists db' r token',
       cancelToken 1 halfPastNine "paid1" scenarioS3 = Ok (db', r)
       /\ ReallocationResult.success r = true
       /\ findToken "paid1" db' = Some token'
       /\ Token.status token' = TokenStatus.CANCELLED
       /\ Token.slotId token' = None.
Proof.
  assert (Hu : idsUnique scenarioS3).
  { unfold idsUnique. cbn. repeat constructor; cbn; intuition discriminate. }
  split; [exact Hu|].
  pose proof (cancelToken_outcome 0 halfPastNine "paid1" Hu) as H.
  cbn in H. destruct H as (_ & _ & H).
  destruct H as (db' & r & t' & H1 & H2 & H3 & _ & H4 & H5 & _);
    [discriminate|discriminate|].
  exists db', r, t'. repeat split; assumption.
Defined.

(** X5. markNoShow, on a store whose token ids are unique: it throws
    TOKEN_NOT_FOUND for an unknown id and INVALID_STATUS for a token that
    is not ALLOCATED; on an ALLOCATED token it commits, whatever the
    waiting list holds, and leaves the token NO_SHOW with no slotId. *)
Theorem markNoShow_outcome (fuel : nat) (now : Z) (tokenId : string) (db : Db) :
  idsUnique db ->
  match findToken tokenId db with
  | None => markNoShow (S fuel) now tokenId db = Throw TOKEN_NOT_FOUND
  | Some token =>
      (Token.status token <> TokenStatus.ALLOCATED ->
       markNoShow (S fuel) now tokenId db = Throw INVALID_STATUS)
      /\ (Token.status token = TokenStatus.ALLOCATED ->
          exists db' r token',
            markNoShow (S fuel) now tokenId db = Ok (db', r)
            /\ ReallocationResult.success r = true
            /\ findToken tokenId db' = Some token'
            /\ identityOf token' = identityOf token
            /\ Token.status token' = TokenStatus.NO_SHOW
            /\ Token.slotId token' = None)
  end.
Proof.
  intro Hu.
  destruct (findToken tokenId db) as [token|] eqn:F;
    [|unfold markNoShow; now rewrite F].
  split; [intro N; eapply markNoShow_needs_allocated; eauto|].
  intro Ha. unfold markNoShow. rewrite F, Ha. cbn [TokenStatus.eqb negb].
  pose proof (findToken_updateToken tokenId noShowData db F) as F1.
  destruct (tokenSlot token db) as [theSlot|].
  2:{ do 3 eexists. split; [reflexivity|]. split; [reflexivity|].
      split; [exact F1|]. repeat split. }
  destruct (hasSlotEnded now _ _).
  { do 3 eexists. split; [reflexivity|]. split; [reflexivity|].
    split; [exact F1|]. repeat split. }
  destruct (backfill_commits fuel now token theSlot tokenId
              (updateToken_idsUnique tokenId noShowData Hu) F1)
    as (db2 & moved & R & F2); [discriminate|].
  rewrite R. cbn [bind fst snd].
  do 3 eexists. split; [reflexivity|]. split; [reflexivity|].
  split; [exact F2|]. repeat split.
Qed.

Lemma markNoShow_outcome_witness :
  idsUnique scenarioS3
  /\ exists db' r token',
       markNoShow 1 halfPastNine "online1" scenarioS3 = Ok (db', r)
       /\ findToken "online1" db' = Some token'
       /\ Token.status token' = TokenStatus.NO_SHOW
       /\ Token.slotId token' = None.
Proof.
  assert (Hu : idsUnique scenarioS3).
  { unfold idsUnique. cbn. repeat constructor; cbn; intuition discriminate. }
  split; [exact Hu|].
  pose proof (markNoShow_outcome 0 halfPastNine "online1" Hu) as H.
  cbn in H. destruct H as (_ & H).
  destruct H as (db' & r & t' & H1 & _ & H3 & _ & H4 & H5); [reflexivity|].
  exists db', r, t'. repeat split; assumption.
Defined.

Lemma findToken_inserted (db : Db) (t : Token.t) :
  findToken (Token.id t) db = None ->
  findToken (Token.id t) (withTokens db (tokens db ++ [t])) = Some t.
Proof.
  unfold findToken. cbn [tokens withTokens].
  induction (tokens db) as [|x l IH]; cbn.
  - now rewrite String.eqb_refl.
  - destruct (String.eqb (Token.id x) (Token.id t)); [discriminate|exact IH].
Qed.

(** X6. createToken with an idempotencyKey the store does not hold: it
    throws DOCTOR_NOT_FOUND when the doctor is missing or inactive; with an
    active doctor and a fresh row id it commits, whatever the slots are.
    The new row has the input's data; it is either ALLOCATED to the slot
    the result names, a slot of the store that has not ended, or WAITING
    with the result naming no slot. *)
Theorem createToken_outcome (fuel : nat) (now : Z) (input : CreateTokenInput.t)
    (db : Db) :
  findTokenByKey (CreateTokenInput.idempotencyKey input) db = None ->
  match findActiveDoctor (CreateTokenInput.doctorId input) db with
  | None => createToken (S fuel) now input db = Throw DOCTOR_NOT_FOUND
  | Some _ =>
      findToken (CreateTokenInput.newId input) db = None ->
      exists db' r t,
        createToken (S fuel) now input db = Ok (db', r)
        /\ findToken (CreateTokenInput.newId input) db' = Some t
        /\ AllocationResult.token r = Some t
        /\ identityOf t = identityOf (newToken input now)
        /\ ((AllocationResult.success r = true
             /\ Token.status t = TokenStatus.ALLOCATED
             /\ exists slot,
                  AllocationResult.slot r = Some slot
                  /\ Token.slotId t = Some (Slot.id slot)
                  /\ In slot (slots db)
                  /\ hasSlotEnded now (Slot.endTime slot) (Slot.date slot) = false)
            \/ (AllocationResult.success r = false
                /\ AllocationResult.slot r = None
                /\ t = newToken input now))
  end.
Proof.
  intro K. unfold createToken. rewrite K.
  destruct (findActiveDoctor _ db) as [doctor|]; [|reflexivity].
  intro Fresh.
  set (token := newToken input now).
  set (db1 := withTokens db (tokens db ++ [token])).
  assert (F1 : findToken (Token.id token) db1 = Some token)
    by (apply findToken_inserted; exact Fresh).
  rewrite allocateToken_eq, F1. cbn [Token.status token newToken TokenStatus.eqb negb].
  rewrite find_admissible.
  destruct (find (admissible token db1) (candidateSlots now token db1))
    as [slot|] eqn:A; cbn [option_map bind].
  - pose proof (findToken_updateToken (Token.id token)
                  (allocateData (Slot.id slot) now) db1 F1) as F2.
    apply find_some in A. destruct A as [Hin _].
    apply candidateSlots_In in Hin. destruct Hin as (Hin & _ & _ & _ & Hend).
    do 3 eexists. split; [reflexivity|].
    split; [exact F2|]. split; [exact F2|]. split; [reflexivity|].
    left. split; [reflexivity|]. split; [reflexivity|].
    exists slot. split; [reflexivity|]. split; [reflexivity|].
    split; [exact Hin|].
    unfold hasSlotEnded. rewrite Z.geb_leb. apply Z.leb_gt. exact Hend.
  - do 3 eexists. split; [reflexivity|].
    split; [exact F1|].
    split; [destruct (availableSlotsFor now token db1); reflexivity|].
    split; [reflexivity|].
    right. split; [destruct (availableSlotsFor now token db1); reflexivity|].
    split; [destruct (availableSlotsFor now token db1); reflexivity|reflexivity].
Qed.

Lemma createToken_outcome_witness :
  findTokenByKey "key-t3" scenarioS1 = None
  /\ findToken "t3" scenarioS1 = None
  /\ exists db' r,
       createToken 1 (8 * hour) inputS1 scenarioS1 = Ok (db', r)
       /\ findToken "t3" db' = Some (newToken inputS1 (8 * hour))
       /\ AllocationResult.success r = false.
Proof.
  split; [reflexivity|]. split; [reflexivity|].
  pose proof (createToken_outcome 0 (8 * hour) inputS1 scenarioS1 eq_refl) as H.
  cbn [findActiveDoctor scenarioS1 doctors find inputS1
       CreateTokenInput.doctorId Doctor.id Doctor.isActive] in H.
  change (String.eqb "d1" "d1" && true) with true in H. cbv iota in H.
  destruct (H eq_refl) as (db' & r & t & H1 & H2 & _ & _ & [(E & _)|(E & _ & ->)]).
  - exfalso. vm_compute in H1. injection H1 as _ <-. discriminate.
  - exists db', r. repeat split; assumption.
Defined.

Lemma createToken_replay_witness :
  exists r' t,
    createToken 1 (9 * hour)
      (CreateTokenInput.Build "someone else" None None "d9" 0 Source.ONLINE
         Priority.PAID "key-t3" None "t9" "T-t9")
      (committed scenarioS1 (run 1 (8 * hour) (CreateToken inputS1) scenarioS1))
    = Ok (committed scenarioS1 (run 1 (8 * hour) (CreateToken inputS1) scenarioS1),
          r')
    /\ AllocationResult.token r' = Some t
    /\ Token.id t = "t3".
Proof.
  eapply (@createToken_replay 1 1 (8 * hour) (9 * hour) inputS1 _ scenarioS1);
    reflexivity.
Defined.

(** ** Uniqueness of keys and ids *)

Lemma run_keysUnique (fuel : nat) (now : Z) (op : Operation) (db : Db) :
  keysUnique db -> keysUnique (committed db (run fuel now op db)).
Proof.
  intro H. destruct (run fuel now op db) as [db'| |] eqn:R; cbn [committed]; auto.
  apply run_written in R. destruct R as (_ & _ & R & _).
  unfold keysUnique. rewrite (R _ Token.idempotencyKey) by (intros ? ?; reflexivity).
  destruct op as [input| | | |]; cbn [insertedBy map];
    try (now rewrite app_nil_r).
  destruct (findTokenByKey _ db) eqn:K; cbn [map]; [now rewrite app_nil_r|].
  apply NoDup_app; [exact H|repeat constructor; cbn; tauto|].
  intros a Ha [<-|[]]. apply in_map_iff in Ha. destruct Ha as (x & E & Hx).
  pose proof (find_none _ _ K x Hx) as N. cbn in N, E.
  rewrite E, String.eqb_refl in N. discriminate.
Qed.

(** X8. The idempotencyKey column stays free of duplicates over any
    sequence of operations: createToken inserts a row only when no row has
    its key, and no operation edits a key. *)
Theorem idempotency_keys_stay_unique (fuel : nat) (ops : list (Z * Operation)) :
  forall db, keysUnique db -> keysUnique (runAll fuel ops db).
Proof.
  induction ops as [|[now op] rest IH]; intros db H; cbn [runAll]; auto.
  apply IH. now apply run_keysUnique.
Qed.

Lemma idempotency_keys_stay_unique_witness :
  keysUnique scenarioS1
  /\ keysUnique
       (runAll 1 [(8 * hour, CreateToken inputS1); (9 * hour, CreateToken inputS1)]
          scenarioS1).
Proof.
  assert (H : keysUnique scenarioS1).
  { unfold keysUnique. cbn. repeat constructor; cbn; intuition discriminate. }
  split; [exact H|].
  exact (idempotency_keys_stay_unique 1
           [(8 * hour, CreateToken inputS1); (9 * hour, CreateToken inputS1)] H).
Defined.

(** X9. Token ids stay unique through every operation, provided the id
    the store gives a row inserted by createToken is not in use. *)
Theorem token_ids_stay_unique (fuel : nat) (now : Z) (op : Operation) (db : Db) :
  idsUnique db ->
  (forall input, op = CreateToken input ->
                 findToken (CreateTokenInput.newId input) db = None) ->
  idsUnique (committed db (run fuel now op db)).
Proof.
  intros H Fresh.
  destruct (run fuel now op db) as [db'| |] eqn:R; cbn [committed]; auto.
  apply run_written in R. destruct R as (_ & _ & R & _).
  unfold idsUnique. rewrite (R _ Token.id) by (intros ? ?; reflexivity).
  destruct op as [input| | | |]; cbn [insertedBy map];
    try (now rewrite app_nil_r).
  destruct (findTokenByKey _ db) eqn:K; cbn [map]; [now rewrite app_nil_r|].
  apply NoDup_app; [exact H|repeat constructor; cbn; tauto|].
  intros a Ha [<-|[]]. apply in_map_iff in Ha. destruct Ha as (x & E & Hx).
  pose proof (find_none _ _ (Fresh input eq_refl) x Hx) as N. cbn in N, E.
  rewrite E, String.eqb_refl in N. discriminate.
Qed.

Lemma token_ids_stay_unique_witness :
  idsUnique scenarioS1
  /\ findToken "t3" scenarioS1 = None
  /\ idsUnique (committed scenarioS1
                  (run 1 (8 * hour) (CreateToken inputS1) scenarioS1)).
Proof.
  assert (H : idsUnique scenarioS1).
  { unfold idsUnique. cbn. repeat constructor; cbn; intuition discriminate. }
  split; [exact H|]. split; [reflexivity|].
  apply (token_ids_stay_unique 1 (8 * hour) (op := CreateToken inputS1) H).
  intros input E. injection E as <-. reflexivity.
Defined.

(** ** Sub-caps *)

Lemma filter_filter_and (A : Type) (p q : A -> bool) (l : list A) :
  filter p (filter q l) = filter (fun x => q x && p x) l.
Proof.
  induction l as [|x l IH]; simpl; [reflexivity|].
  destruct (q x); simpl; [destruct (p x); now rewrite IH|exact IH].
Qed.

Lemma paidCountOf_countAs (slotId : string) (db : Db) :
  paidCountOf (allocatedTokensOf slotId db) = countAs Priority.PAID slotId db.
Proof.
  unfold paidCountOf, allocatedTokensOf, countAs. now rewrite filter_filter_and.
Qed.

Lemma followUpCountOf_countAs (slotId : string) (db : Db) :
  followUpCountOf (allocatedTokensOf slotId db)
  = countAs Priority.FOLLOWUP slotId db.
Proof.
  unfold followUpCountOf, allocatedTokensOf, countAs.
  now rewrite filter_filter_and.
Qed.

Lemma updateFirst_count_found (q : Token.t -> bool) (tokenId : string)
    (d : TokenData) (l : list Token.t) (t : Token.t) :
  find (fun t => String.eqb (Token.id t) tokenId) l = Some t ->
  len (filter q (updateFirst tokenId d l))
  <= len (filter q l) + (if q (applyData d t) then 1 else 0).
Proof.
  unfold len. induction l as [|x l IH]; simpl; [discriminate|].
  destruct (String.eqb (Token.id x) tokenId).
  - intro H. injection H as ->. simpl.
    destruct (q (applyData d t)), (q t); simpl; lia.
  - intro H. specialize (IH H). simpl.
    destruct (q (applyData d t)), (q x); simpl in *; lia.
Qed.

Lemma allocatedAs_status (p : Priority.t) (slotId : string) (t : Token.t) :
  Token.status t <> TokenStatus.ALLOCATED -> allocatedAs p slotId t = false.
Proof.
  intro H. unfold allocatedAs. now rewrite allocatedIn_status.
Qed.

Lemma countAs_released (p : Priority.t) (slotId tokenId : string)
    (d : TokenData) (db : Db) (st : TokenStatus.t) :
  setStatus d = Some st -> st <> TokenStatus.ALLOCATED ->
  countAs p slotId (updateToken tokenId d db) <= countAs p slotId db.
Proof.
  intros H1 H2. apply updateFirst_count_rejected. intro t.
  apply allocatedAs_status. unfold applyData; cbn. now rewrite H1.
Qed.

Lemma admissible_subcap (token : Token.t) (db : Db) (slot : Slot.t) (c : Z) :
  admissible token db slot = true ->
  capOf (Token.priority token) slot = Some c ->
  countAs (Token.priority token) (Slot.id slot) db < c.
Proof.
  unfold admissible, canAllocate, canAllocateToSlot.
  rewrite paidCountOf_countAs, followUpCountOf_countAs.
  intros H E.
  destruct (_ >=? Slot.capacity slot); [discriminate|].
  destruct (Token.priority token); cbn in E; try discriminate;
    rewrite E in H; cbn in H; rewrite Z.geb_leb in H;
    match type of H with
    | (if ?a <=? ?b then _ else _) = _ =>
        destruct (Z.leb_spec a b) as [L|L]; [discriminate|exact L]
    end.
Qed.

Lemma Effect_caps (now : Z) (db db' : Db) :
  NoDup (map Slot.id (slots db)) ->
  (forall p s c, In s (slots db) -> capOf p s = Some c ->
                 countAs p (Slot.id s) db <= c) ->
  Effect now db db' ->
  forall p s c, In s (slots db') -> capOf p s = Some c ->
                countAs p (Slot.id s) db' <= c.
Proof.
  intros Hnd Hinv Heff p s c Hs Hc.
  assert (Hs' : In s (slots db)) by (now rewrite <- (Effect_slots Heff)).
  specialize (Hinv p s c Hs' Hc).
  destruct Heff as [db a|db t Hw Hn|db token slot Hf Hw Hin Hadm
                   |db token Hf Hx Hd|db token Hf Ha|db token Hf Ha
                   |db doctorId parsedDate].
  - exact Hinv.
  - unfold countAs in *. cbn [tokens withTokens].
    rewrite filter_app. cbn [filter].
    rewrite allocatedAs_status by (rewrite Hw; discriminate).
    now rewrite app_nil_r.
  - pose proof (updateFirst_count_found (allocatedAs p (Slot.id s))
                  (Token.id token) (allocateData (Slot.id slot) now)
                  (tokens db) Hf) as Hcount.
    fold (countAs p (Slot.id s) db) in Hcount.
    change (len (filter (allocatedAs p (Slot.id s))
                   (updateFirst (Token.id token)
                      (allocateData (Slot.id slot) now) (tokens db))))
      with (countAs p (Slot.id s)
              (updateToken (Token.id token) (allocateData (Slot.id slot) now) db))
      in Hcount.
    destruct (allocatedAs p (Slot.id s)
                (applyData (allocateData (Slot.id slot) now) token)) eqn:Q;
      [|lia].
    unfold allocatedAs, allocatedIn in Q. cbn in Q.
    rewrite !andb_true_iff in Q. destruct Q as [[Q1 _] Q2].
    apply String.eqb_eq in Q1.
    destruct (Priority_eqb_spec (Token.priority token) p) as [<-|]; [|discriminate].
    apply candidateSlots_In in Hin. destruct Hin as [Hin _].
    assert (slot = s) by (eapply NoDup_slot_ids; eauto). subst slot.
    pose proof (admissible_subcap token db s Hadm Hc). lia.
  - eapply Z.le_trans; [|exact Hinv].
    eapply countAs_released; [reflexivity|discriminate].
  - eapply Z.le_trans; [|exact Hinv].
    eapply countAs_released; [reflexivity|discriminate].
  - eapply Z.le_trans; [|exact Hinv].
    eapply countAs_released; [reflexivity|discriminate].
  - unfold countAs in *. cbn [tokens withTokens].
    rewrite filter_map_same; [exact Hinv|].
    intro t. destruct (expires doctorId parsedDate t) eqn:E; [|reflexivity].
    apply expires_iff in E. destruct E as [E _].
    rewrite !allocatedAs_status; [reflexivity| |]; cbn; try rewrite E; discriminate.
Qed.

Lemma subCapsRespected_caps (db : Db) :
  subCapsRespected db <->
  (forall p s c, In s (slots db) -> capOf p s = Some c ->
                 countAs p (Slot.id s) db <= c).
Proof.
  unfold subCapsRespected. split.
  - intros H p s c Hs Hc. destruct (H s Hs) as [H1 H2].
    destruct p; cbn in Hc; try discriminate.
    + rewrite <- paidCountOf_countAs. now apply H1.
    + rewrite <- followUpCountOf_countAs. now apply H2.
  - intros H s Hs. split; intros c Hc.
    + rewrite paidCountOf_countAs. now apply (H Priority.PAID).
    + rewrite followUpCountOf_countAs. now apply (H Priority.FOLLOWUP).
Qed.

Lemma Effects_subCaps (now : Z) (db db' : Db) :
  NoDup (map Slot.id (slots db)) ->
  subCapsRespected db -> Effects now db db' -> subCapsRespected db'.
Proof.
  intros Hnd Hinv H. induction H as [|a b c Hab Hbc IH]; [exact Hinv|].
  apply IH.
  - now rewrite (Effect_slots Hab).
  - apply subCapsRespected_caps. eapply Effect_caps; eauto.
    now apply subCapsRespected_caps.
Qed.

(** X10. The sub-caps hold all day: if in every slot the allocated PAID
    tokens are within paidCap and the allocated FOLLOWUP tokens within
    followUpCap (where the slot has the cap), they still are after any
    sequence of operations.  Slot ids are the primary key of the slot
    table. *)
Theorem sub_caps_never_exceeded (fuel : nat) (ops : list (Z * Operation)) :
  forall db,
    NoDup (map Slot.id (slots db)) ->
    subCapsRespected db ->
    subCapsRespected (runAll fuel ops db).
Proof.
  induction ops as [|[now op] rest IH]; intros db Hnd Hinv; cbn [runAll]; auto.
  apply IH.
  - now rewrite committed_slots.
  - destruct (run fuel now op db) as [db'| |] eqn:R; cbn [committed]; auto.
    eapply Effects_subCaps; eauto. eapply run_effects; eauto.
Qed.

Lemma sub_caps_never_exceeded_witness :
  NoDup (map Slot.id (slots scenarioS5))
  /\ subCapsRespected scenarioS5
  /\ subCapsRespected
       (runAll 1 [(8 * hour, CancelToken "p1"); (8 * hour, MarkNoShow "p2")]
          scenarioS5).
Proof.
  assert (Hnd : NoDup (map Slot.id (slots scenarioS5))).
  { simpl. constructor; [simpl; tauto|constructor]. }
  assert (Hinv : subCapsRespected scenarioS5).
  { intros s [<-|[]]. split; intros c E; cbn in E; [|discriminate].
    injection E as <-. vm_compute. discriminate. }
  split; [exact Hnd|]. split; [exact Hinv|].
  exact (sub_caps_never_exceeded 1
           [(8 * hour, CancelToken "p1"); (8 * hour, MarkNoShow "p2")] Hnd Hinv).
Defined.

(** Scenario S5: with three PAID tokens in a slot of capacity 6 and
    paidCap 3, the waiting fourth PAID token stays WAITING; once a PAID
    seat is freed it is the one promoted. *)
Example scenarioS5_paid_cap :
  (exists r, allocateToken 1 (8 * hour) "p4" scenarioS5 = Ok (scenarioS5, r)
             /\ AllocationResult.success r = false)
  /\ exists db' r,
       cancelToken 1 (8 * hour) "p1" scenarioS5 = Ok (db', r)
       /\ option_map Token.status (findToken "p4" db') = Some TokenStatus.ALLOCATED.
Proof.
  split.
  - eexists. split; reflexivity.
  - do 2 eexists. split; reflexivity.
Qed.

(** ** The capacity predicate in full *)

(** canAllocateToSlot holds exactly when a seat is free and the
    sub-cap of the incoming priority, if the slot has one, is not reached:
    paidCap binds PAID only, followUpCap binds FOLLOWUP only, and a full
    slot refuses every priority, EMERGENCY included. *)
Theorem canAllocateToSlot_iff (p : Priority.t) (pc fc total cap : Z)
    (paidCap followUpCap : option Z) :
  canAllocateToSlot p pc fc total cap paidCap followUpCap = true <->
  total < cap
  /\ (p = Priority.PAID -> forall c, paidCap = Some c -> pc < c)
  /\ (p = Priority.FOLLOWUP -> forall c, followUpCap = Some c -> fc < c).
Proof.
  unfold canAllocateToSlot, capReached. rewrite Z.geb_leb.
  destruct (Z.leb_spec cap total) as [L|L].
  - split; [discriminate|lia].
  - destruct p; cbn.
    + split; [intros _|reflexivity]. repeat split; auto; discriminate.
    + destruct paidCap as [c|].
      * rewrite Z.geb_leb. destruct (Z.leb_spec c pc) as [K|K].
        -- split; [discriminate|]. intros (_ & H & _).
           specialize (H eq_refl c eq_refl). lia.
        -- split; [intros _|reflexivity].
           split; [exact L|]. split; [|discriminate].
           intros _ c' E. injection E as <-. exact K.
      * split; [intros _|reflexivity]. repeat split; auto; discriminate.
    + destruct followUpCap as [c|].
      * rewrite Z.geb_leb. destruct (Z.leb_spec c fc) as [K|K].
        -- split; [discriminate|]. intros (_ & _ & H).
           specialize (H eq_refl c eq_refl). lia.
        -- split; [intros _|reflexivity].
           split; [exact L|]. split; [discriminate|].
           intros _ c' E. injection E as <-. exact K.
      * split; [intros _|reflexivity]. repeat split; auto; discriminate.
    + split; [intros _|reflexivity]. repeat split; auto; discriminate.
    + split; [intros _|reflexivity]. repeat split; auto; discriminate.
Qed.

(** ** [allocateToken] as a whole *)

(** X12. allocateToken throws TOKEN_NOT_FOUND for an unknown id and
    INVALID_STATUS for a token that is not WAITING, and commits otherwise.
    When it commits it has written nothing but the row of its token: every
    other token is as it was, as are slots, doctors and the audit log, and
    when it reports no success the store is the one it was given. *)
Theorem allocateToken_outcome (fuel : nat) (now : Z) (tokenId : string) (db : Db) :
  match findToken tokenId db with
  | None => allocateToken (S fuel) now tokenId db = Throw TOKEN_NOT_FOUND
  | Some token =>
      (Token.status token <> TokenStatus.WAITING ->
       allocateToken (S fuel) now tokenId db = Throw INVALID_STATUS)
      /\ (Token.status token = TokenStatus.WAITING ->
          exists db' r,
            allocateToken (S fuel) now tokenId db = Ok (db', r)
            /\ doctors db' = doctors db
            /\ slots db' = slots db
            /\ auditLogs db' = auditLogs db
            /\ (forall other, other <> tokenId ->
                              findToken other db' = findToken other db)
            /\ (AllocationResult.success r = false -> db' = db))
  end.
Proof.
  rewrite allocateToken_eq.
  destruct (findToken tokenId db) as [token|] eqn:F; [|reflexivity].
  split.
  - intro N.
    destruct (TokenStatus_eqb_spec (Token.status token) TokenStatus.WAITING);
      [contradiction|reflexivity].
  - intro W. rewrite W. cbn [TokenStatus.eqb negb].
    destruct (find _ _) as [[slot toks]|].
    + do 2 eexists. split; [reflexivity|]. repeat split.
      * intros other N. now apply findToken_updateToken_other.
      * discriminate.
    + do 2 eexists. split; [reflexivity|]. repeat split.
Qed.

(** ** Cancelling without a live slot *)

(** X13. When the token has no slot (as a WAITING token) or its slot has
    ended, cancelToken attempts no reallocation: it rewrites the row of the
    token, appends one CANCEL_TOKEN audit row and reports no moved token,
    so every other token is as it was.  markNoShow does the same for a
    token whose slot has ended. *)
Theorem no_backfill_without_live_slot (fuel : nat) (now : Z) (tokenId : string)
    (db : Db) (token : Token.t) :
  findToken tokenId db = Some token ->
  (tokenSlot token db = None
   \/ exists slot, tokenSlot token db = Some slot
                   /\ hasSlotEnded now (Slot.endTime slot) (Slot.date slot) = true) ->
  (Token.status token <> TokenStatus.CANCELLED ->
   Token.status token <> TokenStatus.COMPLETED ->
   exists a r,
     cancelToken fuel now tokenId db
     = Ok (createAudit a (updateToken tokenId (cancelData now) db), r)
     /\ AuditLog.operation a = "CANCEL_TOKEN"
     /\ ReallocationResult.movedTokens r = []
     /\ ReallocationResult.freedSlot r = tokenSlot token db)
  /\ (Token.status token = TokenStatus.ALLOCATED ->
      exists a r,
        markNoShow fuel now tokenId db
        = Ok (createAudit a (updateToken tokenId noShowData db), r)
        /\ AuditLog.operation a = "NO_SHOW"
        /\ ReallocationResult.movedTokens r = []
        /\ ReallocationResult.freedSlot r = tokenSlot token db).
Proof.
  intros F Hs. split.
  - intros Hc Hd. unfold cancelToken. rewrite F.
    destruct (TokenStatus_eqb_spec (Token.status token) TokenStatus.CANCELLED);
      [contradiction|].
    destruct (TokenStatus_eqb_spec (Token.status token) TokenStatus.COMPLETED);
      [contradiction|].
    destruct Hs as [->|(slot & -> & E)].
    + do 2 eexists. repeat split.
    + rewrite E. destruct (truthy (Token.slotId token));
        do 2 eexists; repeat split.
  - intro Ha. unfold markNoShow. rewrite F, Ha. cbn [TokenStatus.eqb negb].
    destruct Hs as [->|(slot & -> & E)].
    + do 2 eexists. repeat split.
    + rewrite E. do 2 eexists. repeat split.
Qed.

Lemma no_backfill_without_live_slot_witness :
  let token :=
    mkToken "online2" Source.ONLINE Priority.ONLINE TokenStatus.WAITING None 3 in
  findToken "online2" scenarioS3 = Some token
  /\ tokenSlot token scenarioS3 = None
  /\ exists a r,
       cancelToken 1 halfPastNine "online2" scenarioS3
       = Ok (createAudit a (updateToken "online2" (cancelData halfPastNine)
                              scenarioS3), r)
       /\ AuditLog.operation a = "CANCEL_TOKEN"
       /\ ReallocationResult.movedTokens r = []
       /\ ReallocationResult.freedSlot r = None.
Proof.
  intro token. split; [reflexivity|]. split; [reflexivity|].
  destruct (no_backfill_without_live_slot 1 halfPastNine "online2" scenarioS3
              (token := token) eq_refl (or_introl eq_refl)) as [H _].
  apply H; discriminate.
Defined.

(** Scenario S7: the slot ran 09-10 and it is 10:30; cancelling t1 leaves
    it CANCELLED, moves nobody and records the reason. *)
Example scenarioS7_cancel_after_end :
  exists db' r a,
    cancelToken 1 (10 * hour + hour / 2) "t1" scenarioS1 = Ok (db', r)
    /\ option_map Token.status (findToken "t1" db') = Some TokenStatus.CANCELLED
    /\ ReallocationResult.movedTokens r = []
    /\ auditLogs db' = [a]
    /\ In ("reason", JStr "Slot already ended") (AuditLog.details a).
Proof.
  do 3 eexists. split; [reflexivity|]. split; [reflexivity|].
  split; [reflexivity|]. split; [reflexivity|]. cbn. tauto.
Qed.

(** ** Slot timing *)

(** X14. Once a slot has ended it stays ended; walk-ins are never
    prioritised for a slot that has ended; a slot that has started and not
    ended is imminent; and once a slot is imminent it stays imminent until
    it ends. *)
Theorem slot_timing (now now' : Z) (slotStartTime slotEndTime : TimeOfDay)
    (slotDate : Z) :
  now <= now' ->
  (hasSlotEnded now slotEndTime slotDate = true ->
   hasSlotEnded now' slotEndTime slotDate = true)
  /\ (isSlotAvailable now slotEndTime slotDate = false ->
      shouldPrioritizeWalkIn now slotStartTime slotEndTime slotDate = false)
  /\ (atTime slotDate slotStartTime <= now ->
      isSlotAvailable now slotEndTime slotDate = true ->
      shouldPrioritizeWalkIn now slotStartTime slotEndTime slotDate = true)
  /\ (shouldPrioritizeWalkIn now slotStartTime slotEndTime slotDate = true ->
      isSlotAvailable now' slotEndTime slotDate = true ->
      shouldPrioritizeWalkIn now' slotStartTime slotEndTime slotDate = true).
Proof.
  intro Hle. unfold isSlotAvailable, shouldPrioritizeWalkIn, hasSlotEnded.
  rewrite !Z.geb_leb.
  destruct (Z.leb_spec (atTime slotDate slotEndTime) now),
           (Z.leb_spec (atTime slotDate slotEndTime) now'); cbn;
    repeat split; intros; try discriminate; try reflexivity; try lia;
    try (apply Z.leb_le; lia);
    match goal with
    | H : (_ <=? _) = true |- _ => apply Z.leb_le in H; apply Z.leb_le; lia
    end.
Qed.

Lemma slot_timing_witness :
  halfPastNine <= 10 * hour
  /\ shouldPrioritizeWalkIn halfPastNine (HHMM 10 0) (HHMM 11 0) 0 = true
  /\ shouldPrioritizeWalkIn (10 * hour) (HHMM 10 0) (HHMM 11 0) 0 = true.
Proof.
  assert (H : halfPastNine <= 10 * hour) by (vm_compute; discriminate).
  split; [exact H|]. split; [reflexivity|].
  destruct (slot_timing (HHMM 10 0) (HHMM 11 0) 0 H) as (_ & _ & _ & K).
  apply K; reflexivity.
Defined.

(** * Slot administration *)

Lemma len_nonneg (A : Type) (l : list A) : 0 <= len l.
Proof. unfold len. lia. Qed.

Lemma findSlot_In (slotId : string) (db : Db) (s : Slot.t) :
  findSlot slotId db = Some s -> In s (slots db) /\ Slot.id s = slotId.
Proof.
  intro H. apply find_some in H. destruct H as [Hin E].
  apply String.eqb_eq in E. now split.
Qed.

Lemma updateSlotFirst_ids (slotId : string) (f : Slot.t -> Slot.t)
    (l : list Slot.t) :
  (forall s, Slot.id (f s) = Slot.id s) ->
  map Slot.id (updateSlotFirst slotId f l) = map Slot.id l.
Proof.
  intro H. induction l as [|x l IH]; simpl; [reflexivity|].
  destruct (String.eqb (Slot.id x) slotId); simpl; [now rewrite H|now rewrite IH].
Qed.

Lemma updateSlotFirst_In (slotId : string) (f : Slot.t -> Slot.t)
    (l : list Slot.t) (s' : Slot.t) :
  In s' (updateSlotFirst slotId f l) ->
  In s' l
  \/ exists s, find (fun s => String.eqb (Slot.id s) slotId) l = Some s
               /\ s' = f s.
Proof.
  induction l as [|x l IH]; simpl; [tauto|].
  destruct (String.eqb (Slot.id x) slotId) eqn:E; simpl.
  - intros [<-|H]; [right; eauto|left; now right].
  - intros [<-|H]; [left; now left|].
    destruct (IH H) as [K|K]; [left; now right|right; exact K].
Qed.

Lemma getParam_value (param : Param) (name value : string) :
  getParam param name = inl value -> param = ParamString value /\ value <> "".
Proof.
  destruct param as [|[|c v]|l]; cbn; try discriminate.
  intro H. injection H as <-. split; [reflexivity|discriminate].
Qed.

(** X15. The availability view of a slot agrees with the allocation
    predicate: for every token, canAllocateToSlot on the slot's current
    counters holds exactly when the view reports canAcceptRegular, and
    also canAcceptPaid for a PAID token and canAcceptFollowUp for a
    FOLLOWUP token.  The counts of the view add up: allocatedCount plus
    availableCount is the capacity. *)
Theorem availability_agrees_with_allocation (now : Z) (param : Param) (db : Db)
    (view : SlotAvailability.t) (message : option string) :
  getSlotAvailability now param db = Success view message ->
  exists slot,
    param = ParamString (Slot.id slot)
    /\ In slot (slots db)
    /\ SlotAvailability.slotId view = Slot.id slot
    /\ SlotAvailability.allocatedCount view = allocatedCount (Slot.id slot) db
    /\ SlotAvailability.allocatedCount view + SlotAvailability.availableCount view
       = Slot.capacity slot
    /\ SlotAvailability.slotEnded view
       = hasSlotEnded now (Slot.endTime slot) (Slot.date slot)
    /\ forall token,
         admissible token db slot
         = SlotAvailability.canAcceptRegular view
           && match Token.priority token with
              | Priority.PAID => SlotAvailability.canAcceptPaid view
              | Priority.FOLLOWUP => SlotAvailability.canAcceptFollowUp view
              | _ => true
              end.
Proof.
  unfold getSlotAvailability.
  destruct (getParam param "slotId") as [slotId|] eqn:P; [|discriminate].
  destruct (findSlot slotId db) as [slot|] eqn:F; [|discriminate].
  intro H. injection H as <- _.
  apply getParam_value in P. destruct P as [-> _].
  apply findSlot_In in F. destruct F as [Hin <-].
  exists slot. split; [reflexivity|]. split; [exact Hin|].
  cbn. split; [reflexivity|]. split; [reflexivity|]. split; [lia|].
  split; [reflexivity|].
  intro token. unfold admissible, canAllocate, canAllocateToSlot, capReached, underCap.
  rewrite Z.geb_leb.
  set (n := len (allocatedTokensOf (Slot.id slot) db)).
  destruct (Z.leb_spec (Slot.capacity slot) n) as [L|L].
  { destruct (Z.ltb_spec 0 (Slot.capacity slot - n)) as [K|K];
      [lia|reflexivity]. }
  destruct (Z.ltb_spec 0 (Slot.capacity slot - n)) as [K|K]; [|lia].
  destruct (Token.priority token); cbn; try reflexivity.
  - destruct (Slot.paidCap slot) as [c|]; [|reflexivity].
    rewrite Z.geb_leb.
    destruct (Z.leb_spec c (paidCountOf (allocatedTokensOf (Slot.id slot) db)));
      destruct (Z.ltb_spec (paidCountOf (allocatedTokensOf (Slot.id slot) db)) c);
      try lia; reflexivity.
  - destruct (Slot.followUpCap slot) as [c|]; [|reflexivity].
    rewrite Z.geb_leb.
    destruct (Z.leb_spec c (followUpCountOf (allocatedTokensOf (Slot.id slot) db)));
      destruct (Z.ltb_spec (followUpCountOf (allocatedTokensOf (Slot.id slot) db)) c);
      try lia; reflexivity.
Qed.

Lemma availability_agrees_with_allocation_witness :
  exists view,
    getSlotAvailability (8 * hour) (ParamString "S") scenarioS5 = Success view None
    /\ SlotAvailability.availableCount view = 3
    /\ SlotAvailability.canAcceptRegular view = true
    /\ SlotAvailability.canAcceptPaid view = false
    /\ exists slot,
         In slot (slots scenarioS5)
         /\ forall token,
              admissible token scenarioS5 slot
              = SlotAvailability.canAcceptRegular view
                && match Token.priority token with
                   | Priority.PAID => SlotAvailability.canAcceptPaid view
                   | Priority.FOLLOWUP => SlotAvailability.canAcceptFollowUp view
                   | _ => true
                   end.
Proof.
  eexists. split; [reflexivity|]. split; [reflexivity|].
  split; [reflexivity|]. split; [reflexivity|].
  destruct (availability_agrees_with_allocation (8 * hour) (ParamString "S")
              scenarioS5 eq_refl) as (slot & _ & Hin & _ & _ & _ & _ & H).
  exists slot. split; [exact Hin|exact H].
Defined.

Lemma allocatedCount_nonneg (slotId : string) (db : Db) :
  0 <= allocatedCount slotId db.
Proof. apply len_nonneg. Qed.

Lemma Effect_inactive (now : Z) (db db' : Db) :
  NoDup (map Slot.id (slots db)) ->
  inactiveSlotsEmpty db -> Effect now db db' -> inactiveSlotsEmpty db'.
Proof.
  intros Hnd Hinv Heff s Hs Hoff.
  assert (Hs' : In s (slots db)) by (now rewrite <- (Effect_slots Heff)).
  specialize (Hinv s Hs' Hoff).
  pose proof (allocatedCount_nonneg (Slot.id s) db') as Hpos.
  enough (allocatedCount (Slot.id s) db' <= allocatedCount (Slot.id s) db) by lia.
  clear Hpos.
  destruct Heff as [db a|db t Hw Hn|db token slot Hf Hw Hin Hadm
                   |db token Hf Hc Hd|db token Hf Ha|db token Hf Ha
                   |db doctorId parsedDate].
  - apply Z.le_refl.
  - unfold allocatedCount, allocatedTokensOf. cbn [tokens withTokens].
    rewrite filter_app. cbn [filter].
    rewrite allocatedIn_status by (rewrite Hw; discriminate).
    rewrite app_nil_r. apply Z.le_refl.
  - apply candidateSlots_In in Hin. destruct Hin as (Hin & Hon & _).
    apply allocatedCount_other. intro t. unfold allocatedIn. cbn.
    destruct (String.eqb_spec (Slot.id slot) (Slot.id s)) as [E|E];
      [|reflexivity].
    assert (slot = s) by (eapply NoDup_slot_ids; eauto). subst slot. congruence.
  - eapply allocatedCount_released; [reflexivity|discriminate].
  - eapply allocatedCount_released; [reflexivity|discriminate].
  - eapply allocatedCount_released; [reflexivity|discriminate].
  - unfold allocatedCount, allocatedTokensOf. cbn [tokens withTokens].
    rewrite filter_map_same; [apply Z.le_refl|].
    intro t. destruct (expires doctorId parsedDate t) eqn:E; [|reflexivity].
    apply expires_iff in E. destruct E as [E _].
    rewrite !allocatedIn_status; [reflexivity| |]; cbn; try rewrite E; discriminate.
Qed.

Lemma Effects_inactive (now : Z) (db db' : Db) :
  NoDup (map Slot.id (slots db)) ->
  inactiveSlotsEmpty db -> Effects now db db' -> inactiveSlotsEmpty db'.
Proof.
  intros Hnd Hinv H. induction H as [|a b c Hab Hbc IH]; [exact Hinv|].
  apply IH.
  - now rewrite (Effect_slots Hab).
  - eapply Effect_inactive; eauto.
Qed.

Lemma updateSlotFirst_unique (slotId : string) (f : Slot.t -> Slot.t)
    (l : list Slot.t) (s0 s : Slot.t) :
  (forall x, Slot.id (f x) = Slot.id x) ->
  NoDup (map Slot.id l) ->
  find (fun s => String.eqb (Slot.id s) slotId) l = Some s0 ->
  In s (updateSlotFirst slotId f l) -> Slot.id s = slotId -> s = f s0.
Proof.
  intros Hf. induction l as [|x l IH]; simpl; [discriminate|].
  intros Hnd Hfind Hin E. inversion Hnd as [|? ? Hx Hl]; subst.
  destruct (String.eqb_spec (Slot.id x) (Slot.id s)) as [K|K].
  - injection Hfind as <-. destruct Hin as [<-|Hin]; [reflexivity|].
    exfalso. apply Hx. rewrite K. now apply in_map.
  - destruct Hin as [<-|Hin]; [congruence|]. now apply IH.
Qed.

Lemma patch_capacity_keeps (param : Param) (body : CapacityBody) (db : Db) :
  capacityRespected db ->
  capacityRespected (fst (updateSlotCapacity param body db)).
Proof.
  intro Hcap. unfold updateSlotCapacity.
  destruct (getParam param "slotId") as [slotId|]; [|exact Hcap].
  destruct (findSlot slotId db) as [slot|] eqn:F; [|exact Hcap].
  destruct (truthyNumber (bodyCapacity body)
            && match bodyCapacity body with
               | Some c => c <? len (allocatedTokensOf (Slot.id slot) db)
               | None => false
               end) eqn:T; [exact Hcap|].
  cbn [fst]. intros s' Hs'. cbn [slots withSlots] in Hs'.
  apply updateSlotFirst_In in Hs'. destruct Hs' as [Hs'|(s0 & Hs0 & ->)].
  - exact (Hcap s' Hs').
  - fold (findSlot slotId db) in Hs0. rewrite F in Hs0. injection Hs0 as <-.
    apply findSlot_In in F. pose proof (Hcap slot (proj1 F)) as K.
    cbn. unfold allocatedCount in *.
    destruct (bodyCapacity body) as [c|]; [|exact K].
    destruct (truthyNumber (Some c)); [|exact K].
    cbn in T. apply Z.ltb_ge in T. exact T.
Qed.

(** X16. updateSlotCapacity cannot break the capacity invariant: it
    refuses with status 400, changing nothing, a non-zero capacity below
    the number of tokens allocated to the slot; otherwise the capacity it
    stores is at least that number.  It never writes the token table or a
    slot id. *)
Theorem patch_capacity_respects_allocations (param : Param)
    (body : CapacityBody) (db : Db) :
  capacityRespected db ->
  capacityRespected (fst (updateSlotCapacity param body db))
  /\ tokens (fst (updateSlotCapacity param body db)) = tokens db
  /\ map Slot.id (slots (fst (updateSlotCapacity param body db)))
     = map Slot.id (slots db)
  /\ (forall slotId slot c,
        getParam param "slotId" = inl slotId ->
        findSlot slotId db = Some slot ->
        bodyCapacity body = Some c -> c <> 0 ->
        c < allocatedCount (Slot.id slot) db ->
        exists error, updateSlotCapacity param body db = (db, Refused 400 error)).
Proof.
  intro Hcap. unfold updateSlotCapacity.
  destruct (getParam param "slotId") as [slotId|] eqn:P.
  2:{ cbn. repeat split; auto. intros; discriminate. }
  destruct (findSlot slotId db) as [slot|] eqn:F.
  2:{ cbn. repeat split; auto.
      intros ? ? ? E1 E2. injection E1 as <-. congruence. }
  set (n := len (allocatedTokensOf (Slot.id slot) db)).
  destruct (bodyCapacity body) as [c|] eqn:B; cbn [truthyNumber].
  - destruct (Z.eqb_spec c 0) as [Z0|Z0]; cbn [negb andb].
    + cbn [fst]. split; [|split; [reflexivity|split]].
      * intros s' Hs'. cbn [slots withSlots] in Hs'.
        apply updateSlotFirst_In in Hs'. destruct Hs' as [Hs'|(s0 & Hs0 & ->)].
        -- exact (Hcap s' Hs').
        -- fold (findSlot slotId db) in Hs0. rewrite F in Hs0. injection Hs0 as <-.
           apply findSlot_In in F. exact (Hcap slot (proj1 F)).
      * cbn. now apply updateSlotFirst_ids.
      * intros ? ? ? E1 E2 E3 N. injection E1 as <-. injection E3 as <-.
        contradiction.
    + destruct (Z.ltb_spec c n) as [L|L]; cbn [fst].
      * repeat split; auto. intros. eexists. reflexivity.
      * split; [|split; [reflexivity|split]].
        -- intros s' Hs'. cbn [slots withSlots] in Hs'.
           apply updateSlotFirst_In in Hs'. destruct Hs' as [Hs'|(s0 & Hs0 & ->)].
           ++ exact (Hcap s' Hs').
           ++ fold (findSlot slotId db) in Hs0. rewrite F in Hs0.
              injection Hs0 as <-. cbn. exact L.
        -- cbn. now apply updateSlotFirst_ids.
        -- intros ? ? ? E1 E2 E3 N K. injection E1 as <-. rewrite F in E2.
           injection E2 as <-. injection E3 as <-. unfold allocatedCount in K.
           fold n in K. lia.
  - cbn [andb fst]. split; [|split; [reflexivity|split]].
    + intros s' Hs'. cbn [slots withSlots] in Hs'.
      apply updateSlotFirst_In in Hs'. destruct Hs' as [Hs'|(s0 & Hs0 & ->)].
      * exact (Hcap s' Hs').
      * fold (findSlot slotId db) in Hs0. rewrite F in Hs0. injection Hs0 as <-.
        apply findSlot_In in F. exact (Hcap slot (proj1 F)).
    + cbn. now apply updateSlotFirst_ids.
    + intros; discriminate.
Qed.

Lemma patch_capacity_respects_allocations_witness :
  capacityRespected scenarioS5
  /\ capacityRespected
       (fst (updateSlotCapacity (ParamString "S")
               (MkCapacityBody (Some 4) CapAbsent CapNull) scenarioS5))
  /\ exists error,
       updateSlotCapacity (ParamString "S")
         (MkCapacityBody (Some 2) CapAbsent CapAbsent) scenarioS5
       = (scenarioS5, Refused 400 error).
Proof.
  assert (H : capacityRespected scenarioS5).
  { intros s [<-|[]]. vm_compute. discriminate. }
  split; [exact H|].
  split.
  - exact (proj1 (patch_capacity_respects_allocations (ParamString "S")
                    (MkCapacityBody (Some 4) CapAbsent CapNull) H)).
  - destruct (patch_capacity_respects_allocations (ParamString "S")
                (MkCapacityBody (Some 2) CapAbsent CapAbsent) H)
      as (_ & _ & _ & K).
    apply (K "S"
             (Slot.Build "S" "S-S" "d1" 0 (HHMM 9 0) (HHMM 10 0) 6 (Some 3) None true)
             2); try reflexivity; discriminate.
Defined.

(** X17. deleteSlot deactivates a slot only when no token is allocated to
    it, and writes nothing else: tokens and slot ids are as they were.
    From then on the slot is not among the slots allocateToken considers,
    for any token at any time.  Slot ids are the primary key of the slot
    table. *)
Theorem deleteSlot_retires_empty_slot (param : Param) (db db' : Db)
    (message : option string) :
  NoDup (map Slot.id (slots db)) ->
  deleteSlot param db = (db', Success tt message) ->
  exists slot,
    param = ParamString (Slot.id slot)
    /\ In slot (slots db)
    /\ allocatedCount (Slot.id slot) db = 0
    /\ tokens db' = tokens db
    /\ map Slot.id (slots db') = map Slot.id (slots db)
    /\ forall now token s,
         In s (candidateSlots now token db') -> Slot.id s <> Slot.id slot.
Proof.
  intros Hnd. unfold deleteSlot.
  destruct (getParam param "slotId") as [slotId|] eqn:P; [|discriminate].
  destruct (findSlot slotId db) as [slot|] eqn:F; [|discriminate].
  destruct (Z.ltb_spec 0 (len (allocatedTokensOf (Slot.id slot) db))) as [L|L];
    [discriminate|].
  intro H. injection H as <- _.
  apply getParam_value in P. destruct P as [-> _].
  pose proof (findSlot_In _ _ F) as [Hin E]. subst slotId.
  exists slot. split; [reflexivity|]. split; [exact Hin|].
  split; [pose proof (allocatedCount_nonneg (Slot.id slot) db);
          unfold allocatedCount in *; lia|].
  split; [reflexivity|].
  split; [cbn; now apply updateSlotFirst_ids|].
  intros now token s Hs E.
  apply candidateSlots_In in Hs. destruct Hs as (Hs & Hon & _).
  cbn [slots withSlots] in Hs.
  assert (s = setInactive slot).
  { eapply updateSlotFirst_unique; eauto. }
  subst s. discriminate.
Qed.

Lemma deleteSlot_retires_empty_slot_witness :
  let db := MkDb [Doctor.Build "d1" true] [mkSlot "S" 9 10 2] [waitingS2] [] in
  NoDup (map Slot.id (slots db))
  /\ exists db',
       deleteSlot (ParamString "S") db
       = (db', Success tt (Some "Slot deactivated successfully"))
       /\ tokens db' = tokens db
       /\ forall now token s,
            In s (candidateSlots now token db') -> Slot.id s <> "S".
Proof.
  intro db.
  assert (Hnd : NoDup (map Slot.id (slots db))).
  { simpl. constructor; [simpl; tauto|constructor]. }
  split; [exact Hnd|].
  eexists. split; [reflexivity|].
  destruct (deleteSlot_retires_empty_slot (ParamString "S") db Hnd eq_refl)
    as (slot & E & _ & _ & Ht & _ & H).
  injection E as E. rewrite <- E in H. split; [exact Ht|exact H].
Defined.

(** deleteSlot refuses a slot that holds allocated tokens and leaves the
    store as it is. *)
Example deleteSlot_refuses_occupied_slot :
  deleteSlot (ParamString "S2") scenarioS2
  = (scenarioS2,
     Refused 400 "Cannot delete slot with allocated tokens. Cancel tokens first.").
Proof. reflexivity. Qed.

Lemma serve_slot_ids (fuel : nat) (now : Z) (req : Request) (db : Db) :
  map Slot.id (slots (serve fuel now req db)) = map Slot.id (slots db).
Proof.
  destruct req as [op|param body|param]; cbn [serve].
  - now rewrite committed_slots.
  - unfold updateSlotCapacity.
    destruct (getParam param "slotId"); [|reflexivity].
    destruct (findSlot _ db); [|reflexivity].
    destruct (_ && _); [reflexivity|]. cbn. now apply updateSlotFirst_ids.
  - unfold deleteSlot.
    destruct (getParam param "slotId"); [|reflexivity].
    destruct (findSlot _ db); [|reflexivity].
    destruct (_ <? _); [reflexivity|]. cbn. now apply updateSlotFirst_ids.
Qed.

Lemma serve_invariants (fuel : nat) (now : Z) (req : Request) (db : Db) :
  NoDup (map Slot.id (slots db)) ->
  capacityRespected db -> inactiveSlotsEmpty db ->
  capacityRespected (serve fuel now req db)
  /\ inactiveSlotsEmpty (serve fuel now req db).
Proof.
  intros Hnd Hcap Hoff.
  destruct req as [op|param body|param]; cbn [serve].
  - destruct (run fuel now op db) as [d| |] eqn:R; cbn [committed]; auto.
    apply run_effects in R. split.
    + eapply Effects_capacity; eauto.
    + eapply Effects_inactive; eauto.
  - split; [now apply patch_capacity_keeps|].
    unfold updateSlotCapacity.
    destruct (getParam param "slotId") as [slotId|]; [|exact Hoff].
    destruct (findSlot slotId db) as [slot|] eqn:F; [|exact Hoff].
    destruct (_ && _); [exact Hoff|]. cbn [fst].
    intros s Hs Hs0. cbn [slots withSlots] in Hs.
    apply updateSlotFirst_In in Hs. destruct Hs as [Hs|(s0 & F0 & ->)].
    + exact (Hoff s Hs Hs0).
    + fold (findSlot slotId db) in F0. rewrite F in F0. injection F0 as <-.
      apply findSlot_In in F. exact (Hoff slot (proj1 F) Hs0).
  - unfold deleteSlot.
    destruct (getParam param "slotId") as [slotId|]; [|now split].
    destruct (findSlot slotId db) as [slot|] eqn:F; [|now split].
    destruct (Z.ltb_spec 0 (len (allocatedTokensOf (Slot.id slot) db))) as [L|L];
      [now split|]. cbn [fst].
    split; intros s Hs; cbn [slots withSlots] in Hs;
      apply updateSlotFirst_In in Hs; destruct Hs as [Hs|(s0 & F0 & ->)].
    + exact (Hcap s Hs).
    + fold (findSlot slotId db) in F0. rewrite F in F0. injection F0 as <-.
      apply findSlot_In in F. exact (Hcap slot (proj1 F)).
    + exact (Hoff s Hs).
    + fold (findSlot slotId db) in F0. rewrite F in F0. injection F0 as <-.
      intros _. change (allocatedCount (Slot.id slot) db = 0).
      pose proof (allocatedCount_nonneg (Slot.id slot) db).
      unfold allocatedCount in *. lia.
Qed.

(** X18. Engine operations and slot administration together keep the
    store sound: over any sequence of createToken, cancelToken, markNoShow,
    completeToken, expireWaitingTokens, updateSlotCapacity and deleteSlot
    requests, slot ids stay unique, no slot holds more allocated tokens
    than its capacity, and a deactivated slot holds none. *)
Theorem invariants_survive_administration (fuel : nat)
    (reqs : list (Z * Request)) :
  forall db,
    NoDup (map Slot.id (slots db)) ->
    capacityRespected db ->
    inactiveSlotsEmpty db ->
    NoDup (map Slot.id (slots (serveAll fuel reqs db)))
    /\ capacityRespected (serveAll fuel reqs db)
    /\ inactiveSlotsEmpty (serveAll fuel reqs db).
Proof.
  induction reqs as [|[now req] rest IH]; intros db Hnd Hcap Hoff;
    cbn [serveAll]; auto.
  destruct (serve_invariants fuel now req Hnd Hcap Hoff) as [H1 H2].
  apply IH; auto. now rewrite serve_slot_ids.
Qed.

Lemma invariants_survive_administration_witness :
  let reqs :=
    [(8 * hour, Engine (CancelToken "b1"));
     (8 * hour, PatchCapacity (ParamString "S2")
                  (MkCapacityBody (Some 2) CapAbsent CapAbsent));
     (8 * hour, Engine (CancelToken "a1"));
     (8 * hour, Engine (CancelToken "a2"));
     (8 * hour, DeleteSlot (ParamString "S1"))] in
  NoDup (map Slot.id (slots scenarioS2))
  /\ capacityRespected scenarioS2
  /\ inactiveSlotsEmpty scenarioS2
  /\ capacityRespected (serveAll 1 reqs scenarioS2)
  /\ inactiveSlotsEmpty (serveAll 1 reqs scenarioS2)
  /\ map (fun s => (Slot.id s, Slot.capacity s, Slot.isActive s))
         (slots (serveAll 1 reqs scenarioS2))
     = [("S2", 2, true); ("S1", 2, false)].
Proof.
  intro reqs.
  assert (Hnd : NoDup (map Slot.id (slots scenarioS2))).
  { simpl. repeat constructor; simpl; intuition discriminate. }
  assert (Hcap : capacityRespected scenarioS2).
  { intros s [<-|[<-|[]]]; vm_compute; discriminate. }
  assert (Hoff : inactiveSlotsEmpty scenarioS2).
  { intros s [<-|[<-|[]]]; discriminate. }
  split; [exact Hnd|]. split; [exact Hcap|]. split; [exact Hoff|].
  destruct (invariants_survive_administration 1 reqs Hnd Hcap Hoff)
    as (_ & H1 & H2).
  split; [exact H1|]. split; [exact H2|]. reflexivity.
Defined.

(** * What a reallocation reports *)

Lemma allocateToken_step (fuel : nat) (now : Z) (db : Db) (w : Token.t) :
  findToken (Token.id w) db = Some w ->
  Token.status w = TokenStatus.WAITING ->
  exists db1 r,
    allocateToken (S fuel) now (Token.id w) db = Ok (db1, r)
    /\ (forall other, other <> Token.id w ->
                      findToken other db1 = findToken other db)
    /\ ((AllocationResult.success r = true
         /\ (exists w', AllocationResult.token r = Some w'
                        /\ findToken (Token.id w) db1 = Some w'
                        /\ Token.status w' = TokenStatus.ALLOCATED
                        /\ identityOf w' = identityOf w)
         /\ allocatable now w db)
        \/ (AllocationResult.success r = false /\ db1 = db
            /\ ~ allocatable now w db)).
Proof.
  intros F W. rewrite allocateToken_eq, F, W. cbn [TokenStatus.eqb negb].
  rewrite find_admissible.
  destruct (find (admissible w db) (candidateSlots now w db)) as [slot|] eqn:A;
    cbn [option_map].
  - do 2 eexists. split; [reflexivity|].
    split; [intros other N; now apply findToken_updateToken_other|].
    left. split; [reflexivity|].
    pose proof (findToken_updateToken (Token.id w)
                  (allocateData (Slot.id slot) now) db F) as F2.
    apply find_some in A. split; [|exists slot; exact A].
    exists (applyData (allocateData (Slot.id slot) now) w).
    cbn [allocated AllocationResult.token].
    split; [exact F2|]. split; [exact F2|]. split; reflexivity.
  - do 2 eexists. split; [reflexivity|]. split; [reflexivity|].
    right. split; [destruct (availableSlotsFor now w db); reflexivity|].
    split; [reflexivity|].
    intros (slot & Hin & Hadm).
    pose proof (find_none _ _ A slot Hin). congruence.
Qed.

(** The loop of the reallocation block, on a list of distinct waiting
    tokens of the store. *)
Lemma reallocateLoop_report (fuel : nat) (now : Z) (waiting : list Token.t) :
  forall (db : Db) (moved : list (option Token.t)),
    NoDup (map Token.id waiting) ->
    (forall w, In w waiting ->
               findToken (Token.id w) db = Some w
               /\ Token.status w = TokenStatus.WAITING) ->
    exists db' new,
      reallocateLoop (S fuel) now waiting db moved = Ok (db', (moved ++ new)%list)
      /\ (forall other, ~ In other (map Token.id waiting) ->
                        findToken other db' = findToken other db)
      /\ (forall m, In m new ->
                    promoted db db' m
                    /\ exists t, m = Some t /\ In (Token.id t) (map Token.id waiting))
      /\ (forall w, In w waiting ->
                    findToken (Token.id w) db' = Some w
                    \/ In (findToken (Token.id w) db') new)
      /\ ((exists w, In w waiting /\ allocatable now w db) -> new <> []).
Proof.
  induction waiting as [|w rest IH]; intros db moved Hnd Hw.
  - exists db, []. rewrite app_nil_r. split; [reflexivity|].
    split; [auto|]. split; [intros m []|]. split; [intros w []|].
    intros (w & [] & _).
  - cbn [reallocateLoop].
    destruct (Hw w (or_introl eq_refl)) as (F & W).
    inversion Hnd as [|? ? Hx Hl]; subst.
    destruct (allocateToken_step fuel now db F W) as (db1 & r & A & Hkeep & Hres).
    rewrite A. cbn [bind].
    assert (Hne : forall w', In w' rest -> Token.id w' <> Token.id w).
    { intros w' Hin E. apply Hx. rewrite <- E. now apply in_map. }
    assert (Hw1 : forall w', In w' rest ->
                             findToken (Token.id w') db1 = Some w'
                             /\ Token.status w' = TokenStatus.WAITING).
    { intros w' Hin. destruct (Hw w' (or_intror Hin)) as (F' & W').
      split; [|exact W']. rewrite Hkeep; [exact F'|now apply Hne]. }
    destruct Hres as [(S1 & (w1 & T1 & F1 & A1 & I1) & Al)|(S1 & -> & Nal)];
      rewrite S1.
    + destruct (IH db1 (moved ++ [AllocationResult.token r])%list Hl Hw1)
        as (db' & new & R & K & M & Wt & _).
      assert (Fw : findToken (Token.id w) db' = Some w1)
        by (rewrite K; [exact F1|exact Hx]).
      assert (Iw : Token.id w1 = Token.id w)
        by (now apply findToken_id in F1).
      exists db', (AllocationResult.token r :: new).
      split; [rewrite R; now rewrite <- app_assoc|].
      split.
      { intros other N. cbn [map In] in N. rewrite K by tauto.
        apply Hkeep. intro E. apply N. now left. }
      split.
      { intros m [<-|Hm].
        - split.
          + exists w1, w. rewrite Iw. repeat split; auto.
          + exists w1. split; [exact T1|]. rewrite Iw. now left.
        - destruct (M m Hm) as ((t & t0 & -> & H1 & H2 & H3 & H4 & H5)
                                & (t' & E' & Hin')).
          injection E' as <-. split.
          + exists t, t0. repeat split; auto.
            rewrite <- (Hkeep (Token.id t)); [exact H3|].
            apply in_map_iff in Hin'. destruct Hin' as (w' & E & Hin').
            rewrite <- E. now apply Hne.
          + exists t. split; [reflexivity|now right]. }
      split.
      { intros w' [<-|Hin].
        - right. left. now rewrite Fw.
        - destruct (Wt w' Hin) as [H|H]; [now left|right; now right]. }
      intros _. discriminate.
    + destruct (IH db moved Hl Hw1) as (db' & new & R & K & M & Wt & P).
      exists db', new. split; [exact R|]. split.
      { intros other N. cbn [map In] in N. apply K. tauto. }
      split.
      { intros m Hm. destruct (M m Hm) as (H1 & t & E & Hin).
        split; [exact H1|]. exists t. split; [exact E|now right]. }
      split.
      { intros w' [<-|Hin]; [|now apply Wt].
        left. rewrite K; [exact F|exact Hx]. }
      intros (w' & [<-|Hin] & Al); [contradiction|].
      apply P. now exists w'.
Qed.

Lemma backfill_report (fuel : nat) (now : Z) (token : Token.t) (slot : Slot.t)
    (db1 : Db) (tokenId : string) (t1 : Token.t) :
  idsUnique db1 ->
  findToken tokenId db1 = Some t1 ->
  Token.status t1 <> TokenStatus.WAITING ->
  exists db' new,
    reallocateLoop (S fuel) now (selectWaitingTokens now token slot db1) db1 []
    = Ok (db', new)
    /\ (forall m, In m new -> promoted db1 db' m)
    /\ (forall other,
          (forall t, In (Some t) new -> Token.id t <> other) ->
          findToken other db' = findToken other db1)
    /\ ((exists w, In w (selectWaitingTokens now token slot db1)
                   /\ allocatable now w db1) -> new <> []).
Proof.
  intros Hu F1 N1.
  destruct (selectWaitingTokens_cases now token slot db1) as [b ->].
  set (ws := findWaiting b (Token.doctorId token) (Token.date token) db1).
  assert (Hws : forall w, In w ws ->
                          findToken (Token.id w) db1 = Some w
                          /\ Token.status w = TokenStatus.WAITING).
  { intros w Hin. apply findWaiting_In in Hin. destruct Hin as (Hin & Hw & _).
    split; [now apply find_unique_id|exact Hw]. }
  destruct (reallocateLoop_report fuel now ws db1 []
              (findWaiting_ids b _ _ Hu) Hws) as (db' & new & R & K & M & Wt & P).
  exists db', new. split; [exact R|]. split; [intros m Hm; now apply M|].
  split; [|exact P].
  intros other Hother.
  destruct (in_dec string_dec other (map Token.id ws)) as [Hin|Hout];
    [|now apply K].
  apply in_map_iff in Hin. destruct Hin as (w & <- & Hin).
  destruct (Hws w Hin) as (Fw & _).
  destruct (Wt w Hin) as [H|H]; [congruence|].
  exfalso. destruct (M _ H) as ((t & t0 & E & _) & _).
  rewrite E in H. apply (Hother t H).
  now apply findToken_id in E.
Qed.

Lemma promoted_before (db db1 db' : Db) (tokenId : string) (d : TokenData)
    (token : Token.t) (a : AuditLog.t) (m : option Token.t) :
  db1 = updateToken tokenId d db ->
  findToken tokenId db = Some token ->
  Token.status (applyData d token) <> TokenStatus.WAITING ->
  promoted db1 db' m -> promoted db (createAudit a db') m.
Proof.
  intros -> F N (t & t0 & -> & H1 & H2 & H3 & H4 & H5).
  exists t, t0. repeat split; auto.
  rewrite <- H3. symmetry. apply findToken_updateToken_other.
  intro E. rewrite E, (findToken_updateToken tokenId d db F) in H3.
  injection H3 as <-. contradiction.
Qed.

(** X19. What cancelToken and markNoShow report is what they did, on a
    store whose token ids are unique: every entry of movedTokens is the
    row, now ALLOCATED, of a token that was WAITING before the call, with
    its identity columns unchanged; and every token other than the one
    cancelled (or marked) and the ones reported is exactly as it was. *)
Theorem reallocation_report (fuel : nat) (now : Z) (tokenId : string) (db : Db) :
  idsUnique db ->
  let faithful db' moved :=
    (forall m, In m moved -> promoted db db' m)
    /\ (forall other,
          other <> tokenId ->
          (forall t, In (Some t) moved -> Token.id t <> other) ->
          findToken other db' = findToken other db) in
  (forall db' r,
      cancelToken (S fuel) now tokenId db = Ok (db', r) ->
      faithful db' (ReallocationResult.movedTokens r))
  /\ (forall db' r,
        markNoShow (S fuel) now tokenId db = Ok (db', r) ->
        faithful db' (ReallocationResult.movedTokens r)).
Proof.
  intros Hu faithful.
  assert (Quiet : forall d a,
             faithful (createAudit a (updateToken tokenId d db)) []).
  { intros d a. split; [intros m []|].
    intros other N _. rewrite findToken_createAudit.
    now apply findToken_updateToken_other. }
  assert (Busy : forall d token slot a db2 moved,
             findToken tokenId db = Some token ->
             Token.status (applyData d token) <> TokenStatus.WAITING ->
             reallocateLoop (S fuel) now
               (selectWaitingTokens now token slot (updateToken tokenId d db))
               (updateToken tokenId d db) [] = Ok (db2, moved) ->
             faithful (createAudit a db2) moved).
  { intros d token slot a db2 moved F N R.
    destruct (backfill_report fuel now token slot tokenId
                (updateToken_idsUnique tokenId d Hu)
                (findToken_updateToken tokenId d db F) N)
      as (db2' & new & R' & M & K & _).
    rewrite R in R'. injection R' as <- <-.
    split.
    - intros m Hm. eapply promoted_before; eauto.
    - intros other No Hm. rewrite findToken_createAudit, (K other Hm).
      now apply findToken_updateToken_other. }
  split; intros db' r.
  - unfold cancelToken.
    destruct (findToken tokenId db) as [token|] eqn:F; [|discriminate].
    destruct (TokenStatus.eqb _ TokenStatus.CANCELLED); [discriminate|].
    destruct (TokenStatus.eqb _ TokenStatus.COMPLETED); [discriminate|].
    destruct (tokenSlot token db) as [theSlot|];
      [|intro H; injection H as <- <-; apply Quiet].
    destruct (truthy (Token.slotId token));
      [|intro H; injection H as <- <-; apply Quiet].
    destruct (hasSlotEnded now _ _);
      [intro H; injection H as <- <-; apply Quiet|].
    destruct (reallocateLoop (S fuel) now _ _ _) as [[db2 moved]| |] eqn:R;
      cbn [bind fst snd]; try discriminate.
    intro H. injection H as <- <-. cbn [ReallocationResult.movedTokens].
    eapply Busy; eauto. discriminate.
  - unfold markNoShow.
    destruct (findToken tokenId db) as [token|] eqn:F; [|discriminate].
    destruct (negb _); [discriminate|].
    destruct (tokenSlot token db) as [theSlot|];
      [|intro H; injection H as <- <-; apply Quiet].
    destruct (hasSlotEnded now _ _);
      [intro H; injection H as <- <-; apply Quiet|].
    destruct (reallocateLoop (S fuel) now _ _ _) as [[db2 moved]| |] eqn:R;
      cbn [bind fst snd]; try discriminate.
    intro H. injection H as <- <-. cbn [ReallocationResult.movedTokens].
    eapply Busy; eauto. discriminate.
Qed.

Lemma reallocation_report_witness :
  idsUnique scenarioS3
  /\ exists db' r,
       cancelToken 1 halfPastNine "paid1" scenarioS3 = Ok (db', r)
       /\ List.length (ReallocationResult.movedTokens r) = 1%nat
       /\ (forall m, In m (ReallocationResult.movedTokens r) ->
                     promoted scenarioS3 db' m)
       /\ findToken "online2" db' = findToken "online2" scenarioS3.
Proof.
  assert (Hu : idsUnique scenarioS3).
  { unfold idsUnique. cbn. repeat constructor; cbn; intuition discriminate. }
  split; [exact Hu|].
  destruct (reallocation_report 0 halfPastNine "paid1" Hu) as [H _].
  do 2 eexists. split; [reflexivity|]. split; [reflexivity|].
  specialize (H _ _ eq_refl). destruct H as [H1 H2].
  split; [exact H1|]. apply H2; [discriminate|].
  intros t [E|[]]. injection E as <-. discriminate.
Defined.

(** X20. The reallocation block is work-conserving over its candidates:
    when cancelToken or markNoShow frees a seat in a slot that has not
    ended and some backfill candidate can be allocated in the store as the
    cancellation leaves it, at least one token is promoted.  Token ids are
    unique. *)
Theorem reallocation_promotes_when_possible (fuel : nat) (now : Z)
    (tokenId : string) (db : Db) (token : Token.t) (slot : Slot.t) :
  idsUnique db ->
  findToken tokenId db = Some token ->
  Token.status token = TokenStatus.ALLOCATED ->
  tokenSlot token db = Some slot ->
  truthy (Token.slotId token) = true ->
  hasSlotEnded now (Slot.endTime slot) (Slot.date slot) = false ->
  (let db1 := updateToken tokenId (cancelData now) db in
   (exists w, In w (backfillCandidates now token slot db1)
              /\ allocatable now w db1) ->
   exists db' r,
     cancelToken (S fuel) now tokenId db = Ok (db', r)
     /\ ReallocationResult.movedTokens r <> [])
  /\ (let db1 := updateToken tokenId noShowData db in
      (exists w, In w (backfillCandidates now token slot db1)
                 /\ allocatable now w db1) ->
      exists db' r,
        markNoShow (S fuel) now tokenId db = Ok (db', r)
        /\ ReallocationResult.movedTokens r <> []).
Proof.
  intros Hu F Ha Hs Ht He. split; intros db1 Hex.
  - destruct (backfill_report fuel now token slot tokenId
                (updateToken_idsUnique tokenId (cancelData now) Hu)
                (findToken_updateToken tokenId (cancelData now) db F))
      as (db2 & new & R & _ & _ & P); [discriminate|].
    unfold cancelToken. rewrite F, Ha, Hs, Ht, He. cbn [TokenStatus.eqb].
    fold db1 in R |- *. rewrite R. cbn [bind fst snd].
    do 2 eexists. split; [reflexivity|].
    cbn [ReallocationResult.movedTokens]. apply P.
    fold db1. now rewrite selectWaitingTokens_eq.
  - destruct (backfill_report fuel now token slot tokenId
                (updateToken_idsUnique tokenId noShowData Hu)
                (findToken_updateToken tokenId noShowData db F))
      as (db2 & new & R & _ & _ & P); [discriminate|].
    unfold markNoShow. rewrite F, Ha, Hs, He. cbn [TokenStatus.eqb negb].
    fold db1 in R |- *. rewrite R. cbn [bind fst snd].
    do 2 eexists. split; [reflexivity|].
    cbn [ReallocationResult.movedTokens]. apply P.
    fold db1. now rewrite selectWaitingTokens_eq.
Qed.

Lemma reallocation_promotes_when_possible_witness :
  idsUnique scenarioS3
  /\ exists db' r,
       cancelToken 1 halfPastNine "paid1" scenarioS3 = Ok (db', r)
       /\ ReallocationResult.movedTokens r <> [].
Proof.
  assert (Hu : idsUnique scenarioS3).
  { unfold idsUnique. cbn. repeat constructor; cbn; intuition discriminate. }
  split; [exact Hu|].
  destruct (reallocation_promotes_when_possible 0 halfPastNine "paid1"
              (token := mkToken "paid1" Source.ONLINE Priority.PAID
                          TokenStatus.ALLOCATED (Some "S") 1)
              (slot := mkSlot "S" 10 11 2)
              Hu eq_refl eq_refl eq_refl eq_refl eq_refl) as [H _].
  apply H.
  exists (mkToken "walkin1" Source.WALKIN Priority.WALKIN TokenStatus.WAITING None 4).
  split; [left; reflexivity|].
  exists (mkSlot "S" 10 11 2). split; [left; reflexivity|reflexivity].
Defined.

(** * Helpers *)

(** X21. comparePriority is a comparator of a total order: it is zero
    exactly on equal priorities, swapping the arguments negates it, it is
    transitive, and it puts EMERGENCY first and WALKIN last. *)
Theorem comparePriority_total_order (a b c : Priority.t) :
  (comparePriority a b = 0 <-> a = b)
  /\ comparePriority b a = - comparePriority a b
  /\ (comparePriority a b <= 0 -> comparePriority b c <= 0 ->
      comparePriority a c <= 0)
  /\ comparePriority Priority.EMERGENCY a <= 0
  /\ comparePriority a Priority.WALKIN <= 0.
Proof.
  unfold comparePriority.
  destruct a, b, c; cbn; repeat split; intros; try lia; try congruence;
    try discriminate.
Qed.

(** X22. calculateAvailableCapacity is never negative, is the number of
    free seats whenever the slot is within capacity, and is positive
    exactly when canAllocateToSlot lets a regular (ONLINE or WALKIN) token
    in. *)
Theorem calculateAvailableCapacity_free_seats (capacity allocatedCount pc fc : Z)
    (paidCap followUpCap : option Z) :
  0 <= calculateAvailableCapacity capacity allocatedCount
  /\ (allocatedCount <= capacity ->
      allocatedCount + calculateAvailableCapacity capacity allocatedCount
      = capacity)
  /\ (0 < calculateAvailableCapacity capacity allocatedCount <->
      canAllocateToSlot Priority.WALKIN pc fc allocatedCount capacity
        paidCap followUpCap = true)
  /\ (0 < calculateAvailableCapacity capacity allocatedCount <->
      canAllocateToSlot Priority.ONLINE pc fc allocatedCount capacity
        paidCap followUpCap = true).
Proof.
  unfold calculateAvailableCapacity, canAllocateToSlot. rewrite Z.geb_leb.
  destruct (Z.leb_spec capacity allocatedCount); cbn;
    repeat split; intros; try lia; try discriminate.
Qed.

(** ** Dates in display ids *)

Lemma without_eqb (sep c : ascii) (s : string) :
  without sep (String c s) = true ->
  Ascii.eqb c sep = false /\ without sep s = true.
Proof.
  cbn. intro H. apply andb_true_iff in H. destruct H as [H1 H2].
  apply negb_true_iff in H1. now split.
Qed.

(** X23. The two date formats of display ids are inverse to each other:
    a DD-MM-YYYY string (two, two and four characters, none a dash)
    becomes the eight characters YYYYMMDD and comes back unchanged, and
    eight characters without a dash go to DD-MM-YYYY and back. *)
Theorem display_date_round_trip :
  (forall day month year,
      String.length day = 2%nat -> String.length month = 2%nat ->
      String.length year = 4%nat ->
      without "-" day = true -> without "-" month = true ->
      without "-" year = true ->
      formatDateForDisplayID (day ++ "-" ++ month ++ "-" ++ year)
      = year ++ month ++ day
      /\ formatDisplayIDDate
           (formatDateForDisplayID (day ++ "-" ++ month ++ "-" ++ year))
         = day ++ "-" ++ month ++ "-" ++ year)
  /\ (forall yyyymmdd,
        String.length yyyymmdd = 8%nat -> without "-" yyyymmdd = true ->
        formatDateForDisplayID (formatDisplayIDDate yyyymmdd) = yyyymmdd).
Proof.
  split.
  - intros day month year Hd Hm Hy Nd Nm Ny.
    destruct day as [|d1 [|d2 [|? ?]]]; try discriminate.
    destruct month as [|m1 [|m2 [|? ?]]]; try discriminate.
    destruct year as [|y1 [|y2 [|y3 [|y4 [|? ?]]]]]; try discriminate.
    apply without_eqb in Nd. destruct Nd as [D1 Nd].
    apply without_eqb in Nd. destruct Nd as [D2 _].
    apply without_eqb in Nm. destruct Nm as [M1 Nm].
    apply without_eqb in Nm. destruct Nm as [M2 _].
    apply without_eqb in Ny. destruct Ny as [Y1 Ny].
    apply without_eqb in Ny. destruct Ny as [Y2 Ny].
    apply without_eqb in Ny. destruct Ny as [Y3 Ny].
    apply without_eqb in Ny. destruct Ny as [Y4 _].
    unfold formatDateForDisplayID, formatDisplayIDDate.
    cbn [append splitOn]. rewrite D1, D2, M1, M2, Y1, Y2, Y3, Y4.
    cbn. split; reflexivity.
  - intros s Hs Ns.
    destruct s as [|c1 [|c2 [|c3 [|c4 [|c5 [|c6 [|c7 [|c8 [|? ?]]]]]]]]];
      try discriminate.
    apply without_eqb in Ns. destruct Ns as [E1 Ns].
    apply without_eqb in Ns. destruct Ns as [E2 Ns].
    apply without_eqb in Ns. destruct Ns as [E3 Ns].
    apply without_eqb in Ns. destruct Ns as [E4 Ns].
    apply without_eqb in Ns. destruct Ns as [E5 Ns].
    apply without_eqb in Ns. destruct Ns as [E6 Ns].
    apply without_eqb in Ns. destruct Ns as [E7 Ns].
    apply without_eqb in Ns. destruct Ns as [E8 _].
    unfold formatDateForDisplayID, formatDisplayIDDate.
    cbn [substring append splitOn].
    rewrite E1, E2, E3, E4, E5, E6, E7, E8. cbn. reflexivity.
Qed.

Lemma display_date_round_trip_witness :
  formatDateForDisplayID "01-02-2026" = "20260201"
  /\ formatDisplayIDDate (formatDateForDisplayID "01-02-2026") = "01-02-2026"
  /\ formatDateForDisplayID (formatDisplayIDDate "20260201") = "20260201".
Proof.
  destruct display_date_round_trip as [H1 H2].
  destruct (H1 "01" "02" "2026" eq_refl eq_refl eq_refl eq_refl eq_refl eq_refl)
    as [A B].
  split; [exact A|]. split; [exact B|].
  exact (H2 "20260201" eq_refl eq_refl).
Defined.

(** A date with a missing part prints [undefined] in its place. *)
Example formatDateForDisplayID_missing_part :
  formatDateForDisplayID "01-02" = "undefined0201".
Proof. reflexivity. Qed.

(** ** Display ids and times *)

Lemma matchesClasses_length (classes : list (ascii -> bool)) :
  forall s, matchesClasses classes s = true ->
            String.length s = List.length classes.
Proof.
  induction classes as [|class classes IH]; intros [|c s]; cbn;
    try discriminate; [reflexivity|].
  intro H. apply andb_true_iff in H. destruct H as [_ H].
  now rewrite (IH s H).
Qed.

Lemma isDigitChar_bounds (c : ascii) :
  isDigitChar c = true -> 48 <= Z.of_N (N_of_ascii c) <= 57.
Proof.
  unfold isDigitChar. rewrite andb_true_iff, !N.leb_le. lia.
Qed.

Lemma charBetween_bounds (lo hi c : ascii) :
  charBetween lo hi c = true ->
  Z.of_N (N_of_ascii lo) <= Z.of_N (N_of_ascii c) <= Z.of_N (N_of_ascii hi).
Proof.
  unfold charBetween. rewrite andb_true_iff, !N.leb_le. lia.
Qed.

Lemma eqb_by_code (c sep : ascii) :
  N_of_ascii c <> N_of_ascii sep -> Ascii.eqb c sep = false.
Proof.
  intro H. apply Ascii.eqb_neq. intro E. apply H. now rewrite E.
Qed.

Lemma isDigitChar_not_dash (c : ascii) :
  isDigitChar c = true -> Ascii.eqb c "-" = false.
Proof.
  intro H. apply isDigitChar_bounds in H. apply eqb_by_code.
  change (N_of_ascii "-") with 45%N. lia.
Qed.

Lemma isDigitChar_not_colon (c : ascii) :
  isDigitChar c = true -> Ascii.eqb c ":" = false.
Proof.
  intro H. apply isDigitChar_bounds in H. apply eqb_by_code.
  change (N_of_ascii ":") with 58%N. lia.
Qed.

Lemma isUpperChar_not_dash (c : ascii) :
  isUpperChar c = true -> Ascii.eqb c "-" = false.
Proof.
  unfold isUpperChar. rewrite andb_true_iff, !N.leb_le. intros [H _].
  apply eqb_by_code. change (N_of_ascii "-") with 45%N. lia.
Qed.

Lemma sampleNumber_readsDigits : readsDigits sampleNumber.
Proof. intros s _ H _. unfold sampleNumber. now rewrite H. Qed.

Lemma splitOn_nonempty (sep : ascii) (s : string) : splitOn sep s <> [].
Proof.
  induction s as [|c s IH]; cbn; [discriminate|].
  destruct (Ascii.eqb c sep); [discriminate|].
  destruct (splitOn sep s); discriminate.
Qed.

Lemma splitOn_without (sep : ascii) (a : string) :
  without sep a = true -> splitOn sep a = [a].
Proof.
  induction a as [|c a IH]; [reflexivity|].
  intro H. apply without_eqb in H. destruct H as [E H].
  cbn. now rewrite E, (IH H).
Qed.

Lemma splitOn_app (sep : ascii) (a rest : string) :
  without sep a = true ->
  splitOn sep (a ++ String sep rest) = a :: splitOn sep rest.
Proof.
  induction a as [|c a IH]; intro H.
  - cbn. now rewrite Ascii.eqb_refl.
  - apply without_eqb in H. destruct H as [E H].
    cbn. now rewrite E, (IH H).
Qed.

Lemma allDigits_without_dash (s : string) :
  allDigits s = true -> without "-" s = true.
Proof.
  induction s as [|c s IH]; [reflexivity|].
  cbn. intro H. apply andb_true_iff in H. destruct H as [C H].
  now rewrite (isDigitChar_not_dash c C), (IH H).
Qed.

Lemma decimalOf_three (a b c : ascii) :
  isDigitChar a = true -> isDigitChar b = true -> isDigitChar c = true ->
  0 <= decimalOf (String a (String b (String c EmptyString))) <= 999.
Proof.
  intros A B C. apply isDigitChar_bounds in A, B, C.
  unfold decimalOf. cbn [decimalFrom]. lia.
Qed.

Lemma displayID_parses (Number : string -> JsNumber) (prefix : ascii)
    (type : DisplayType) (displayID : string) :
  readsDigits Number ->
  (prefix = "T"%char /\ type = TokenDisplay)
  \/ (prefix = "S"%char /\ type = SlotDisplay) ->
  matchesClasses (displayIDClasses prefix) displayID = true ->
  exists doctor date sequence,
    displayID
    = String prefix (String "-" (doctor ++ String "-" (date ++ String "-" sequence)))
    /\ parseDisplayID Number displayID
       = inl (ParsedDisplayID.Build type doctor date (decimalOf sequence))
    /\ isValidDisplayIDFormat doctor = true
    /\ String.length date = 8%nat
    /\ allDigits date = true
    /\ String.length sequence = 3%nat
    /\ allDigits sequence = true
    /\ 0 <= decimalOf sequence <= 999.
Proof.
  intros HN Hp H.
  pose proof (matchesClasses_length _ _ H) as L. cbn in L.
  do 21 (destruct displayID as [|? displayID]; [discriminate|]).
  destruct displayID; [|discriminate]. clear L.
  cbn [matchesClasses displayIDClasses] in H.
  repeat match type of H with
         | (_ && _ = true) =>
             let C := fresh "C" in
             apply andb_true_iff in H; destruct H as [C H]
         end.
  clear H.
  apply Ascii.eqb_eq in C, C0, C7, C16. subst a a0 a7 a16.
  exists (String a1 (String a2 (String a3 (String a4 (String a5 (String a6 "")))))),
         (String a8 (String a9 (String a10 (String a11 (String a12
            (String a13 (String a14 (String a15 "")))))))),
         (String a17 (String a18 (String a19 ""))).
  assert (Dd : allDigits (String a8 (String a9 (String a10 (String a11 (String a12
                 (String a13 (String a14 (String a15 "")))))))) = true)
    by (cbn [allDigits]; now rewrite C8, C9, C10, C11, C12, C13, C14, C15).
  assert (Ds : allDigits (String a17 (String a18 (String a19 ""))) = true)
    by (cbn [allDigits]; now rewrite C17, C18, C19).
  assert (Wd : without "-" (String a1 (String a2 (String a3 (String a4
                 (String a5 (String a6 "")))))) = true).
  { cbn [without].
    now rewrite (isUpperChar_not_dash _ C1), (isUpperChar_not_dash _ C2),
      (isUpperChar_not_dash _ C3), (isDigitChar_not_dash _ C4),
      (isDigitChar_not_dash _ C5), (isDigitChar_not_dash _ C6). }
  split; [reflexivity|]. split.
  - unfold parseDisplayID.
    change (String prefix (String "-" ?x)) with (String prefix "" ++ String "-" x).
    assert (Wp : without "-" (String prefix "") = true)
      by (destruct Hp as [[-> _]|[-> _]]; reflexivity).
    rewrite splitOn_app by exact Wp.
    change (String a1 (String a2 (String a3 (String a4 (String a5 (String a6 ?x))))))
      with (String a1 (String a2 (String a3 (String a4 (String a5 (String a6 ""))))) ++ x).
    rewrite splitOn_app by exact Wd.
    change (String a8 (String a9 (String a10 (String a11 (String a12
              (String a13 (String a14 (String a15 ?x))))))))
      with (String a8 (String a9 (String a10 (String a11 (String a12
              (String a13 (String a14 (String a15 ""))))))) ++ x).
    rewrite splitOn_app by exact (allDigits_without_dash _ Dd).
    rewrite splitOn_without by exact (allDigits_without_dash _ Ds).
    cbn [List.length Nat.eqb negb nth].
    rewrite HN by (first [discriminate|exact Ds|cbn; lia]).
    destruct Hp as [[-> ->]|[-> ->]]; reflexivity.
  - split.
    { unfold isValidDisplayIDFormat. cbn. now rewrite C1, C2, C3, C4, C5, C6. }
    split; [reflexivity|]. split; [exact Dd|]. split; [reflexivity|].
    split; [exact Ds|]. now apply decimalOf_three.
Qed.

(** X24. A display id that isValidTokenDisplayIDFormat (or
    isValidSlotDisplayIDFormat) accepts is one parseDisplayID parses: it is
    T- (or S-), a doctor display id that isValidDisplayIDFormat accepts,
    eight digits of date and three digits of sequence, dash-separated, and
    the parse returns the kind, those parts and the number the three
    digits denote.  A bare doctor display id is refused with "Invalid
    displayID format". *)
Theorem valid_display_ids_parse (Number : string -> JsNumber) (displayID : string) :
  readsDigits Number ->
  let parsesAs prefix type :=
    exists doctor date sequence,
      displayID
      = String prefix (String "-" (doctor ++ String "-" (date ++ String "-" sequence)))
      /\ parseDisplayID Number displayID
         = inl (ParsedDisplayID.Build type doctor date (decimalOf sequence))
      /\ isValidDisplayIDFormat doctor = true
      /\ String.length date = 8%nat
      /\ allDigits date = true
      /\ String.length sequence = 3%nat
      /\ allDigits sequence = true
      /\ 0 <= decimalOf sequence <= 999 in
  (isValidTokenDisplayIDFormat displayID = true -> parsesAs "T"%char TokenDisplay)
  /\ (isValidSlotDisplayIDFormat displayID = true -> parsesAs "S"%char SlotDisplay)
  /\ (isValidDisplayIDFormat displayID = true ->
      parseDisplayID Number displayID = inr "Invalid displayID format").
Proof.
  intros HN parsesAs. split; [|split].
  - intro H. eapply displayID_parses; eauto.
  - intro H. eapply displayID_parses; eauto.
  - unfold isValidDisplayIDFormat.
    destruct (Nat.eqb_spec (String.length displayID) 6) as [L|L];
      [|discriminate]. cbn [negb].
    do 6 (destruct displayID as [|? displayID]; [discriminate|]).
    destruct displayID; [|discriminate]. cbn [substring String.length Nat.sub].
    cbn [matchesClasses].
    destruct (isUpperChar a) eqn:C1; [|discriminate].
    destruct (isUpperChar a0) eqn:C2; [|discriminate].
    destruct (isUpperChar a1) eqn:C3; [|discriminate].
    destruct (isDigitChar a2) eqn:C4; [|discriminate].
    destruct (isDigitChar a3) eqn:C5; [|discriminate].
    destruct (isDigitChar a4) eqn:C6; [|discriminate].
    intros _. unfold parseDisplayID.
    rewrite splitOn_without; [reflexivity|].
    cbn [without].
    now rewrite (isUpperChar_not_dash _ C1), (isUpperChar_not_dash _ C2),
      (isUpperChar_not_dash _ C3), (isDigitChar_not_dash _ C4),
      (isDigitChar_not_dash _ C5), (isDigitChar_not_dash _ C6).
Qed.

Lemma valid_display_ids_parse_witness :
  readsDigits sampleNumber
  /\ isValidTokenDisplayIDFormat "T-AKG001-20260201-042" = true
  /\ parseDisplayID sampleNumber "T-AKG001-20260201-042"
     = inl (ParsedDisplayID.Build TokenDisplay "AKG001" "20260201" 42)
  /\ parseDisplayID sampleNumber "AKG001" = inr "Invalid displayID format".
Proof.
  split; [exact sampleNumber_readsDigits|]. split; [reflexivity|].
  destruct (valid_display_ids_parse "AKG001" sampleNumber_readsDigits)
    as (_ & _ & H).
  split; [reflexivity|]. apply H. reflexivity.
Defined.

Lemma digit_of_bounds (c : ascii) :
  48 <= Z.of_N (N_of_ascii c) <= 57 -> isDigitChar c = true.
Proof.
  intro H. unfold isDigitChar. rewrite andb_true_iff, !N.leb_le. lia.
Qed.

Lemma validTime_chars (time : string) :
  isValidTimeFormat time = true ->
  exists h1 h2 m1 m2,
    time = String h1 (String h2 (String ":" (String m1 (String m2 EmptyString))))
    /\ isDigitChar h1 = true /\ isDigitChar h2 = true
    /\ isDigitChar m1 = true /\ isDigitChar m2 = true
    /\ (Z.of_N (N_of_ascii h1) - 48) * 10 + (Z.of_N (N_of_ascii h2) - 48) <= 23
    /\ Z.of_N (N_of_ascii m1) <= 53.
Proof.
  destruct time as [|h1 [|h2 [|c [|m1 [|m2 [|? ?]]]]]]; try discriminate.
  cbn [isValidTimeFormat]. rewrite !andb_true_iff, orb_true_iff, !andb_true_iff.
  intros [[[Hh Hc] Hm1] Hm2].
  apply Ascii.eqb_eq in Hc. subst c.
  apply charBetween_bounds in Hm1.
  change (Z.of_N (N_of_ascii "0")) with 48 in Hm1.
  change (Z.of_N (N_of_ascii "5")) with 53 in Hm1.
  exists h1, h2, m1, m2. split; [reflexivity|].
  destruct Hh as [[A B]|[A B]].
  - apply charBetween_bounds in A. apply isDigitChar_bounds in B.
    change (Z.of_N (N_of_ascii "0")) with 48 in A.
    change (Z.of_N (N_of_ascii "1")) with 49 in A.
    repeat split; try (apply digit_of_bounds; lia); try exact Hm2; lia.
  - apply Ascii.eqb_eq in A. subst h1. apply charBetween_bounds in B.
    change (Z.of_N (N_of_ascii "0")) with 48 in B.
    change (Z.of_N (N_of_ascii "3")) with 51 in B.
    change (Z.of_N (N_of_ascii "2")) with 50.
    repeat split; try (apply digit_of_bounds; lia); try exact Hm2;
      try reflexivity; lia.
Qed.

Lemma timeParts_valid (Number : string -> JsNumber) (h1 h2 m1 m2 : ascii) :
  readsDigits Number ->
  isDigitChar h1 = true -> isDigitChar h2 = true ->
  isDigitChar m1 = true -> isDigitChar m2 = true ->
  timeParts Number
    (String h1 (String h2 (String ":" (String m1 (String m2 EmptyString)))))
  = [Integer ((Z.of_N (N_of_ascii h1) - 48) * 10 + (Z.of_N (N_of_ascii h2) - 48));
     Integer ((Z.of_N (N_of_ascii m1) - 48) * 10 + (Z.of_N (N_of_ascii m2) - 48))].
Proof.
  intros HN A B C D. unfold timeParts.
  change (String h1 (String h2 (String ":" ?x)))
    with (String h1 (String h2 "") ++ String ":" x).
  rewrite splitOn_app by
    (cbn [without];
     now rewrite (isDigitChar_not_colon _ A), (isDigitChar_not_colon _ B)).
  rewrite splitOn_without by
    (cbn [without];
     now rewrite (isDigitChar_not_colon _ C), (isDigitChar_not_colon _ D)).
  cbn [map].
  rewrite !HN by
    (first [discriminate | cbn [allDigits]; now rewrite ?A, ?B, ?C, ?D
           | cbn; lia]).
  reflexivity.
Qed.

(** X25. A string isValidTimeFormat accepts is a time of day: split at the
    colon and read with Number it is an hour from 0 to 23 and a minute
    from 0 to 59; and on such strings the order of the strings, by which
    the store sorts slots, is the order of the times. *)
Theorem valid_times_order (Number : string -> JsNumber) (time1 time2 : string) :
  readsDigits Number ->
  isValidTimeFormat time1 = true ->
  isValidTimeFormat time2 = true ->
  exists hours1 minutes1 hours2 minutes2,
    timeParts Number time1 = [Integer hours1; Integer minutes1]
    /\ timeParts Number time2 = [Integer hours2; Integer minutes2]
    /\ 0 <= hours1 <= 23 /\ 0 <= minutes1 <= 59
    /\ 0 <= hours2 <= 23 /\ 0 <= minutes2 <= 59
    /\ String.leb time1 time2
       = timeLeb (HHMM hours1 minutes1) (HHMM hours2 minutes2)
    /\ (time1 = time2 <-> hours1 = hours2 /\ minutes1 = minutes2).
Proof.
  intros HN V1 V2.
  apply validTime_chars in V1, V2.
  destruct V1 as (a1 & a2 & a3 & a4 & -> & A1 & A2 & A3 & A4 & Ah & Am).
  destruct V2 as (b1 & b2 & b3 & b4 & -> & B1 & B2 & B3 & B4 & Bh & Bm).
  do 4 eexists.
  split; [now apply timeParts_valid|]. split; [now apply timeParts_valid|].
  pose proof (isDigitChar_bounds _ A1). pose proof (isDigitChar_bounds _ A2).
  pose proof (isDigitChar_bounds _ A3). pose proof (isDigitChar_bounds _ A4).
  pose proof (isDigitChar_bounds _ B1). pose proof (isDigitChar_bounds _ B2).
  pose proof (isDigitChar_bounds _ B3). pose proof (isDigitChar_bounds _ B4).
  split; [lia|]. split; [lia|]. split; [lia|]. split; [lia|].
  split.
  - unfold String.leb, timeLeb. cbn [String.compare hours minutes].
    unfold Ascii.compare.
    change (N_of_ascii ":" ?= N_of_ascii ":")%N with Eq.
    destruct (N.compare_spec (N_of_ascii a1) (N_of_ascii b1));
      destruct (N.compare_spec (N_of_ascii a2) (N_of_ascii b2));
      destruct (N.compare_spec (N_of_ascii a3) (N_of_ascii b3));
      destruct (N.compare_spec (N_of_ascii a4) (N_of_ascii b4));
      cbv iota;
      match goal with
      | |- _ = (?x <? ?y) || ((?u =? ?v) && (?p <=? ?q)) =>
          destruct (Z.ltb_spec x y); destruct (Z.eqb_spec u v);
          destruct (Z.leb_spec p q); cbn; try reflexivity; exfalso; lia
      end.
  - split.
    + intro E. injection E as -> -> -> ->. split; reflexivity.
    + intros [E1 E2].
      assert (N_of_ascii a1 = N_of_ascii b1) by lia.
      assert (N_of_ascii a2 = N_of_ascii b2) by lia.
      assert (N_of_ascii a3 = N_of_ascii b3) by lia.
      assert (N_of_ascii a4 = N_of_ascii b4) by lia.
      rewrite <- (ascii_N_embedding a1), <- (ascii_N_embedding a2),
        <- (ascii_N_embedding a3), <- (ascii_N_embedding a4),
        <- (ascii_N_embedding b1), <- (ascii_N_embedding b2),
        <- (ascii_N_embedding b3), <- (ascii_N_embedding b4).
      congruence.
Qed.

Lemma valid_times_order_witness :
  readsDigits sampleNumber
  /\ isValidTimeFormat "09:30" = true
  /\ isValidTimeFormat "10:00" = true
  /\ exists hours1 minutes1 hours2 minutes2,
       timeParts sampleNumber "09:30" = [Integer hours1; Integer minutes1]
       /\ timeParts sampleNumber "10:00" = [Integer hours2; Integer minutes2]
       /\ String.leb "09:30" "10:00"
          = timeLeb (HHMM hours1 minutes1) (HHMM hours2 minutes2).
Proof.
  split; [exact sampleNumber_readsDigits|].
  split; [reflexivity|]. split; [reflexivity|].
  destruct (valid_times_order "09:30" "10:00" sampleNumber_readsDigits
              eq_refl eq_refl)
    as (h1 & m1 & h2 & m2 & H1 & H2 & _ & _ & _ & _ & H3 & _).
  exists h1, m1, h2, m2. repeat split; assumption.
Defined.

(** The validator is strict about the two digits of the hour. *)
Example isValidTimeFormat_edges :
  isValidTimeFormat "23:59" = true
  /\ isValidTimeFormat "24:00" = false
  /\ isValidTimeFormat "9:30" = false
  /\ isValidTimeFormat "09:60" = false.
Proof. repeat split. Qed.

(** * Seats and queues *)

Lemma updateFirst_count_exact (q : Token.t -> bool) (tokenId : string)
    (d : TokenData) (l : list Token.t) (t : Token.t) :
  find (fun t => String.eqb (Token.id t) tokenId) l = Some t ->
  len (filter q (updateFirst tokenId d l))
  = len (filter q l) - (if q t then 1 else 0)
    + (if q (applyData d t) then 1 else 0).
Proof.
  unfold len. induction l as [|x l IH]; cbn [find updateFirst];
    [discriminate|].
  destruct (String.eqb (Token.id x) tokenId).
  - intro H. injection H as ->. cbn [filter].
    destruct (q (applyData d t)), (q t); cbn [List.length];
      rewrite ?Nat2Z.inj_succ; lia.
  - intro H. specialize (IH H). cbn [filter].
    destruct (q x); cbn [List.length]; rewrite ?Nat2Z.inj_succ; lia.
Qed.

(** X26. completeToken frees the seat and promotes nobody: the slot of the
    token counts one allocated token less, every other slot counts what it
    did, the token is COMPLETED with completedAt set to now, and every
    other token is exactly as it was. *)
Theorem completeToken_frees_seat (now : Z) (tokenId : string) (db : Db)
    (token : Token.t) (slotId : string) :
  findToken tokenId db = Some token ->
  Token.status token = TokenStatus.ALLOCATED ->
  Token.slotId token = Some slotId ->
  exists db' token',
    completeToken now tokenId db = Ok (db', tt)
    /\ findToken tokenId db' = Some token'
    /\ Token.status token' = TokenStatus.COMPLETED
    /\ Token.completedAt token' = Some now
    /\ allocatedCount slotId db' = allocatedCount slotId db - 1
    /\ (forall other, other <> slotId ->
                      allocatedCount other db' = allocatedCount other db)
    /\ (forall other, other <> tokenId ->
                      findToken other db' = findToken other db).
Proof.
  intros F Ha Hs. unfold completeToken. rewrite F, Ha. cbn [TokenStatus.eqb negb].
  do 2 eexists. split; [reflexivity|].
  split; [rewrite findToken_createAudit;
          exact (findToken_updateToken tokenId (completeData now) db F)|].
  split; [reflexivity|]. split; [reflexivity|].
  assert (Count : forall sid,
             allocatedCount sid
               (createAudit
                  (AuditLog.Build "COMPLETE_TOKEN" (Some tokenId)
                     (Token.slotId token) (Some (Token.doctorId token)) [] now)
                  (updateToken tokenId (completeData now) db))
             = allocatedCount sid db - (if allocatedIn sid token then 1 else 0)).
  { intro sid. unfold allocatedCount, allocatedTokensOf.
    cbn [tokens createAudit updateToken withTokens].
    rewrite (updateFirst_count_exact (allocatedIn sid) tokenId
               (completeData now) (tokens db) F).
    rewrite (@allocatedIn_status sid (applyData (completeData now) token))
      by (cbn; discriminate).
    lia. }
  split; [|split].
  - rewrite Count. unfold allocatedIn, optStrEqb.
    now rewrite Hs, Ha, String.eqb_refl.
  - intros other N. rewrite Count. unfold allocatedIn, optStrEqb. rewrite Hs.
    destruct (String.eqb_spec slotId other); [congruence|]. cbn. lia.
  - intros other N. rewrite findToken_createAudit.
    now apply findToken_updateToken_other.
Qed.

Lemma completeToken_frees_seat_witness :
  exists db' token',
    completeToken (9 * hour) "t1" scenarioS1 = Ok (db', tt)
    /\ findToken "t1" db' = Some token'
    /\ Token.status token' = TokenStatus.COMPLETED
    /\ allocatedCount "S" db' = 1
    /\ findToken "t2" db' = findToken "t2" scenarioS1.
Proof.
  destruct (completeToken_frees_seat (9 * hour) "t1" scenarioS1
              (token := mkToken "t1" Source.WALKIN Priority.WALKIN
                          TokenStatus.ALLOCATED (Some "S") 1)
              (slotId := "S") eq_refl eq_refl eq_refl)
    as (db' & t' & H1 & H2 & H3 & _ & H4 & _ & H5).
  exists db', t'. split; [exact H1|]. split; [exact H2|]. split; [exact H3|].
  split; [rewrite H4; reflexivity|]. apply H5. discriminate.
Defined.

Lemma expired_not_due (doctorId : string) (parsedDate : Z) (t : Token.t) :
  expires doctorId parsedDate
    (if expires doctorId parsedDate t then applyData expireData t else t)
  = false.
Proof.
  destruct (expires doctorId parsedDate t) eqn:E; [|exact E].
  unfold expires. cbn. apply andb_false_r.
Qed.

Lemma filter_none (A : Type) (p : A -> bool) (l : list A) :
  (forall x, In x l -> p x = false) -> filter p l = [].
Proof.
  induction l as [|x l IH]; intro H; simpl; [reflexivity|].
  rewrite (H x (or_introl eq_refl)). apply IH. intros y Hy. apply H. now right.
Qed.

Lemma queue_empty_after_update (tokenId doctorId : string) (parsedDate : Z)
    (d : TokenData) (st : TokenStatus.t) (db : Db) :
  (forall t, In t (tokens db) -> expires doctorId parsedDate t = false) ->
  setStatus d = Some st -> st <> TokenStatus.WAITING ->
  forall walkInOnly,
    findWaiting walkInOnly doctorId parsedDate (updateToken tokenId d db) = [].
Proof.
  intros Hnone Hd Hst b. unfold findWaiting. rewrite filter_none; [reflexivity|].
  assert (F : Forall (fun t => expires doctorId parsedDate t = false)
                (tokens (updateToken tokenId d db))).
  { cbn [tokens updateToken withTokens]. apply updateFirst_Forall.
    - apply Forall_forall. exact Hnone.
    - intros t _. unfold expires. cbn. rewrite Hd. cbn.
      destruct (TokenStatus_eqb_spec st TokenStatus.WAITING);
        [contradiction|apply andb_false_r]. }
  intros t Hin. rewrite Forall_forall in F. pose proof (F t Hin) as E.
  unfold expires in E. now rewrite E.
Qed.

(** X27. After expireWaitingTokens the doctor has no waiting token left on
    that date: the waiting list of the reallocation block (walk-ins only or
    not) is empty, so a later cancelToken or markNoShow of a token of that
    doctor and date promotes nobody, and a second expireWaitingTokens
    expires nothing and returns 0. *)
Theorem expireWaitingTokens_empties_queue (now now' : Z) (fuel : nat)
    (doctorId : string) (date date' : string) (parsedDate : Z) (db : Db) :
  let db' := fst (expireWaitingTokens now doctorId date parsedDate db) in
  (forall walkInOnly, findWaiting walkInOnly doctorId parsedDate db' = [])
  /\ (forall tokenId token db2 r,
        findToken tokenId db' = Some token ->
        Token.doctorId token = doctorId -> Token.date token = parsedDate ->
        cancelToken fuel now' tokenId db' = Ok (db2, r)
        \/ markNoShow fuel now' tokenId db' = Ok (db2, r) ->
        ReallocationResult.movedTokens r = [])
  /\ snd (expireWaitingTokens now' doctorId date' parsedDate db') = 0
  /\ tokens (fst (expireWaitingTokens now' doctorId date' parsedDate db'))
     = tokens db'.
Proof.
  intro db'.
  assert (Hnone : forall t, In t (tokens db') -> expires doctorId parsedDate t = false).
  { intros t Hin. subst db'.
    cbn [expireWaitingTokens fst tokens createAudit withTokens] in Hin.
    apply in_map_iff in Hin. destruct Hin as (t0 & <- & _).
    apply expired_not_due. }
  assert (Hw : forall walkInOnly, findWaiting walkInOnly doctorId parsedDate db' = []).
  { intro b. unfold findWaiting. rewrite filter_none; [reflexivity|].
    intros t Hin. pose proof (Hnone t Hin) as E. unfold expires in E.
    now rewrite E. }
  split; [exact Hw|]. split.
  - intros tokenId token db2 r F Hd Hp [H|H].
    + unfold cancelToken in H. rewrite F in H.
      destruct (TokenStatus.eqb _ TokenStatus.CANCELLED); [discriminate|].
      destruct (TokenStatus.eqb _ TokenStatus.COMPLETED); [discriminate|].
      destruct (tokenSlot token db') as [theSlot|];
        [|injection H as _ <-; reflexivity].
      destruct (truthy _); [|injection H as _ <-; reflexivity].
      destruct (hasSlotEnded _ _ _); [injection H as _ <-; reflexivity|].
      unfold selectWaitingTokens in H. rewrite Hd, Hp in H.
      rewrite !(@queue_empty_after_update tokenId doctorId parsedDate
                  (cancelData now') TokenStatus.CANCELLED db' Hnone eq_refl)
        in H by discriminate.
      destruct (_ && _) in H; cbn in H; injection H as _ <-; reflexivity.
    + unfold markNoShow in H. rewrite F in H.
      destruct (negb _); [discriminate|].
      destruct (tokenSlot token db') as [theSlot|];
        [|injection H as _ <-; reflexivity].
      destruct (hasSlotEnded _ _ _); [injection H as _ <-; reflexivity|].
      unfold selectWaitingTokens in H. rewrite Hd, Hp in H.
      rewrite !(@queue_empty_after_update tokenId doctorId parsedDate
                  noShowData TokenStatus.NO_SHOW db' Hnone eq_refl)
        in H by discriminate.
      destruct (_ && _) in H; cbn in H; injection H as _ <-; reflexivity.
  - cbn [expireWaitingTokens fst snd]. split.
    + rewrite filter_none; [reflexivity|exact Hnone].
    + cbn [tokens createAudit withTokens].
      rewrite <- (map_id (tokens db')) at 2. apply map_ext_in.
      intros t Hin. now rewrite (Hnone t Hin).
Qed.
